(** * IPyHOP-temporal: the temporal layer and the action registry

    A shallow embedding of [ipyhop/temporal/stn.py], [ipyhop/temporal/utils.py],
    [ipyhop/temporal_metadata.py] and [ipyhop/actions.py], and the properties
    of the specification that concern them.

    Conventions of the embedding:
    - Python objects that are mutated in place (the [set] and [dict] held
      by an [STN], the [STN] itself) live in an explicit object store and
      are referred to by address; methods are programs of a
      state-and-exception monad over that store, so that aliasing and the
      partial effects of a call that raises are visible;
    - a [float] is a binary64 number, with its rounding; an [int] is an
      integer of [Z];
    - a [str] is a string of ASCII characters;
    - the regular expression of the duration parser is modelled by the
      deterministic matcher it amounts to;
    - the values and the arithmetic of the [datetime] library are modelled;
      its parser and printer of ISO 8601 text and the time zone of the
      machine are an interface, with one instance on the Gregorian
      calendar used to evaluate concrete calls. *)

From Stdlib Require Import ZArith QArith Qround Qcanon List String Ascii Lia Bool.
From Stdlib Require Import DecimalString DecimalN.
From stdpp Require Import gmap strings list fin_maps.

Local Open Scope string_scope.
Local Open Scope Z_scope.

(** ** Exceptions and the state-and-exception monad *)

Module Py.

Inductive exn : Type :=
| ValueError | TypeError | AssertionError | AttributeError | OverflowError.

Inductive outcome (A : Type) : Type :=
| Return (a : A)
| Raise (e : exn).
Arguments Return {A} a.
Arguments Raise {A} e.

(** A computation over a store [S]: the store after the call is kept also
    when the call raises, as in Python. *)
Definition M (S A : Type) : Type := S -> outcome A * S.

Definition ret {S A} (a : A) : M S A := fun s => (Return a, s).
Definition raise {S A} (e : exn) : M S A := fun s => (Raise e, s).
Definition bind {S A B} (m : M S A) (k : A -> M S B) : M S B :=
  fun s => match m s with
           | (Return a, s') => k a s'
           | (Raise e, s') => (Raise e, s')
           end.
End Py.
Import Py.

Notation "'do' x <- m ; k" := (bind m (fun x => k))
  (at level 10, x name, m at level 100, k at level 200,
   format "'[v' 'do'  x  <-  m ; '/' k ']'").

(** ** Python floats

    A [float] is an IEEE 754 binary64 number.  A finite float is modelled
    by the rational number it denotes; every operation computes the exact
    rational result and rounds it to the nearest binary64 number, ties to
    the even significand, overflowing to infinity.  The results are
    reduced fractions, so that two results are equal when they denote the
    same number.  The sign of zero is not modelled: no function below
    observes it. *)

Module PyFloat.

Inductive pyfloat : Type :=
| Finite (q : Q)
| PosInf
| NegInf
| NaN.

(** Numerator and denominator of [a / 2 ^ e]. *)
Definition div_pow2 (a : Q) (e : Z) : Z * Z :=
  if 0 <=? e then (Qnum a, Zpos (Qden a) * 2 ^ e)
  else (Qnum a * 2 ^ (- e), Zpos (Qden a)).

(** [floor (log2 a)] for [a > 0]. *)
Definition ilog2 (a : Q) : Z :=
  let e0 := Z.log2 (Qnum a) - Z.log2 (Zpos (Qden a)) in
  let '(n, d) := div_pow2 a e0 in
  if d <=? n then e0 else e0 - 1.

(** The integer nearest to [n / d], ties to even, for [d > 0]. *)
Definition round_half_even (n d : Z) : Z :=
  let q := n / d in
  match 2 * (n mod d) ?= d with
  | Lt => q
  | Gt => q + 1
  | Eq => if Z.even q then q else q + 1
  end.

(** [2 ^ e] as a rational. *)
Definition pow2 (e : Z) : Q :=
  if 0 <=? e then inject_Z (2 ^ e) else 1 / inject_Z (2 ^ (- e)).

(** Rounding of a positive rational: the significand has 53 bits, the
    least exponent of a unit in the last place is -1074 (subnormals), and
    a result of [2 ^ 1024] or more is an overflow. *)
Definition round64_pos (a : Q) : pyfloat :=
  let e := ilog2 a in
  let qe := Z.max (e - 52) (- 1074) in
  let '(n, d) := div_pow2 a qe in
  let m := round_half_even n d in
  if (0 <? m) && (1024 <=? Z.log2 m + qe) then PosInf
  else Finite (Qred (inject_Z m * pow2 qe)).

Definition fneg (x : pyfloat) : pyfloat :=
  match x with
  | Finite q => Finite (- q)
  | PosInf => NegInf
  | NegInf => PosInf
  | NaN => NaN
  end.

(** The binary64 number nearest to the rational [q], computed on the
    reduced fraction. *)
Definition round64 (q : Q) : pyfloat :=
  let q := Qred q in
  match Qnum q with
  | Z0 => Finite 0
  | Zpos _ => round64_pos q
  | Zneg _ => fneg (round64_pos (- q))
  end.

(** [float(z)] for an integer small enough not to overflow (Python raises
    [OverflowError] otherwise; the callers below pass small constants). *)
Definition of_Z (z : Z) : pyfloat := round64 (inject_Z z).

Definition fadd (x y : pyfloat) : pyfloat :=
  match x, y with
  | NaN, _ | _, NaN => NaN
  | PosInf, NegInf | NegInf, PosInf => NaN
  | PosInf, _ | _, PosInf => PosInf
  | NegInf, _ | _, NegInf => NegInf
  | Finite a, Finite b => round64 (a + b)
  end.

Definition fsub (x y : pyfloat) : pyfloat := fadd x (fneg y).

Definition fmul (x y : pyfloat) : pyfloat :=
  match x, y with
  | NaN, _ | _, NaN => NaN
  | Finite a, Finite b => round64 (a * b)
  | Finite a, PosInf | PosInf, Finite a =>
      match Qnum a with Z0 => NaN | Zpos _ => PosInf | Zneg _ => NegInf end
  | Finite a, NegInf | NegInf, Finite a =>
      match Qnum a with Z0 => NaN | Zpos _ => NegInf | Zneg _ => PosInf end
  | PosInf, PosInf | NegInf, NegInf => PosInf
  | PosInf, NegInf | NegInf, PosInf => NegInf
  end.

(** [x < y] *)
Definition flt (x y : pyfloat) : bool :=
  match x, y with
  | NaN, _ | _, NaN => false
  | Finite a, Finite b => negb (Qle_bool b a)
  | NegInf, NegInf | PosInf, _ | _, NegInf => false
  | NegInf, _ | _, PosInf => true
  end.

(** [x == y] *)
Definition feq (x y : pyfloat) : bool :=
  match x, y with
  | Finite a, Finite b => Qeq_bool a b
  | PosInf, PosInf | NegInf, NegInf => true
  | _, _ => false
  end.

(** A number that is neither negative nor not-a-number. *)
Definition nonneg_float (x : pyfloat) : Prop :=
  match x with
  | Finite q => (0 <= q)%Q
  | PosInf => True
  | _ => False
  end.

End PyFloat.

(** ** Durations ([ipyhop/temporal/utils.py])

    A Python [str] is modelled by a string of ASCII characters. *)

Module Duration.
Import PyFloat.

(** [\d] on ASCII text. *)
Definition is_digit (c : ascii) : bool :=
  let n := N_of_ascii c in ((48 <=? n) && (n <=? 57))%N.

(** The longest prefix of digits, and what follows it. *)
Fixpoint span_digits (s : string) : string * string :=
  match s with
  | String c r =>
      if is_digit c
      then let '(ds, rest) := span_digits r in (String c ds, rest)
      else (EmptyString, s)
  | EmptyString => (EmptyString, EmptyString)
  end.

(** The number a string of digits denotes, after [acc]. *)
Fixpoint digits_value (s : string) (acc : Z) : Z :=
  match s with
  | String c r => digits_value r (10 * acc + (Z.of_N (N_of_ascii c) - 48))
  | EmptyString => acc
  end.

(** The text captured by [(\d+(?:\.\d+)?)]: digits, and perhaps a dot and
    more digits. *)
Record number_text : Type := mk_number {
  int_digits : string;
  frac_digits : option string
}.

(** [\d+(?:\.\d+)?] at the head of [s]: what is captured and what follows.
    Both quantifiers are greedy, and the regular expression engine never
    needs to give digits back: in the pattern the number is followed by a
    letter, which can follow neither a shorter run of digits (a digit comes
    next) nor the integer part alone when a fraction was there (a dot comes
    next). *)
Definition match_number (s : string) : option (number_text * string) :=
  match span_digits s with
  | (EmptyString, _) => None
  | (ds, rest) =>
      match rest with
      | String "." rest' =>
          match span_digits rest' with
          | (EmptyString, _) => Some (mk_number ds None, rest)
          | (fs, rest'') => Some (mk_number ds (Some fs), rest'')
          end
      | _ => Some (mk_number ds None, rest)
      end
  end.

(** One optional group [(?:(\d+(?:\.\d+)?)X)?] for the letter [X]: the
    capture, if the group takes part in the match, and what follows. *)
Definition match_component (letter : ascii) (s : string)
  : option number_text * string :=
  match match_number s with
  | Some (num, String c rest) =>
      if Ascii.eqb c letter then (Some num, rest) else (None, s)
  | _ => (None, s)
  end.

(** [float(text)] on a captured text: the decimal number, correctly
    rounded. *)
Definition float_of_number (t : number_text) : pyfloat :=
  match frac_digits t with
  | None => round64 (inject_Z (digits_value (int_digits t) 0))
  | Some fs =>
      let scale := 10 ^ Z.of_nat (String.length fs) in
      round64 (Qmake (digits_value fs (digits_value (int_digits t) 0))
                 (Z.to_pos scale))
  end.

(** [float(match.group(i) or 0)] *)
Definition float_of_group (g : option number_text) : pyfloat :=
  match g with
  | Some t => float_of_number t
  | None => of_Z 0
  end.

(** [parse_iso8601_duration].  Python's [None] is Rocq's [None].  Every
    group of the pattern is optional, so [re.match] returns a match object
    on every input and the test [if not match] never succeeds. *)
Definition parse_iso8601_duration (duration_str : string) : option pyfloat :=
  match duration_str with
  | EmptyString => None
  | _ =>
      if negb (String.prefix "PT" duration_str) then None
      else
        let rest := String.substring 2 (String.length duration_str - 2)
                      duration_str in
        let '(g1, rest1) := match_component "H" rest in
        let '(g2, rest2) := match_component "M" rest1 in
        let '(g3, _) := match_component "S" rest2 in
        let hours := float_of_group g1 in
        let minutes := float_of_group g2 in
        let seconds := float_of_group g3 in
        let total_seconds :=
          fadd (fadd (fmul hours (of_Z 3600)) (fmul minutes (of_Z 60)))
            seconds in
        Some total_seconds
  end.

(** *** Formatting *)

(** [str(z)] for an integer. *)
Definition str_int (z : Z) : string :=
  match z with
  | Zneg p => String "-" (NilEmpty.string_of_uint (N.to_uint (Npos p)))
  | _ => NilEmpty.string_of_uint (N.to_uint (Z.to_N z))
  end.

(** A Python number: an [int] or a [float]. *)
Inductive pynum : Type :=
| PInt (z : Z)
| PFloat (f : pyfloat).

(** C's [fmod(x, w)] for a positive integer constant [w]: exact, with the
    sign of [x]. *)
Definition fmod (x : pyfloat) (w : Z) : pyfloat :=
  match x with
  | Finite q =>
      let t := if Qle_bool 0 q then Qfloor (q / inject_Z w)
               else Qceiling (q / inject_Z w) in
      Finite (Qred (q - inject_Z t * inject_Z w))
  | _ => NaN
  end.

Definition is_zero (x : pyfloat) : bool := feq x (Finite 0).

(** [floor(x)] on a float. *)
Definition ffloor (x : pyfloat) : pyfloat :=
  match x with Finite q => Finite (inject_Z (Qfloor q)) | _ => x end.

Definition fdiv_const (x : pyfloat) (w : Z) : pyfloat :=
  match x with
  | Finite q => round64 (q / inject_Z w)
  | _ => x
  end.

(** [x % w] on a float, for a positive integer constant [w]
    (CPython's [float_rem]). *)
Definition float_mod (x : pyfloat) (w : Z) : pyfloat :=
  let md := fmod x w in
  if is_zero md then Finite 0
  else if flt md (Finite 0) then fadd md (of_Z w) else md.

(** [x // w] on a float, for a positive integer constant [w]
    (CPython's [float_floor_div]). *)
Definition float_floordiv (x : pyfloat) (w : Z) : pyfloat :=
  let md := fmod x w in
  let div := fdiv_const (fsub x md) w in
  let div := if negb (is_zero md) && flt md (Finite 0)
             then fsub div (of_Z 1) else div in
  if is_zero div then Finite 0
  else
    let floordiv := ffloor div in
    if flt (Finite (1 # 2)) (fsub div floordiv)
    then fadd floordiv (of_Z 1) else floordiv.

(** [int(x)] on a float: truncation; not a number and the infinities are
    refused. *)
Definition int_of_float (x : pyfloat) : outcome Z :=
  match x with
  | Finite q => Return (if Qle_bool 0 q then Qfloor q else Qceiling q)
  | NaN => Raise ValueError
  | _ => Raise OverflowError
  end.

(** [s.rstrip(c)] *)
Fixpoint rstrip (c : ascii) (s : string) : string :=
  match s with
  | EmptyString => EmptyString
  | String a r =>
      match rstrip c r with
      | EmptyString => if Ascii.eqb a c then EmptyString else String a EmptyString
      | r' => String a r'
      end
  end.

(** [n] written with at least [width] digits, zero-padded. *)
Definition pad_zeros (width : nat) (s : string) : string :=
  string_of_list_ascii (repeat "0"%char (width - String.length s))%nat ++ s.

(** [f"{x:.6f}"] for a float [x >= 0]: the exact value rounded to six
    decimals, ties to even. *)
Definition format_6f (x : pyfloat) : string :=
  match x with
  | Finite q =>
      let n := round_half_even (Qnum q * 1000000) (Zpos (Qden q)) in
      str_int (n / 1000000) ++ "." ++ pad_zeros 6 (str_int (n mod 1000000))
  | PosInf => "inf"
  | NegInf => "-inf"
  | NaN => "nan"
  end.

(** [seconds < 0] *)
Definition num_neg (x : pynum) : bool :=
  match x with
  | PInt z => z <? 0
  | PFloat f => flt f (Finite 0)
  end.

(** [int(x // w)] and [x % w] for a number [x] and a positive integer
    constant [w]. *)
Definition num_divmod (x : pynum) (w : Z) : outcome Z * pynum :=
  match x with
  | PInt z => (Return (z / w), PInt (z mod w))
  | PFloat f => (int_of_float (float_floordiv f w), PFloat (float_mod f w))
  end.

(** The text of the seconds component: [f"{int(secs)}"] when
    [secs == int(secs)], and [f"{secs:.6f}".rstrip('0').rstrip('.')]
    otherwise. *)
Definition secs_text (secs : pynum) : string :=
  match secs with
  | PInt z => str_int z
  | PFloat f =>
      match int_of_float f with
      | Return z =>
          if feq f (Finite (inject_Z z)) then str_int z
          else rstrip "." (rstrip "0" (format_6f f))
      | Raise _ => rstrip "." (rstrip "0" (format_6f f))
      end
  end.

(** [secs > 0] *)
Definition num_pos (x : pynum) : bool :=
  match x with
  | PInt z => 0 <? z
  | PFloat f => flt (Finite 0) f
  end.

(** [format_iso8601_duration].  The two conversions [int(...)] raise on a
    float that is not a number. *)
Definition format_iso8601_duration (seconds : pynum) : outcome string :=
  let seconds := if num_neg seconds then PInt 0 else seconds in
  let '(hours, remaining) := num_divmod seconds 3600 in
  match hours with
  | Raise e => Raise e
  | Return hours =>
      let '(minutes, secs) := num_divmod remaining 60 in
      match minutes with
      | Raise e => Raise e
      | Return minutes =>
          let parts : list string := [] in
          let parts := if 0 <? hours
                       then (parts ++ [(str_int hours ++ "H")%string])%list
                       else parts in
          let parts := if 0 <? minutes
                       then (parts ++ [(str_int minutes ++ "M")%string])%list
                       else parts in
          let parts :=
            if num_pos secs || ((hours =? 0) && (minutes =? 0))
            then (parts ++ [(secs_text secs ++ "S")%string])%list else parts in
          Return (match parts with
                  | [] => "PT0S"
                  | _ => "PT" ++ String.concat "" parts
                  end)
      end
  end.

(** *** Notions used to reason about texts of durations *)

(** The text does not begin with a digit. *)
Definition no_leading_digit (s : string) : Prop :=
  match s with
  | String c _ => is_digit c = false
  | EmptyString => True
  end.

(** One of the letters of the pattern. *)
Definition unit_letter (c : ascii) : Prop :=
  c = "H"%char \/ c = "M"%char \/ c = "S"%char.

(** The text of one component of a duration, in front of [r]: nothing
    when the component is left out. *)
Definition component (letter : ascii) (o : option Z) (r : string) : string :=
  match o with
  | Some z => str_int z ++ String letter r
  | None => r
  end.

Definition component_value (o : option Z) : pyfloat :=
  match o with
  | Some z => round64 (inject_Z z)
  | None => Finite 0
  end.

Definition component_ok (o : option Z) : Prop :=
  match o with Some z => 0 <= z | None => True end.

Definition positive_part (z : Z) : option Z :=
  if 0 <? z then Some z else None.

(** *** The round trip

    [parse_iso8601_duration(format_iso8601_duration(n)) == n] for a Python
    [int] [n]: formatting returns a text, parsing the text returns a float,
    and the float compares equal to [n]. *)
Definition round_trips (n : Z) : Prop :=
  exists (text : string) (f : pyfloat),
    format_iso8601_duration (PInt n) = Return text
    /\ parse_iso8601_duration text = Some f
    /\ feq f (Finite (inject_Z n)) = true.

End Duration.

(** ** Instants ([ipyhop/temporal/utils.py], second part)

    The functions of the module on instants call the standard [datetime]
    library.  Its values and its arithmetic are modelled here; its parser
    and printer of ISO 8601 text, and the time zone of the machine, are
    taken as an interface, [DatetimeLib]. *)

Module DateTime.
Import PyFloat Duration.

(** A [datetime]: the wall-clock reading, in microseconds since
    0001-01-01T00:00:00, and the offset from UTC in microseconds when the
    value is aware ([tzinfo] is a fixed-offset [timezone]), or [None] when
    it is naive. *)
Record datetime : Type := mk_datetime {
  wall : Z;
  tzinfo : option Z
}.

(** A value without time zone. *)
Definition naive (dt : datetime) : bool :=
  match tzinfo dt with None => true | Some _ => false end.

Definition us_per_second : Z := 1000000.
Definition us_per_day : Z := 86400 * us_per_second.

(** [datetime.max] is 9999-12-31T23:59:59.999999, on day 3652059 of the
    proleptic Gregorian calendar (day 1 is 0001-01-01). *)
Definition max_wall : Z := 3652059 * us_per_day - 1.

(** A [timedelta], in microseconds; its days are at most 999999999 in
    magnitude. *)
Definition timedelta_in_range (us : Z) : bool :=
  (- 999999999 * us_per_day <=? us) && (us <? (999999999 + 1) * us_per_day).

(** [timedelta(seconds=x)] for a float [x]: the integer part is converted
    exactly, the fractional part is multiplied by [10 ^ 6] in floating
    point and rounded to a whole number of microseconds, ties to even. *)
Definition timedelta_of_seconds (x : pyfloat) : outcome Z :=
  match x with
  | NaN => Raise ValueError
  | PosInf | NegInf => Raise OverflowError
  | Finite q =>
      let intpart := if Qle_bool 0 q then Qfloor q else Qceiling q in
      let fracpart := (q - inject_Z intpart)%Q in
      let leftover :=
        match fmul (Finite (inject_Z us_per_second)) (Finite (Qred fracpart)) with
        | Finite l => round_half_even (Qnum l) (Zpos (Qden l))
        | _ => 0
        end in
      let us := intpart * us_per_second + leftover in
      if timedelta_in_range us then Return us else Raise OverflowError
  end.

(** [dt + td]: the sum has to be a date of the years 1 to 9999. *)
Definition datetime_add (dt : datetime) (td : Z) : outcome datetime :=
  let w := wall dt + td in
  if (0 <=? w) && (w <=? max_wall) then Return (mk_datetime w (tzinfo dt))
  else Raise OverflowError.

(** [a - b]: a naive and an aware [datetime] cannot be subtracted. *)
Definition datetime_sub (a b : datetime) : outcome Z :=
  match tzinfo a, tzinfo b with
  | None, None => Return (wall a - wall b)
  | Some oa, Some ob => Return ((wall a - oa) - (wall b - ob))
  | _, _ => Raise TypeError
  end.

(** [td.total_seconds()]: the quotient of two integers, correctly
    rounded. *)
Definition total_seconds (td : Z) : pyfloat :=
  round64 (Qmake td (Z.to_pos us_per_second)).

(** What the module uses of the [datetime] library and of the machine:
    [fromisoformat] ([None] stands for [ValueError]), [isoformat], and the
    offset of the local time zone, [datetime.now().astimezone().tzinfo]. *)
Class DatetimeLib : Type := {
  fromisoformat : string -> option datetime;
  isoformat : datetime -> string;
  local_utcoffset : Z
}.

(** [s.endswith('Z')] *)
Fixpoint ends_with_Z (s : string) : bool :=
  match s with
  | EmptyString => false
  | String c EmptyString => Ascii.eqb c "Z"
  | String _ r => ends_with_Z r
  end.

(** [s[:-1]] *)
Fixpoint drop_last (s : string) : string :=
  match s with
  | EmptyString => EmptyString
  | String _ EmptyString => EmptyString
  | String c r => String c (drop_last r)
  end.

(** [s.replace('Z', '+00:00')] *)
Fixpoint replace_Z (s : string) : string :=
  match s with
  | EmptyString => EmptyString
  | String c r =>
      if Ascii.eqb c "Z" then ("+00:00" ++ replace_Z r)%string
      else String c (replace_Z r)
  end.

(** [s.replace('+00:00', 'Z')]: occurrences are replaced from the left and
    do not overlap. *)
Fixpoint replace_utc (s : string) : string :=
  match s with
  | String "+" (String "0" (String "0" (String ":" (String "0"
      (String "0" r))))) => String "Z" (replace_utc r)
  | String c r => String c (replace_utc r)
  | EmptyString => EmptyString
  end.

(** ['Z' not in s] *)
Fixpoint no_Z (s : string) : bool :=
  match s with
  | EmptyString => true
  | String c r => negb (Ascii.eqb c "Z") && no_Z r
  end.

Section WithLibrary.
Context `{DatetimeLib}.

(** [parse_iso8601_datetime] *)
Definition parse_iso8601_datetime (datetime_str : string) : option datetime :=
  let datetime_str :=
    if ends_with_Z datetime_str
    then (drop_last datetime_str ++ "+00:00")%string else datetime_str in
  fromisoformat (replace_Z datetime_str).

(** [format_iso8601_datetime]: a naive value is given the local zone. *)
Definition format_iso8601_datetime (dt : datetime) : string :=
  let dt := match tzinfo dt with
            | None => mk_datetime (wall dt) (Some local_utcoffset)
            | Some _ => dt
            end in
  replace_utc (isoformat dt).

(** The two kinds of argument the functions below accept for an instant
    and for a duration. *)
Inductive instant_arg : Type :=
| IDatetime (dt : datetime)
| IStr (s : string).

Inductive duration_arg : Type :=
| DFloat (x : pyfloat)
| DStr (s : string).

(** [add_duration_to_datetime]; the addition may raise. *)
Definition add_duration_to_datetime (dt : instant_arg) (duration : duration_arg)
  : outcome (option datetime) :=
  match (match dt with
         | IStr s => parse_iso8601_datetime s
         | IDatetime d => Some d
         end) with
  | None => Return None
  | Some dt =>
      match (match duration with
             | DStr s => parse_iso8601_duration s
             | DFloat x => Some x
             end) with
      | None => Return None
      | Some duration_seconds =>
          match timedelta_of_seconds duration_seconds with
          | Raise e => Raise e
          | Return td =>
              match datetime_add dt td with
              | Raise e => Raise e
              | Return r => Return (Some r)
              end
          end
      end
  end.

(** [calculate_end_time] *)
Definition calculate_end_time (start_time : instant_arg) (duration : duration_arg)
  : outcome (option string) :=
  match add_duration_to_datetime start_time duration with
  | Raise e => Raise e
  | Return None => Return None
  | Return (Some end_dt) => Return (Some (format_iso8601_datetime end_dt))
  end.

(** [now_iso8601], given what [datetime.utcnow()] reads from the clock:
    a naive value. *)
Definition now_iso8601 (utcnow : Z) : string :=
  format_iso8601_datetime (mk_datetime utcnow None).

End WithLibrary.

End DateTime.

(** ** Temporal metadata ([ipyhop/temporal_metadata.py]) *)

Module TemporalMetadata.
Import PyFloat Duration DateTime.

(** The three fields of an instance; Python's [None] is Rocq's [None]. *)
Record metadata : Type := mk_metadata {
  _duration : option string;
  _start_time : option string;
  _end_time : option string
}.

(** What a caller may pass for a duration and for an instant. *)
Inductive duration_value : Type :=
| VNum (x : pynum)
| VText (s : string)
| VOtherDuration.

Inductive time_value : Type :=
| TDatetime (dt : datetime)
| TText (s : string)
| TOtherTime.

(** [float(z)] for an [int]: too large an integer is refused. *)
Definition float_of_int (z : Z) : outcome pyfloat :=
  match round64 (inject_Z z) with
  | Finite q => Return (Finite q)
  | _ => Raise OverflowError
  end.

Definition with_duration (self : metadata) (d : option string) : metadata :=
  mk_metadata d (_start_time self) (_end_time self).
Definition with_start_time (self : metadata) (t : option string) : metadata :=
  mk_metadata (_duration self) t (_end_time self).
Definition with_end_time (self : metadata) (t : option string) : metadata :=
  mk_metadata (_duration self) (_start_time self) t.

(** [TemporalMetadata.set_duration] *)
Definition set_duration (duration : duration_value) : M metadata unit :=
  fun self =>
  match duration with
  | VNum x =>
      match (match x with
             | PInt z => float_of_int z
             | PFloat f => Return f
             end) with
      | Raise e => (Raise e, self)
      | Return f =>
          match format_iso8601_duration (PFloat f) with
          | Raise e => (Raise e, self)
          | Return text => (Return tt, with_duration self (Some text))
          end
      end
  | VText s =>
      match parse_iso8601_duration s with
      | Some _ => (Return tt, with_duration self (Some s))
      | None => (Raise ValueError, self)
      end
  | VOtherDuration => (Raise TypeError, self)
  end.

Section WithLibrary.
Context `{DatetimeLib}.

(** [TemporalMetadata.set_start_time] *)
Definition set_start_time (start_time : time_value) : M metadata unit :=
  fun self =>
  match start_time with
  | TDatetime dt =>
      (Return tt, with_start_time self (Some (format_iso8601_datetime dt)))
  | TText s =>
      match parse_iso8601_datetime s with
      | Some _ => (Return tt, with_start_time self (Some s))
      | None => (Raise ValueError, self)
      end
  | TOtherTime => (Raise TypeError, self)
  end.

(** [TemporalMetadata.set_end_time] *)
Definition set_end_time (end_time : time_value) : M metadata unit :=
  fun self =>
  match end_time with
  | TDatetime dt =>
      (Return tt, with_end_time self (Some (format_iso8601_datetime dt)))
  | TText s =>
      match parse_iso8601_datetime s with
      | Some _ => (Return tt, with_end_time self (Some s))
      | None => (Raise ValueError, self)
      end
  | TOtherTime => (Raise TypeError, self)
  end.

(** [TemporalMetadata.__init__]: the instance exists only if no setter
    raises. *)
Definition __init__ (duration : option duration_value)
    (start_time end_time : option time_value) : outcome metadata :=
  let body : M metadata unit :=
    do _ <- match duration with Some d => set_duration d | None => ret tt end;
    do _ <- match start_time with Some t => set_start_time t | None => ret tt end;
    match end_time with Some t => set_end_time t | None => ret tt end in
  match body (mk_metadata None None None) with
  | (Return _, self) => Return self
  | (Raise e, _) => Raise e
  end.

(** [TemporalMetadata.calculate_end_from_duration] *)
Definition calculate_end_from_duration : M metadata bool :=
  fun self =>
  match _start_time self, _duration self with
  | Some start, Some duration =>
      match calculate_end_time (IStr start) (DStr duration) with
      | Raise e => (Raise e, self)
      | Return (Some end_) => (Return true, with_end_time self (Some end_))
      | Return None => (Return false, self)
      end
  | _, _ => (Return false, self)
  end.

(** [TemporalMetadata.calculate_duration] *)
Definition calculate_duration : M metadata bool :=
  fun self =>
  match _start_time self, _end_time self with
  | Some start, Some end_ =>
      match parse_iso8601_datetime start, parse_iso8601_datetime end_ with
      | Some start_dt, Some end_dt =>
          match datetime_sub end_dt start_dt with
          | Raise e => (Raise e, self)
          | Return delta =>
              if flt (total_seconds delta) (Finite 0) then (Return false, self)
              else
                match format_iso8601_duration (PFloat (total_seconds delta)) with
                | Raise e => (Raise e, self)
                | Return text => (Return true, with_duration self (Some text))
                end
          end
      | _, _ => (Return false, self)
      end
  | _, _ => (Return false, self)
  end.

(** What the setters check before they store a text: it parses. *)
Definition duration_valid (self : metadata) : Prop :=
  forall d, _duration self = Some d -> parse_iso8601_duration d <> None.

Definition start_valid (self : metadata) : Prop :=
  forall s, _start_time self = Some s -> parse_iso8601_datetime s <> None.

(** [TemporalMetadata.duration_seconds] *)
Definition duration_seconds (self : metadata) : option pyfloat :=
  match _duration self with
  | None => None
  | Some d => parse_iso8601_duration d
  end.

Definition end_valid (self : metadata) : Prop :=
  forall s, _end_time self = Some s -> parse_iso8601_datetime s <> None.

(** [TemporalMetadata.set_start_now] and [set_end_now], given the reading
    of the clock. *)
Definition set_start_now (utcnow : Z) : M metadata unit :=
  fun self => (Return tt, with_start_time self (Some (now_iso8601 utcnow))).

Definition set_end_now (utcnow : Z) : M metadata unit :=
  fun self => (Return tt, with_end_time self (Some (now_iso8601 utcnow))).

(** [TemporalMetadata.copy]: a new instance built by the constructor from
    the three texts. *)
Definition copy (self : metadata) : outcome metadata :=
  __init__ (option_map VText (_duration self))
    (option_map TText (_start_time self))
    (option_map TText (_end_time self)).

(** The values of a dictionary handed to [from_dict]. *)
Inductive pyval : Type :=
| PVNone
| PVStr (s : string)
| PVNum (x : pynum)
| PVDatetime (dt : datetime)
| PVOther.

(** [TemporalMetadata.to_dict] *)
Definition to_dict (self : metadata) : gmap string pyval :=
  let result : gmap string pyval := ∅ in
  let result := match _duration self with
                | Some d => <["duration" := PVStr d]> result
                | None => result
                end in
  let result := match _start_time self with
                | Some t => <["start_time" := PVStr t]> result
                | None => result
                end in
  match _end_time self with
  | Some t => <["end_time" := PVStr t]> result
  | None => result
  end.

(** What the constructor makes of [data.get(key)]. *)
Definition duration_of_get (v : option pyval) : option duration_value :=
  match v with
  | None | Some PVNone => None
  | Some (PVStr s) => Some (VText s)
  | Some (PVNum x) => Some (VNum x)
  | Some _ => Some VOtherDuration
  end.

Definition time_of_get (v : option pyval) : option time_value :=
  match v with
  | None | Some PVNone => None
  | Some (PVStr s) => Some (TText s)
  | Some (PVDatetime dt) => Some (TDatetime dt)
  | Some _ => Some TOtherTime
  end.

(** [TemporalMetadata.from_dict] *)
Definition from_dict (data : gmap string pyval) : outcome metadata :=
  __init__ (duration_of_get (data !! "duration"))
    (time_of_get (data !! "start_time"))
    (time_of_get (data !! "end_time")).

(** The calls of a client on an instance; [Some b] is the boolean a
    method returns, [None] is Python's [None]. *)
Inductive method : Type :=
| SetDuration (duration : duration_value)
| SetStartTime (start_time : time_value)
| SetEndTime (end_time : time_value)
| SetStartNow (utcnow : Z)
| SetEndNow (utcnow : Z)
| CalculateEndFromDuration
| CalculateDuration.

Definition invoke (c : method) : M metadata (option bool) :=
  match c with
  | SetDuration d => do _ <- set_duration d; ret None
  | SetStartTime t => do _ <- set_start_time t; ret None
  | SetEndTime t => do _ <- set_end_time t; ret None
  | SetStartNow now => do _ <- set_start_now now; ret None
  | SetEndNow now => do _ <- set_end_now now; ret None
  | CalculateEndFromDuration => do b <- calculate_end_from_duration; ret (Some b)
  | CalculateDuration => do b <- calculate_duration; ret (Some b)
  end.

(** The instance after a sequence of calls, raising or not. *)
Definition run (cs : list method) (self : metadata) : metadata :=
  foldl (fun self c => snd (invoke c self)) self cs.

End WithLibrary.

(** An instance used in examples: half an hour from ten o'clock. *)
Definition half_hour_task : metadata :=
  mk_metadata (Some "PT30M") (Some "2025-01-01T10:00:00Z") None.

End TemporalMetadata.

(** ** An instance of the [datetime] interface

    The parser and the printer of the library on the layout
    [YYYY-MM-DDTHH:MM:SS], with an optional fraction [.ffffff] and an
    optional offset [+HH:MM] or [-HH:MM], on the proleptic Gregorian
    calendar.  It is used to run the functions above on concrete texts; no
    general statement below depends on it. *)

Module IsoCalendar.
Import PyFloat Duration DateTime.

Definition is_leap (y : Z) : bool :=
  (y mod 4 =? 0) && (negb (y mod 100 =? 0) || (y mod 400 =? 0)).

Definition days_in_month (y m : Z) : Z :=
  if m =? 2 then (if is_leap y then 29 else 28)
  else if (m =? 4) || (m =? 6) || (m =? 9) || (m =? 11) then 30
  else 31.

Definition days_before_year (y : Z) : Z :=
  let p := y - 1 in p * 365 + p / 4 - p / 100 + p / 400.

Definition days_before_month (y m : Z) : Z :=
  fold_left (fun acc k => acc + days_in_month y k)
    (map Z.of_nat (seq 1 (Z.to_nat (m - 1)))) 0.

(** The number of the day, day 1 being 0001-01-01. *)
Definition ymd2ord (y m d : Z) : Z :=
  days_before_year y + days_before_month y m + d.

(** Exactly [n] digits at the head of [s]. *)
Fixpoint take_digits (n : nat) (s : string) (acc : Z) : option (Z * string) :=
  match n with
  | O => Some (acc, s)
  | S n' =>
      match s with
      | String c r =>
          if is_digit c
          then take_digits n' r (10 * acc + (Z.of_N (N_of_ascii c) - 48))
          else None
      | EmptyString => None
      end
  end.

(** The character [c] at the head of [s]. *)
Definition take_char (c : ascii) (s : string) : option string :=
  match s with
  | String a r => if Ascii.eqb a c then Some r else None
  | EmptyString => None
  end.

(** The offset [+HH:MM] or [-HH:MM], up to the end of the text. *)
Definition parse_offset (s : string) : option Z :=
  match s with
  | String sign r =>
      if Ascii.eqb sign "+" || Ascii.eqb sign "-" then
        match take_digits 2 r 0 with
        | Some (hh, r1) =>
            match take_char ":" r1 with
            | Some r2 =>
                match take_digits 2 r2 0 with
                | Some (mm, EmptyString) =>
                    if (hh <? 24) && (mm <? 60) then
                      let off := (hh * 3600 + mm * 60) * us_per_second in
                      Some (if Ascii.eqb sign "-" then - off else off)
                    else None
                | _ => None
                end
            | None => None
            end
        | None => None
        end
      else None
  | EmptyString => None
  end.

(** What follows the seconds: an optional fraction, then an optional
    offset. *)
Definition parse_tail (s : string) : option (Z * option Z) :=
  let '(us, rest) :=
    match take_char "." s with
    | Some r =>
        match take_digits 6 r 0 with
        | Some (f, r') => (Some f, r')
        | None => (None, s)
        end
    | None => (Some 0, s)
    end in
  match us, rest with
  | None, _ => None
  | Some f, EmptyString => Some (f, None)
  | Some f, _ =>
      match parse_offset rest with
      | Some off => Some (f, Some off)
      | None => None
      end
  end.

Definition iso_fromisoformat (s : string) : option datetime :=
  match take_digits 4 s 0 with
  | Some (y, r1) =>
    match take_char "-" r1 with
    | Some r2 =>
      match take_digits 2 r2 0 with
      | Some (mo, r3) =>
        match take_char "-" r3 with
        | Some r4 =>
          match take_digits 2 r4 0 with
          | Some (d, String _ r5) =>
            match take_digits 2 r5 0 with
            | Some (hh, r6) =>
              match take_char ":" r6 with
              | Some r7 =>
                match take_digits 2 r7 0 with
                | Some (mi, r8) =>
                  match take_char ":" r8 with
                  | Some r9 =>
                    match take_digits 2 r9 0 with
                    | Some (ss, r10) =>
                      match parse_tail r10 with
                      | Some (us, off) =>
                        if (1 <=? y) && (1 <=? mo) && (mo <=? 12) && (1 <=? d)
                           && (d <=? days_in_month y mo) && (hh <? 24)
                           && (mi <? 60) && (ss <? 60)
                        then Some (mk_datetime
                               ((ymd2ord y mo d - 1) * us_per_day
                                + ((hh * 60 + mi) * 60 + ss) * us_per_second
                                + us) off)
                        else None
                      | None => None
                      end
                    | None => None
                    end
                  | None => None
                  end
                | None => None
                end
              | None => None
              end
            | None => None
            end
          | _ => None
          end
        | None => None
        end
      | None => None
      end
    | None => None
    end
  | None => None
  end.

(** Year, month and day of the day [n]. *)
Definition ord2ymd (n : Z) : Z * Z * Z :=
  let n := n - 1 in
  let n400 := n / 146097 in
  let n := n mod 146097 in
  let n100 := n / 36524 in
  let n := n mod 36524 in
  let n4 := n / 1461 in
  let n := n mod 1461 in
  let n1 := n / 365 in
  let n := n mod 365 in
  let year := n400 * 400 + 1 + n100 * 100 + n4 * 4 + n1 in
  if (n1 =? 4) || (n100 =? 4) then (year - 1, 12, 31)
  else
    let leapyear := (n1 =? 3) && (negb (n4 =? 24) || (n100 =? 3)) in
    let month := (n + 50) / 32 in
    let preceding :=
      days_before_month 1 month + (if (2 <? month) && leapyear then 1 else 0) in
    if n <? preceding then
      let month := month - 1 in
      let preceding :=
        preceding - (days_in_month 1 month
                     + (if (month =? 2) && leapyear then 1 else 0)) in
      (year, month, n - preceding + 1)
    else (year, month, n - preceding + 1).

(** [z] written with at least [width] digits. *)
Definition padded (width : nat) (z : Z) : string := pad_zeros width (str_int z).

Definition format_offset (off : Z) : string :=
  let a := Z.abs off in
  let hh := a / (3600 * us_per_second) in
  let mm := a mod (3600 * us_per_second) / (60 * us_per_second) in
  let ss := a mod (60 * us_per_second) / us_per_second in
  let us := a mod us_per_second in
  let sign := if off <? 0 then "-" else "+" in
  let seconds_shown := (0 <? ss) || (0 <? us) in
  let fraction_shown := 0 <? us in
  (sign ++ padded 2 hh ++ ":" ++ padded 2 mm
   ++ (if seconds_shown then ":" ++ padded 2 ss else "")
   ++ (if fraction_shown then "." ++ padded 6 us else ""))%string.

Definition iso_isoformat (dt : datetime) : string :=
  let '(y, mo, d) := ord2ymd (wall dt / us_per_day + 1) in
  let t := wall dt mod us_per_day in
  let hh := t / (3600 * us_per_second) in
  let mi := t mod (3600 * us_per_second) / (60 * us_per_second) in
  let ss := t mod (60 * us_per_second) / us_per_second in
  let us := t mod us_per_second in
  let fraction_shown := 0 <? us in
  (padded 4 y ++ "-" ++ padded 2 mo ++ "-" ++ padded 2 d ++ "T"
   ++ padded 2 hh ++ ":" ++ padded 2 mi ++ ":" ++ padded 2 ss
   ++ (if fraction_shown then "." ++ padded 6 us else "")
   ++ match tzinfo dt with Some off => format_offset off | None => "" end)%string.

(** The library on a machine whose zone is [local] microseconds ahead of
    UTC. *)
Definition iso_lib (local : Z) : DatetimeLib :=
  {| fromisoformat := iso_fromisoformat;
     isoformat := iso_isoformat;
     local_utcoffset := local |}.

(** The library on a machine in the UTC zone. *)
Definition utc : DatetimeLib := iso_lib 0.

End IsoCalendar.

(** ** The action registry ([ipyhop/actions.py]) *)

Module Actions.
Import PyFloat Duration DateTime TemporalMetadata.

(** The Python values a caller may pass to the registry. *)
#[local] Set Warnings "-register-all".
Inductive pyobj : Type :=
| OFunction (name : string)   (* a function, with its [__name__] *)
| OCallable                   (* a callable object without [__name__] *)
| OStr (s : string)
| ONum (x : pynum)
| ONone
| OList (items : list pyobj)
| OTuple (items : list pyobj)
| OOther.

(** [callable(o)] *)
Definition callable (o : pyobj) : bool :=
  match o with
  | OFunction _ | OCallable => true
  | _ => false
  end.

(** [o.__name__] of a callable *)
Definition name_of (o : pyobj) : outcome string :=
  match o with
  | OFunction name => Return name
  | _ => Raise AttributeError
  end.

(** The registry: four dictionaries keyed by action name. *)
Record actions : Type := mk_actions {
  action_dict : gmap string pyobj;
  action_prob : gmap string pyobj;
  action_cost : gmap string pyobj;
  action_temporal_dict : gmap string metadata
}.

(** [Actions.__init__] *)
Definition new_actions : actions := mk_actions ∅ ∅ ∅ ∅.

(** The default probability pair [[1, 0]] and the default cost [1.0]. *)
Definition default_prob : pyobj := OList [ONum (PInt 1); ONum (PInt 0)].
Definition default_cost : pyobj := ONum (PFloat (Finite 1)).

(** [d.update(items)] *)
Definition update {V} (d : gmap string V) (items : list (string * V))
  : gmap string V :=
  foldl (fun d kv => <[fst kv := snd kv]> d) d items.

(** [[action.__name__ for action in action_list]], which raises at the
    first element without a name. *)
Fixpoint names_of (l : list pyobj) : outcome (list string) :=
  match l with
  | [] => Return []
  | o :: rest =>
      match name_of o with
      | Raise e => Raise e
      | Return name =>
          match names_of rest with
          | Raise e => Raise e
          | Return names => Return (name :: names)
          end
      end
  end.

(** [Actions.declare_actions] *)
Definition declare_actions (action_list : pyobj) : M actions unit :=
  fun self =>
  match action_list with
  | OList l =>
      if negb (forallb callable l) then (Raise AssertionError, self)
      else
        match names_of l with
        | Raise e => (Raise e, self)
        | Return names =>
            (Return tt,
             mk_actions
               (update (action_dict self) (combine names l))
               (update (action_prob self) (map (fun n => (n, default_prob)) names))
               (update (action_cost self) (map (fun n => (n, default_cost)) names))
               (action_temporal_dict self))
        end
  | _ => (Raise AssertionError, self)
  end.

(** [Actions.declare_action_models]: both dictionaries are updated, then
    the two sizes are compared with the size of [action_dict]. *)
Definition declare_action_models (act_prob_dict act_cost_dict : list (string * pyobj))
  : M actions unit :=
  fun self =>
  let self := mk_actions (action_dict self)
                (update (action_prob self) act_prob_dict)
                (update (action_cost self) act_cost_dict)
                (action_temporal_dict self) in
  if negb (size (action_prob self) =? size (action_dict self))%nat
  then (Raise AssertionError, self)
  else if negb (size (action_cost self) =? size (action_dict self))%nat
  then (Raise AssertionError, self)
  else (Return tt, self).

(** [self.action_dict[name] = f; self.action_prob[name] = [1, 0];
    self.action_cost[name] = 1.0] *)
Definition register (name : string) (f : pyobj) (self : actions) : actions :=
  mk_actions (<[name := f]> (action_dict self))
             (<[name := default_prob]> (action_prob self))
             (<[name := default_cost]> (action_cost self))
             (action_temporal_dict self).

(** The elements of an item of the list, when [len(item)] is defined. *)
Definition elements_of (item : pyobj) : option (list pyobj) :=
  match item with
  | OTuple l | OList l => Some l
  | OStr s => Some (map (fun c => OStr (String c EmptyString)) (list_ascii_of_string s))
  | _ => None
  end.

(** The argument [duration] of [TemporalMetadata(duration=...)]. *)
Definition duration_of (o : pyobj) : option duration_value :=
  match o with
  | ONone => None
  | ONum x => Some (VNum x)
  | OStr s => Some (VText s)
  | _ => Some VOtherDuration
  end.

Section WithLibrary.
Context `{DatetimeLib}.

(** The end of the body of the loop of [declare_temporal_actions]. *)
Definition store_metadata (action_name : string) (duration : pyobj)
  : M actions unit :=
  fun self =>
  match TemporalMetadata.__init__ (duration_of duration) None None with
  | Raise e => (Raise e, self)
  | Return temporal_metadata =>
      (Return tt,
       mk_actions (action_dict self) (action_prob self) (action_cost self)
         (<[action_name := temporal_metadata]> (action_temporal_dict self)))
  end.

(** The body of the loop of [declare_temporal_actions]. *)
Definition declare_temporal_item (item : pyobj) : M actions unit :=
  fun self =>
  match elements_of item with
  | None => (Raise TypeError, self)
  | Some [action_func; duration] =>
      if negb (callable action_func) then (Raise AssertionError, self)
      else
        match name_of action_func with
        | Raise e => (Raise e, self)
        | Return action_name =>
            let self :=
              match action_dict self !! action_name with
              | None => register action_name action_func self
              | Some _ => self
              end in
            store_metadata action_name duration self
        end
  | Some [action_name; action_func; duration] =>
      match action_name with
      | OStr action_name =>
          if negb (callable action_func) then (Raise AssertionError, self)
          else store_metadata action_name duration
                 (register action_name action_func self)
      | _ => (Raise AssertionError, self)
      end
  | Some _ => (Raise ValueError, self)
  end.

Fixpoint declare_temporal_items (items : list pyobj) : M actions unit :=
  match items with
  | [] => ret tt
  | item :: rest =>
      do _ <- declare_temporal_item item;
      declare_temporal_items rest
  end.

(** [Actions.declare_temporal_actions] *)
Definition declare_temporal_actions (temporal_action_list : pyobj)
  : M actions unit :=
  match temporal_action_list with
  | OList items => declare_temporal_items items
  | _ => raise AssertionError
  end.

(** A declaration call. *)
Inductive declaration : Type :=
| DeclareActions (action_list : pyobj)
| DeclareActionModels (act_prob_dict act_cost_dict : list (string * pyobj))
| DeclareTemporalActions (temporal_action_list : pyobj).

Definition declare (d : declaration) : M actions unit :=
  match d with
  | DeclareActions l => declare_actions l
  | DeclareActionModels p c => declare_action_models p c
  | DeclareTemporalActions l => declare_temporal_actions l
  end.

(** The registry after a sequence of declaration calls, raising or
    not. *)
Definition declare_all (ds : list declaration) (self : actions) : actions :=
  foldl (fun self d => snd (declare d self)) self ds.

End WithLibrary.

(** [Actions.get_temporal_metadata] *)
Definition get_temporal_metadata (action_name : string) (self : actions)
  : option metadata :=
  action_temporal_dict self !! action_name.

(** [Actions.has_temporal_info] *)
Definition has_temporal_info (action_name : string) (self : actions) : bool :=
  bool_decide (is_Some (action_temporal_dict self !! action_name)).

(** The cost map and the probability map have the key set of the action
    map. *)
Definition in_sync (self : actions) : Prop :=
  dom (action_cost self) = dom (action_dict self)
  /\ dom (action_prob self) = dom (action_dict self).

(** The four key sets of [self] are within those of [self']. *)
Definition keeps_names (self self' : actions) : Prop :=
  dom (action_dict self) ⊆ dom (action_dict self')
  /\ dom (action_prob self) ⊆ dom (action_prob self')
  /\ dom (action_cost self) ⊆ dom (action_cost self')
  /\ dom (action_temporal_dict self) ⊆ dom (action_temporal_dict self').

(** Every action with temporal information is registered, and its
    metadata is a duration that parses and nothing else. *)
Definition temporal_ok (self : actions) : Prop :=
  forall name m, action_temporal_dict self !! name = Some m ->
    is_Some (action_dict self !! name)
    /\ _start_time m = None /\ _end_time m = None /\ duration_valid m.

End Actions.

(** ** Simple Temporal Network ([ipyhop/temporal/stn.py]) *)

Module STN.

(** Entries of the distance matrix: a finite number or [math.inf].
    Constraint bounds are Python numbers; they are modelled as integers
    (the bounds of every scenario of the specification and of the module's
    own demo routine are [int]s). *)
Inductive dval : Type := Fin (z : Z) | Inf.

(** [a > b] on matrix entries. *)
Definition dgt (a b : dval) : bool :=
  match a, b with
  | Inf, Fin _ => true
  | Fin x, Fin y => y <? x
  | _, Inf => false
  end.

(** [a < b] on matrix entries. *)
Definition dlt (a b : dval) : bool := dgt b a.

Definition addr := nat.

(** A Python [dict] keeps its keys in insertion order; assigning to a key
    that is present keeps its position. *)
Abbreviation pydict K V := (list (K * V)) (only parsing).

Fixpoint dict_set {K V} `{EqDecision K} (k : K) (v : V) (d : pydict K V)
  : pydict K V :=
  match d with
  | [] => [(k, v)]
  | (k', v') :: d' =>
      if decide (k = k') then (k, v) :: d' else (k', v') :: dict_set k v d'
  end.

Fixpoint dict_get {K V} `{EqDecision K} (k : K) (d : pydict K V) : option V :=
  match d with
  | [] => None
  | (k', v') :: d' => if decide (k = k') then Some v' else dict_get k d'
  end.

Abbreviation matrix := (gmap (string * string) dval) (only parsing).
Abbreviation cdict := (pydict (string * string) (Z * Z)) (only parsing).

(** The fields of an [STN] instance.  [time_points] and [constraints] hold
    references to a [set] object and a [dict] object of the store. *)
Record stn : Type := mk_stn {
  time_points : addr;
  constraints : addr;
  _distance_matrix : option matrix;
  _consistent : option bool;
  time_unit : string
}.

Record heap : Type := mk_heap {
  sets : gmap addr (gset string);
  dicts : gmap addr cdict;
  stns : gmap addr stn
}.

Definition empty_heap : heap := mk_heap ∅ ∅ ∅.

(** *** Store primitives *)

Definition alloc_set (X : gset string) : M heap addr := fun h =>
  let a := fresh (dom (sets h)) in
  (Return a, mk_heap (<[a := X]> (sets h)) (dicts h) (stns h)).

Definition alloc_dict (d : cdict) : M heap addr := fun h =>
  let a := fresh (dom (dicts h)) in
  (Return a, mk_heap (sets h) (<[a := d]> (dicts h)) (stns h)).

Definition alloc_stn (o : stn) : M heap addr := fun h =>
  let a := fresh (dom (stns h)) in
  (Return a, mk_heap (sets h) (dicts h) (<[a := o]> (stns h))).

(** Reading through a dangling reference cannot happen for objects built
    by the class; it is modelled as an [AttributeError]. *)
Definition read_set (a : addr) : M heap (gset string) := fun h =>
  match sets h !! a with
  | Some X => (Return X, h)
  | None => (Raise AttributeError, h)
  end.

Definition read_dict (a : addr) : M heap cdict := fun h =>
  match dicts h !! a with
  | Some d => (Return d, h)
  | None => (Raise AttributeError, h)
  end.

Definition read_stn (a : addr) : M heap stn := fun h =>
  match stns h !! a with
  | Some o => (Return o, h)
  | None => (Raise AttributeError, h)
  end.

Definition write_set (a : addr) (X : gset string) : M heap unit := fun h =>
  (Return tt, mk_heap (<[a := X]> (sets h)) (dicts h) (stns h)).

Definition write_dict (a : addr) (d : cdict) : M heap unit := fun h =>
  (Return tt, mk_heap (sets h) (<[a := d]> (dicts h)) (stns h)).

Definition write_stn (a : addr) (o : stn) : M heap unit := fun h =>
  (Return tt, mk_heap (sets h) (dicts h) (<[a := o]> (stns h))).

(** [self._consistent = c; self._distance_matrix = m] *)
Definition set_cache (self : addr) (m : option matrix) (c : option bool)
  : M heap unit :=
  do o <- read_stn self;
  write_stn self (mk_stn (time_points o) (constraints o) m c (time_unit o)).

(** *** Methods *)

(** [STN.__init__] *)
Definition __init__ (unit_name : string) : M heap addr :=
  do tp <- alloc_set ∅;
  do cs <- alloc_dict [];
  alloc_stn (mk_stn tp cs None None unit_name).

(** [STN.add_time_point] *)
Definition add_time_point (self : addr) (point : string) : M heap unit :=
  do o <- read_stn self;
  do X <- read_set (time_points o);
  do _ <- write_set (time_points o) ({[point]} ∪ X);
  set_cache self None None.

(** [STN.add_constraint]: both points are added before the bounds are
    compared. *)
Definition add_constraint (self : addr) (from_point to_point : string)
    (constraint : Z * Z) : M heap unit :=
  do _ <- add_time_point self from_point;
  do _ <- add_time_point self to_point;
  let '(min_dist, max_dist) := constraint in
  if max_dist <? min_dist then raise ValueError
  else
    do o <- read_stn self;
    do d <- read_dict (constraints o);
    do _ <- write_dict (constraints o)
          (dict_set (from_point, to_point) (min_dist, max_dist) d);
    set_cache self None None.

(** [STN.add_interval] *)
Definition add_interval (self : addr) (start_point end_point : string)
    (duration : Z * Z) : M heap unit :=
  add_constraint self start_point end_point duration.

(** *** The distance matrix *)

(** [dist[i][j]] on the nested [defaultdict]: an entry that was never
    assigned reads as [math.inf]. *)
Definition dget (dist : matrix) (i j : string) : dval :=
  default Inf (dist !! (i, j)).

(** [for point in points: dist[point][point] = 0.0] *)
Definition init_diagonal (points : list string) : matrix :=
  foldl (fun dist point => <[(point, point) := Fin 0]> dist) ∅ points.

(** One iteration of the loop over [self.constraints.items()]. *)
Definition add_edge (dist : matrix) (item : (string * string) * (Z * Z))
  : matrix :=
  let '((from_pt, to_pt), (min_dist, max_dist)) := item in
  let dist1 :=
    if dgt (dget dist from_pt to_pt) (Fin max_dist)
    then <[(from_pt, to_pt) := Fin max_dist]> dist else dist in
  if dgt (dget dist1 to_pt from_pt) (Fin (- min_dist))
  then <[(to_pt, from_pt) := Fin (- min_dist)]> dist1 else dist1.

Definition add_edges (cs : cdict) (dist : matrix) : matrix :=
  foldl add_edge dist cs.

(** The body of the innermost Floyd-Warshall loop. *)
Definition relax (k i j : string) (dist : matrix) : matrix :=
  match dget dist i k, dget dist k j with
  | Fin ik, Fin kj =>
      if dgt (dget dist i j) (Fin (ik + kj))
      then <[(i, j) := Fin (ik + kj)]> dist else dist
  | _, _ => dist
  end.

(** [for k in points: for i in points: for j in points: ...] *)
Definition floyd_warshall (points : list string) (dist : matrix) : matrix :=
  foldl (fun dist k =>
    foldl (fun dist i =>
      foldl (fun dist j => relax k i j dist) dist points) dist points)
    dist points.

(** The all-pairs shortest-path closure of the constraint graph, as
    [_build_distance_matrix] computes it before the final conversion. *)
Definition closure (points : list string) (cs : cdict) : matrix :=
  floyd_warshall points (add_edges cs (init_diagonal points)).

(** [{(i, j): dist[i][j] for i in points for j in points}] *)
Definition to_plain_dict (points : list string) (dist : matrix) : matrix :=
  foldl (fun m i =>
    foldl (fun m j => <[(i, j) := dget dist i j]> m) m points) ∅ points.

(** The value [_build_distance_matrix] assigns to [self._distance_matrix].
    [points] is [list(self.time_points)]: the elements of the set in the
    order the set iterates them. *)
Definition build_matrix (points : list string) (cs : cdict) : matrix :=
  match points with
  | [] => ∅
  | _ => to_plain_dict points (closure points cs)
  end.

(** [STN._build_distance_matrix] *)
Definition _build_distance_matrix (self : addr) : M heap unit :=
  do o <- read_stn self;
  do X <- read_set (time_points o);
  do cs <- read_dict (constraints o);
  write_stn self
    (mk_stn (time_points o) (constraints o)
       (Some (build_matrix (elements X) cs)) (_consistent o) (time_unit o)).

(** The loop of [consistent] over the diagonal, with its early exit:
    [false] as soon as [m.get((point, point), 0) < 0]. *)
Fixpoint diagonal_ok (m : matrix) (points : list string) : bool :=
  match points with
  | [] => true
  | point :: rest =>
      if dlt (default (Fin 0) (m !! (point, point))) (Fin 0) then false
      else diagonal_ok m rest
  end.

(** [STN.consistent] *)
Definition consistent (self : addr) : M heap bool :=
  do o <- read_stn self;
  match _consistent o with
  | Some b => ret b
  | None =>
      do _ <- match _distance_matrix o with
              | None => _build_distance_matrix self
              | Some _ => ret tt
              end;
      do o <- read_stn self;
      do X <- read_set (time_points o);
      match _distance_matrix o with
      | None => raise AttributeError
      | Some m =>
          let b := diagonal_ok m (elements X) in
          do _ <- set_cache self (_distance_matrix o) (Some b);
          ret b
      end
  end.

(** [STN.get_distance]; Python's [None] is Rocq's [None]. *)
Definition get_distance (self : addr) (from_point to_point : string)
  : M heap (option Z) :=
  do o <- read_stn self;
  do X <- read_set (time_points o);
  if negb (bool_decide (from_point ∈ X)) || negb (bool_decide (to_point ∈ X))
  then ret None
  else
    do _ <- match _distance_matrix o with
            | None => _build_distance_matrix self
            | Some _ => ret tt
            end;
    do o <- read_stn self;
    match _distance_matrix o with
    | None => raise AttributeError
    | Some m =>
        match default Inf (m !! (from_point, to_point)) with
        | Fin z => ret (Some z)
        | Inf => ret None
        end
    end.

(** [STN.get_intervals] *)
Definition get_intervals (self : addr)
  : M heap (list (string * string * Z * Z)) :=
  do o <- read_stn self;
  do cs <- read_dict (constraints o);
  ret (map (fun '((from_pt, to_pt), (min_dur, max_dur)) =>
              (from_pt, to_pt, min_dur, max_dur)) cs).

(** [STN.find_free_slots]; the window and the duration are numbers of
    the same kind as the bounds. *)
Definition find_free_slots (self : addr) (duration window_start window_end : Z)
  : M heap (list (Z * Z)) :=
  do b <- consistent self;
  if b then
    if duration <=? window_end - window_start
    then ret [(window_start, window_end)] else ret []
  else ret [].

(** [STN.__str__] *)
Definition __str__ (self : addr) : M heap string :=
  do o <- read_stn self;
  do X <- read_set (time_points o);
  do cs <- read_dict (constraints o);
  do b <- consistent self;
  ret ("STN(time_points=" ++ Duration.str_int (Z.of_nat (size X))
       ++ ", constraints=" ++ Duration.str_int (Z.of_nat (length cs))
       ++ ", consistent=" ++ (if b then "True" else "False") ++ ")")%string.

(** [STN.copy]: a new instance holding copies of the set and of the
    dictionary. *)
Definition copy (self : addr) : M heap addr :=
  do o <- read_stn self;
  do new_stn <- __init__ (time_unit o);
  do X <- read_set (time_points o);
  do tp <- alloc_set X;
  do n <- read_stn new_stn;
  do _ <- write_stn new_stn
    (mk_stn tp (constraints n) (_distance_matrix n) (_consistent n)
       (time_unit n));
  do cs <- read_dict (constraints o);
  do cd <- alloc_dict cs;
  do n <- read_stn new_stn;
  do _ <- write_stn new_stn
    (mk_stn (time_points n) cd (_distance_matrix n) (_consistent n)
       (time_unit n));
  ret new_stn.

(** [STN.check_interval_conflicts] *)
Definition check_interval_conflicts (self : addr)
    (start_point end_point : string) (min_duration max_duration : Z)
  : M heap bool :=
  do o <- read_stn self;
  do temp_stn <- __init__ (time_unit o);
  do X <- read_set (time_points o);
  do tp <- alloc_set X;
  do n <- read_stn temp_stn;
  do _ <- write_stn temp_stn
    (mk_stn tp (constraints n) (_distance_matrix n) (_consistent n)
       (time_unit n));
  do cs <- read_dict (constraints o);
  do cd <- alloc_dict cs;
  do n <- read_stn temp_stn;
  do _ <- write_stn temp_stn
    (mk_stn (time_points n) cd (_distance_matrix n) (_consistent n)
       (time_unit n));
  do _ <- add_constraint temp_stn start_point end_point
            (min_duration, max_duration);
  do b <- consistent temp_stn;
  ret (negb b).

(** *** Client programs

    A client of the class is a sequence of calls of its methods on the
    instances it has created; an exception raised by a call is caught by
    the client, which goes on with the store as the call left it. *)
Inductive call : Type :=
| New (unit_name : string)
| AddTimePoint (self : addr) (point : string)
| AddConstraint (self : addr) (from_point to_point : string) (c : Z * Z)
| AddInterval (self : addr) (start_point end_point : string) (c : Z * Z)
| Consistent (self : addr)
| GetDistance (self : addr) (from_point to_point : string)
| GetIntervals (self : addr)
| CheckIntervalConflicts (self : addr) (start_point end_point : string)
    (min_duration max_duration : Z)
| FindFreeSlots (self : addr) (duration window_start window_end : Z)
| Str (self : addr)
| Copy (self : addr).

Definition exec (c : call) (h : heap) : heap :=
  match c with
  | New u => snd (__init__ u h)
  | AddTimePoint self p => snd (add_time_point self p h)
  | AddConstraint self u v c => snd (add_constraint self u v c h)
  | AddInterval self u v c => snd (add_interval self u v c h)
  | Consistent self => snd (consistent self h)
  | GetDistance self u v => snd (get_distance self u v h)
  | GetIntervals self => snd (get_intervals self h)
  | CheckIntervalConflicts self u v lo hi =>
      snd (check_interval_conflicts self u v lo hi h)
  | FindFreeSlots self d ws we => snd (find_free_slots self d ws we h)
  | Str self => snd (__str__ self h)
  | Copy self => snd (copy self h)
  end.

Definition exec_all (cs : list call) (h : heap) : heap :=
  foldl (fun h c => exec c h) h cs.

(** *** Views of an instance *)

(** The contents of [self.time_points]. *)
Definition points_of (h : heap) (self : addr) : option (gset string) :=
  match stns h !! self with
  | Some o => sets h !! time_points o
  | None => None
  end.

(** The contents of [self.constraints]. *)
Definition constraints_of (h : heap) (self : addr) : option cdict :=
  match stns h !! self with
  | Some o => dicts h !! constraints o
  | None => None
  end.

(** What [consistent] computes when no cached verdict is used. *)
Definition verdict (X : gset string) (cs : cdict) : bool :=
  diagonal_ok (build_matrix (elements X) cs) (elements X).

(** [d >= 0] on matrix entries. *)
Definition dnonneg (d : dval) : Prop :=
  match d with Fin z => 0 <= z | Inf => True end.

(** *** Scenario 6 of the specification *)


(** The constraints of scenario 6, in the order they are added. *)
Definition scenario6_constraints : cdict :=
  [(("a", "b"), (10, 10)); (("b", "c"), (5, 5)); (("a", "c"), (0, 10))].

(** *** Mutating calls on one instance *)

Inductive mutation : Type :=
| MAddTimePoint (point : string)
| MAddConstraint (from_point to_point : string) (c : Z * Z).

Definition mutate (self : addr) (m : mutation) (h : heap) : heap :=
  match m with
  | MAddTimePoint p => snd (add_time_point self p h)
  | MAddConstraint u v c => snd (add_constraint self u v c h)
  end.

(** A client store used to exhibit the statements below: one instance, at
    address 0, with time points a and b and the constraint a to b in
    [10, 15]. *)
Definition sample_heap : heap :=
  exec_all [New "second"; AddConstraint 0%nat "a" "b" (10, 15)] empty_heap.

(** *** Notions used to reason about the store *)

(** [self] is an instance with fields [o], whose set holds [X] and whose
    dictionary holds [cs]. *)
Record live (h : heap) (self : addr) (o : stn) (X : gset string)
    (cs : cdict) : Prop := mk_live {
  live_stn : stns h !! self = Some o;
  live_set : sets h !! time_points o = Some X;
  live_dict : dicts h !! constraints o = Some cs
}.

(** The store after a method has written the three objects of [self]. *)
Definition upd (h : heap) (self : addr) (o : stn) (X : gset string)
    (cs : cdict) : heap :=
  mk_heap (<[time_points o := X]> (sets h))
          (<[constraints o := cs]> (dicts h))
          (<[self := o]> (stns h)).

(** The fields of [o] with both caches invalidated. *)
Definition invalidated (o : stn) : stn :=
  mk_stn (time_points o) (constraints o) None None (time_unit o).

(** The caches of [o] agree with the set [X] and the dictionary [cs]. *)
Definition coherent (o : stn) (X : gset string) (cs : cdict) : Prop :=
  (forall m, _distance_matrix o = Some m -> m = build_matrix (elements X) cs)
  /\ (forall b, _consistent o = Some b -> b = verdict X cs).

(** The store after a new instance holding copies of [X] and [cs] has been
    built the way [copy] and [check_interval_conflicts] build it; the first
    component is the address of the new instance. *)
Definition extend (h : heap) (unit_name : string) (X : gset string)
    (cs : cdict) : addr * heap :=
  let a1 := fresh (dom (sets h)) in
  let a2 := fresh (dom (<[a1 := ∅]> (sets h))) in
  let d1 := fresh (dom (dicts h)) in
  let d2 := fresh (dom (<[d1 := []]> (dicts h))) in
  let n := fresh (dom (stns h)) in
  (n, mk_heap (<[a2 := X]> (<[a1 := ∅]> (sets h)))
              (<[d2 := cs]> (<[d1 := []]> (dicts h)))
              (<[n := mk_stn a2 d2 None None unit_name]> (stns h))).

(** Two instances that share neither their set nor their dictionary. *)
Definition separate (a : addr) (oa : stn) (b : addr) (ob : stn) : Prop :=
  a <> b /\ time_points oa <> time_points ob
  /\ constraints oa <> constraints ob.

(** *** The invariant of the store

    Every instance holds a live set and a live dictionary and coherent
    caches, and no two instances share a set or a dictionary. *)
Record heap_ok (h : heap) : Prop := mk_heap_ok {
  ok_live : forall a o, stns h !! a = Some o ->
            exists X cs, live h a o X cs /\ coherent o X cs;
  ok_sep : forall a b oa ob,
           stns h !! a = Some oa -> stns h !! b = Some ob -> a <> b ->
           separate a oa b ob
}.

(** *** Shape of the contents of a network *)

(** [a <= b] on matrix entries. *)
Definition dle (a b : dval) : Prop :=
  match a, b with
  | _, Inf => True
  | Fin x, Fin y => x <= y
  | Inf, Fin _ => False
  end.

(** One constraint for an ordered pair, bounds in order, end points among
    the time points. *)
Definition well_formed (X : gset string) (cs : cdict) : Prop :=
  NoDup (map fst cs)
  /\ forall u v lo hi, ((u, v), (lo, hi)) ∈ cs -> lo <= hi /\ u ∈ X /\ v ∈ X.

(** A property of the time points and the constraints that every instance
    of the store has. *)
Definition holds_everywhere (P : gset string -> cdict -> Prop) (h : heap)
  : Prop :=
  forall self o X cs, live h self o X cs -> P X cs.

(** The calls that ask and do not tell. *)
Definition is_query (c : call) : bool :=
  match c with
  | AddTimePoint _ _ | AddConstraint _ _ _ _ | AddInterval _ _ _ _ => false
  | _ => true
  end.

(** Every entry of [d'] is at most the entry of [d]. *)
Definition mle (d' d : matrix) : Prop :=
  forall i j, dle (dget d' i j) (dget d i j).

(** What the methods can make of the time points [X] and the constraints
    [cs] of an instance: time points are added, and constraints with
    ordered bounds are assigned between time points. *)
Inductive grows (X : gset string) (cs : cdict)
  : gset string -> cdict -> Prop :=
| grows_same : grows X cs X cs
| grows_point X' cs' p :
    grows X cs X' cs' -> grows X cs ({[p]} ∪ X') cs'
| grows_constraint X' cs' u v lo hi :
    grows X cs X' cs' -> lo <= hi -> u ∈ X' -> v ∈ X' ->
    grows X cs X' (dict_set (u, v) (lo, hi) cs').

(** What one call makes of the store.  [q] tells whether the call is a
    query: a query leaves the contents of the instance it writes to as
    they are. *)
Inductive step (q : bool) (h : heap) : heap -> Prop :=
| step_same : step q h h
| step_upd self o X cs o' X' cs' :
    live h self o X cs ->
    time_points o' = time_points o -> constraints o' = constraints o ->
    grows X cs X' cs' -> (q = true -> X' = X /\ cs' = cs) ->
    step q h (upd h self o' X' cs')
| step_init unit_name : step q h (snd (__init__ unit_name h))
| step_extend self o X cs on o' X' cs' :
    live h self o X cs ->
    live (snd (extend h (time_unit o) X cs))
         (fst (extend h (time_unit o) X cs)) on X cs ->
    time_points o' = time_points on -> constraints o' = constraints on ->
    grows X cs X' cs' ->
    step q h (upd (snd (extend h (time_unit o) X cs))
                  (fst (extend h (time_unit o) X cs)) o' X' cs').

End STN.

(** ** States ([ipyhop/state.py])

    A state is an object whose attributes are the variables of the
    planning domain, together with a name, a current time and a timeline.
    The timeline is a Python list, an object of its own that several
    states can refer to; the values of the variables are taken as
    immutable. *)

Module State.
Import DateTime.

Section WithValues.
Context `{DatetimeLib}.

(** The action tuples of the timeline and the values of the variables. *)
Context {Action Value : Type}.

Definition addr := nat.

(** An entry [(action, start_time, end_time)] of a timeline. *)
Definition entry : Type := Action * string * string.

(** The attributes of a [State]; [vars] holds those the client has
    assigned. *)
Record state : Type := mk_state {
  __name__ : string;
  _current_time : string;
  _initial_time_set : bool;
  _timeline : addr;
  vars : gmap string Value
}.

Record heap : Type := mk_heap {
  lists : gmap addr (list entry);
  states : gmap addr state
}.

Definition empty_heap : heap := mk_heap ∅ ∅.

Definition alloc_list (l : list entry) : M heap addr := fun h =>
  let a := fresh (dom (lists h)) in
  (Return a, mk_heap (<[a := l]> (lists h)) (states h)).

Definition alloc_state (o : state) : M heap addr := fun h =>
  let a := fresh (dom (states h)) in
  (Return a, mk_heap (lists h) (<[a := o]> (states h))).

Definition read_list (a : addr) : M heap (list entry) := fun h =>
  match lists h !! a with
  | Some l => (Return l, h)
  | None => (Raise AttributeError, h)
  end.

Definition read_state (a : addr) : M heap state := fun h =>
  match states h !! a with
  | Some o => (Return o, h)
  | None => (Raise AttributeError, h)
  end.

Definition write_list (a : addr) (l : list entry) : M heap unit := fun h =>
  (Return tt, mk_heap (<[a := l]> (lists h)) (states h)).

Definition write_state (a : addr) (o : state) : M heap unit := fun h =>
  (Return tt, mk_heap (lists h) (<[a := o]> (states h))).

(** [State.__init__]; [utcnow] is what the clock reads when no initial
    time is given. *)
Definition __init__ (name : string) (initial_time : option string)
    (utcnow : Z) : M heap addr :=
  let current_time := match initial_time with
                      | Some t => t
                      | None => now_iso8601 utcnow
                      end in
  let initial_time_set := match initial_time with
                          | Some _ => true
                          | None => false
                          end in
  do timeline <- alloc_list [];
  alloc_state (mk_state name current_time initial_time_set timeline ∅).

(** [state.var = value] *)
Definition set_var (self : addr) (var : string) (value : Value)
  : M heap unit :=
  do o <- read_state self;
  write_state self
    (mk_state (__name__ o) (_current_time o) (_initial_time_set o)
       (_timeline o) (<[var := value]> (vars o))).

(** [State.update]: every attribute of [state], the reference to its
    timeline included, is assigned to [self]. *)
Definition update (self other : addr) : M heap addr :=
  do o <- read_state self;
  do t <- read_state other;
  do _ <- write_state self
    (mk_state (__name__ t) (_current_time t) (_initial_time_set t)
       (_timeline t) (vars t ∪ vars o));
  ret self.

(** [State.get_current_time] *)
Definition get_current_time (self : addr) : M heap string :=
  do o <- read_state self;
  ret (_current_time o).

(** [State.set_current_time] *)
Definition set_current_time (self : addr) (time : string) : M heap unit :=
  do o <- read_state self;
  write_state self
    (mk_state (__name__ o) time (_initial_time_set o) (_timeline o) (vars o)).

(** [State.add_to_timeline] *)
Definition add_to_timeline (self : addr) (action : Action)
    (start_time end_time : string) : M heap unit :=
  do o <- read_state self;
  do l <- read_list (_timeline o);
  write_list (_timeline o) (l ++ [(action, start_time, end_time)])%list.

(** [State.get_timeline]: a new list with the entries of the timeline. *)
Definition get_timeline (self : addr) : M heap addr :=
  do o <- read_state self;
  do l <- read_list (_timeline o);
  alloc_list l.

(** [State.clear_timeline]: the attribute is bound to a new, empty list. *)
Definition clear_timeline (self : addr) : M heap unit :=
  do o <- read_state self;
  do timeline <- alloc_list [];
  write_state self
    (mk_state (__name__ o) (_current_time o) (_initial_time_set o)
       timeline (vars o)).

(** [l.append(x)] by a client that holds the list [l]. *)
Definition list_append (l : addr) (x : entry) : M heap unit :=
  do v <- read_list l;
  write_list l (v ++ [x])%list.

(** The entries of the timeline of [self]. *)
Definition timeline_of (h : heap) (self : addr) : option (list entry) :=
  match states h !! self with
  | Some o => lists h !! _timeline o
  | None => None
  end.

End WithValues.

(** A store used in examples: the states [s], at address 0, and [t], at
    address 1, with actions that are tuples of strings; the timeline of
    [t] has one entry. *)
Definition sample_store : @heap (list string) Z :=
  snd ((do s <- @__init__ IsoCalendar.utc _ _ "s"
                  (Some "2025-01-01T10:00:00Z") 0;
        do t <- @__init__ IsoCalendar.utc _ _ "t"
                  (Some "2025-01-01T11:00:00Z") 0;
        add_to_timeline t ["a_walk"; "alice"; "home"; "park"]
          "2025-01-01T11:00:00Z" "2025-01-01T11:05:00Z") empty_heap).

Definition walk : @entry (list string) :=
  (["a_walk"; "alice"; "home"; "park"],
   "2025-01-01T11:00:00Z", "2025-01-01T11:05:00Z").

Definition ride : @entry (list string) :=
  (["a_ride"; "alice"; "park"; "work"],
   "2025-01-01T11:05:00Z", "2025-01-01T11:20:00Z").

Definition rest : @entry (list string) :=
  (["a_rest"; "alice"], "2025-01-01T11:20:00Z", "2025-01-01T11:30:00Z").

End State.

(** * Properties *)

Module STNFacts.
Import STN.

Lemma dlt_zero_false d : dlt d (Fin 0) = false <-> dnonneg d.
Proof. destruct d as [z|]; simpl; [apply Z.ltb_ge | tauto]. Qed.

Lemma diagonal_ok_true (m : matrix) (points : list string) :
  diagonal_ok m points = true <->
  forall p, p ∈ points -> dlt (default (Fin 0) (m !! (p, p))) (Fin 0) = false.
Proof.
  induction points as [|q points IH]; cbn [diagonal_ok].
  - split; [intros _ p Hp; inversion Hp | reflexivity].
  - destruct (dlt (default (Fin 0) (m !! (q, q))) (Fin 0)) eqn:E.
    + split; [intros [=] |].
      intros H. assert (Hq : q ∈ q :: points) by left.
      specialize (H q Hq). congruence.
    + rewrite IH. split.
      * intros H p Hp. apply elem_of_cons in Hp as [-> | Hp]; auto.
      * intros H p Hp. apply H. now right.
Qed.

Lemma plain_row_lookup (dist : matrix) (i : string) (js : list string)
    (m : matrix) (a b : string) :
  foldl (fun m j => <[(i, j) := dget dist i j]> m) m js !! (a, b) =
  if bool_decide (a = i /\ b ∈ js) then Some (dget dist a b) else m !! (a, b).
Proof.
  revert m. induction js as [|j js IH]; intros m; cbn [foldl].
  - rewrite bool_decide_eq_false_2; [reflexivity |].
    intros [_ H]. inversion H.
  - rewrite IH. destruct (decide (a = i /\ b ∈ js)) as [[-> Hb] | Hn].
    + rewrite !bool_decide_eq_true_2; auto. split; auto. now right.
    + rewrite (bool_decide_eq_false_2 _ Hn).
      destruct (decide ((i, j) = (a, b))) as [Heq | Hne].
      * simplify_eq. rewrite lookup_insert_eq.
        rewrite bool_decide_eq_true_2; auto. split; auto. left.
      * rewrite lookup_insert_ne by exact Hne.
        rewrite bool_decide_eq_false_2; [reflexivity |].
        intros [-> Hb]. apply elem_of_cons in Hb as [-> | Hb]; tauto.
Qed.

Lemma plain_rows_lookup (dist : matrix) (rs js : list string)
    (m : matrix) (a b : string) :
  foldl (fun m i =>
    foldl (fun m j => <[(i, j) := dget dist i j]> m) m js) m rs !! (a, b) =
  if bool_decide (a ∈ rs /\ b ∈ js) then Some (dget dist a b) else m !! (a, b).
Proof.
  revert m. induction rs as [|i rs IH]; intros m; cbn [foldl].
  - rewrite bool_decide_eq_false_2; [reflexivity |].
    intros [H _]. inversion H.
  - rewrite IH, plain_row_lookup.
    destruct (decide (a ∈ rs /\ b ∈ js)) as [[Ha Hb] | Hn].
    + rewrite !bool_decide_eq_true_2; auto. split; auto. now right.
    + rewrite (bool_decide_eq_false_2 _ Hn).
      destruct (decide (a = i /\ b ∈ js)) as [[-> Hb] | Hn'].
      * rewrite !bool_decide_eq_true_2; auto. split; auto. left.
      * rewrite (bool_decide_eq_false_2 _ Hn').
        rewrite bool_decide_eq_false_2; [reflexivity |].
        intros [Ha Hb]. apply elem_of_cons in Ha as [-> | Ha]; tauto.
Qed.

Lemma to_plain_dict_lookup (points : list string) (dist : matrix) i j :
  i ∈ points -> j ∈ points ->
  to_plain_dict points dist !! (i, j) = Some (dget dist i j).
Proof.
  intros Hi Hj. unfold to_plain_dict. rewrite plain_rows_lookup.
  rewrite bool_decide_eq_true_2; auto.
Qed.

(** The verdict computed from scratch is the test of the diagonal of the
    closure. *)
Lemma verdict_true (X : gset string) (cs : cdict) :
  verdict X cs = true <->
  forall p, p ∈ X -> dnonneg (dget (closure (elements X) cs) p p).
Proof.
  unfold verdict. rewrite diagonal_ok_true.
  split; intros H p Hp.
  - assert (Hel : p ∈ elements X) by now apply elem_of_elements.
    specialize (H p Hel). unfold build_matrix in H.
    destruct (elements X) as [|q l] eqn:E; [inversion Hel |].
    rewrite to_plain_dict_lookup in H by assumption.
    now apply dlt_zero_false.
  - unfold build_matrix.
    destruct (elements X) as [|q l] eqn:E; [inversion Hp |].
    rewrite to_plain_dict_lookup by assumption.
    apply dlt_zero_false, H. apply elem_of_elements. now rewrite E.
Qed.

(** *** Reasoning about the store *)



Lemma upd_id h self o X cs : live h self o X cs -> upd h self o X cs = h.
Proof.
  intros [H1 H2 H3]. unfold upd. destruct h as [ss ds os]; simpl in *.
  f_equal; now apply insert_id.
Qed.

Lemma upd_upd h self o X cs o' X' cs' :
  time_points o' = time_points o -> constraints o' = constraints o ->
  upd (upd h self o X cs) self o' X' cs' = upd h self o' X' cs'.
Proof.
  intros E1 E2. unfold upd; simpl. rewrite E1, E2.
  now rewrite !insert_insert_eq.
Qed.

Lemma live_upd h self o X cs : live (upd h self o X cs) self o X cs.
Proof. split; simpl; apply lookup_insert_eq. Qed.

Ltac unfold_m :=
  unfold set_cache, read_stn, read_set, read_dict, write_set, write_dict,
    write_stn, alloc_set, alloc_dict, alloc_stn, bind, ret, raise.

Lemma add_time_point_live h self o X cs point :
  live h self o X cs ->
  add_time_point self point h =
  (Return tt, upd h self (invalidated o) ({[point]} ∪ X) cs).
Proof.
  intros [H1 H2 H3]. unfold add_time_point. unfold_m.
  rewrite H1, H2. simpl. rewrite H1. unfold upd, invalidated. simpl.
  f_equal. f_equal. symmetry. now apply insert_id.
Qed.

Lemma add_time_point_dead h self point :
  stns h !! self = None -> add_time_point self point h = (Raise AttributeError, h).
Proof. intros H. unfold add_time_point. unfold_m. now rewrite H. Qed.

Lemma add_constraint_dead h self u v c :
  stns h !! self = None ->
  add_constraint self u v c h = (Raise AttributeError, h).
Proof.
  intros H. unfold add_constraint, bind.
  now rewrite (add_time_point_dead _ _ _ H).
Qed.

(** The two outcomes of [add_constraint] on an instance. *)
Lemma add_constraint_live h self o X cs u v lo hi :
  live h self o X cs ->
  add_constraint self u v (lo, hi) h =
  if hi <? lo
  then (Raise ValueError,
        upd h self (invalidated o) ({[v]} ∪ ({[u]} ∪ X)) cs)
  else (Return tt,
        upd h self (invalidated o) ({[v]} ∪ ({[u]} ∪ X))
          (dict_set (u, v) (lo, hi) cs)).
Proof.
  intros Hl. unfold add_constraint. unfold bind at 1.
  rewrite (add_time_point_live _ _ _ _ _ u Hl).
  unfold bind at 1.
  rewrite (add_time_point_live _ _ _ _ _ v (live_upd _ _ _ _ _)).
  rewrite upd_upd by reflexivity.
  change (invalidated (invalidated o)) with (invalidated o).
  destruct (hi <? lo); [reflexivity |].
  set (h1 := upd h self (invalidated o) ({[v]} ∪ ({[u]} ∪ X)) cs).
  assert (Hl1 : live h1 self (invalidated o) ({[v]} ∪ ({[u]} ∪ X)) cs)
    by apply live_upd.
  destruct Hl1 as [H1 H2 H3]. unfold_m. rewrite H1, H3. simpl.
  rewrite lookup_insert_eq. unfold upd; simpl.
  now rewrite !insert_insert_eq.
Qed.

Lemma build_live h self o X cs :
  live h self o X cs ->
  _build_distance_matrix self h =
  (Return tt,
   upd h self
     (mk_stn (time_points o) (constraints o)
        (Some (build_matrix (elements X) cs)) (_consistent o) (time_unit o))
     X cs).
Proof.
  intros [H1 H2 H3]. unfold _build_distance_matrix. unfold_m.
  rewrite H1, H2, H3. unfold upd. simpl.
  f_equal. f_equal; symmetry; now apply insert_id.
Qed.


Lemma coherent_invalidated o X cs : coherent (invalidated o) X cs.
Proof. split; simpl; intros ? [=]. Qed.

(** [consistent] on an instance with coherent caches returns the verdict
    computed from scratch and leaves coherent caches. *)
Lemma consistent_live h self o X cs :
  live h self o X cs -> coherent o X cs ->
  exists o', consistent self h = (Return (verdict X cs), upd h self o' X cs)
    /\ time_points o' = time_points o /\ constraints o' = constraints o
    /\ coherent o' X cs.
Proof.
  intros Hl [Hm Hc]. unfold consistent. unfold bind at 1.
  unfold read_stn at 1. rewrite (live_stn _ _ _ _ _ Hl).
  destruct (_consistent o) as [b|] eqn:Eb.
  - exists o. rewrite (upd_id _ _ _ _ _ Hl), (Hc b eq_refl).
    unfold ret. repeat split; auto.
    intros b' Hb'. rewrite Eb in Hb'. injection Hb' as <-. now apply Hc.
  - set (o1 := mk_stn (time_points o) (constraints o)
                 (Some (build_matrix (elements X) cs)) None (time_unit o)).
    assert (Hstep :
      (match _distance_matrix o with
       | None => _build_distance_matrix self
       | Some _ => ret tt
       end) h = (Return tt, upd h self o1 X cs)).
    { destruct (_distance_matrix o) as [m|] eqn:Em.
      - unfold ret. f_equal. rewrite <- (upd_id _ _ _ _ _ Hl) at 1.
        f_equal. destruct o; simpl in *. subst o1; simpl.
        now rewrite Eb, Em, (Hm m eq_refl).
      - rewrite (build_live _ _ _ _ _ Hl). now rewrite Eb. }
    unfold bind at 1. rewrite Hstep.
    destruct (live_upd h self o1 X cs) as [H1 H2 H3].
    unfold_m. rewrite H1. simpl. rewrite lookup_insert_eq. simpl.
    rewrite lookup_insert_eq.
    exists (mk_stn (time_points o) (constraints o)
              (Some (build_matrix (elements X) cs)) (Some (verdict X cs))
              (time_unit o)).
    split; [| repeat split; simpl; auto; intros ? [=]; auto].
    unfold verdict, upd. simpl. now rewrite insert_insert_eq.
Qed.

Lemma get_intervals_live h self o X cs :
  live h self o X cs ->
  get_intervals self h =
  (Return (map (fun '((u, v), (lo, hi)) => (u, v, lo, hi)) cs), h).
Proof.
  intros [H1 H2 H3]. unfold get_intervals. unfold_m. now rewrite H1, H3.
Qed.

Lemma get_distance_live h self o X cs u v :
  live h self o X cs -> coherent o X cs ->
  exists o', snd (get_distance self u v h) = upd h self o' X cs
    /\ time_points o' = time_points o /\ constraints o' = constraints o
    /\ coherent o' X cs.
Proof.
  intros Hl Hco. pose proof Hl as [H1 H2 H3].
  unfold get_distance. unfold bind at 1. unfold read_stn at 1. rewrite H1.
  unfold bind at 1. unfold read_set at 1. rewrite H2.
  destruct (negb (bool_decide (u ∈ X)) || negb (bool_decide (v ∈ X))).
  { exists o. rewrite (upd_id _ _ _ _ _ Hl). auto. }
  set (o1 := mk_stn (time_points o) (constraints o)
               (Some (build_matrix (elements X) cs)) (_consistent o)
               (time_unit o)).
  assert (Hstep :
    (match _distance_matrix o with
     | None => _build_distance_matrix self
     | Some _ => ret tt
     end) h = (Return tt, upd h self o1 X cs)).
  { destruct (_distance_matrix o) as [m|] eqn:Em.
    - unfold ret. f_equal. rewrite <- (upd_id _ _ _ _ _ Hl) at 1.
      f_equal. pose proof (proj1 Hco m Em) as Hm.
      destruct o; simpl in *. subst o1; simpl. now rewrite Em, Hm.
    - now rewrite (build_live _ _ _ _ _ Hl). }
  unfold bind at 1. rewrite Hstep.
  exists o1. split; [| repeat split; simpl; auto; [intros ? [=]; auto |]].
  - unfold_m. simpl. rewrite lookup_insert_eq. simpl.
    now destruct (default Inf _).
  - apply Hco.
Qed.


Lemma lookup_insert_fresh {V} (m : gmap addr V) (a : addr) (v w : V) :
  m !! a = Some v -> <[fresh (dom m) := w]> m !! a = Some v.
Proof.
  intros H. rewrite lookup_insert_ne; [exact H |].
  intros E. apply (is_fresh (dom m)). rewrite E.
  apply elem_of_dom. now exists v.
Qed.

Lemma copy_prefix_live {A} h self o X cs (k : addr -> M heap A) :
  live h self o X cs ->
  (do o <- read_stn self;
   do new_stn <- __init__ (time_unit o);
   do X <- read_set (time_points o);
   do tp <- alloc_set X;
   do n <- read_stn new_stn;
   do _ <- write_stn new_stn
     (mk_stn tp (constraints n) (_distance_matrix n) (_consistent n)
        (time_unit n));
   do cs <- read_dict (constraints o);
   do cd <- alloc_dict cs;
   do n <- read_stn new_stn;
   do _ <- write_stn new_stn
     (mk_stn (time_points n) cd (_distance_matrix n) (_consistent n)
        (time_unit n));
   k new_stn) h =
  k (fst (extend h (time_unit o) X cs)) (snd (extend h (time_unit o) X cs)).
Proof.
  intros [H1 H2 H3]. unfold __init__. unfold_m. rewrite H1. simpl.
  rewrite (lookup_insert_fresh _ _ _ _ H2). simpl.
  rewrite lookup_insert_eq. simpl.
  rewrite (lookup_insert_fresh _ _ _ _ H3). simpl.
  rewrite lookup_insert_eq. simpl.
  rewrite !insert_insert_eq. reflexivity.
Qed.

Lemma copy_live h self o X cs :
  live h self o X cs ->
  copy self h =
  (Return (fst (extend h (time_unit o) X cs)),
   snd (extend h (time_unit o) X cs)).
Proof. intros Hl. unfold copy. now rewrite (copy_prefix_live _ _ _ _ _ _ Hl). Qed.

Lemma copy_dead h self :
  stns h !! self = None -> copy self h = (Raise AttributeError, h).
Proof. intros H. unfold copy. unfold_m. now rewrite H. Qed.

(** *** Framing: what a write to one instance leaves alone *)


Lemma live_upd_other h self o' X' cs' s os Xs css :
  separate s os self o' ->
  live h s os Xs css -> live (upd h self o' X' cs') s os Xs css.
Proof.
  intros (Hne & Ht & Hc) [H1 H2 H3]. split; simpl.
  - now rewrite lookup_insert_ne by congruence.
  - now rewrite lookup_insert_ne by congruence.
  - now rewrite lookup_insert_ne by congruence.
Qed.

Lemma fresh_insert_ne {V} (m : gmap addr V) (a : addr) (v : V) :
  is_Some (m !! a) -> fresh (dom m) <> a.
Proof.
  intros H E. apply (is_fresh (dom m)). rewrite E. now apply elem_of_dom.
Qed.

Lemma fresh2_ne {V} (m : gmap addr V) (a : addr) (w : V) :
  is_Some (m !! a) -> fresh (dom (<[fresh (dom m) := w]> m)) <> a.
Proof.
  intros H E.
  apply (is_fresh (dom (<[fresh (dom m) := w]> m))). rewrite E.
  apply elem_of_dom. destruct H as [v Hv]. exists v.
  now apply lookup_insert_fresh.
Qed.

Lemma fresh2_none {V} (m : gmap addr V) (w : V) :
  m !! fresh (dom (<[fresh (dom m) := w]> m)) = None.
Proof.
  destruct (m !! fresh (dom (<[fresh (dom m) := w]> m))) as [v|] eqn:E;
    [| reflexivity].
  exfalso. apply (fresh2_ne m _ w (mk_is_Some _ _ E)). reflexivity.
Qed.

(** The instances of the store before [extend] are untouched by it. *)
Lemma live_extend h unit_name X cs s os Xs css :
  live h s os Xs css -> live (snd (extend h unit_name X cs)) s os Xs css.
Proof.
  intros [H1 H2 H3]. split; simpl.
  - rewrite lookup_insert_ne; [exact H1 |].
    apply (fresh_insert_ne _ _ os). now exists os.
  - rewrite lookup_insert_ne; [now apply lookup_insert_fresh |].
    apply fresh2_ne. now exists Xs.
  - rewrite lookup_insert_ne; [now apply lookup_insert_fresh |].
    apply fresh2_ne. now exists css.
Qed.

(** The instance that [extend] creates. *)
Lemma extend_new h unit_name X cs :
  exists n, let new := fst (extend h unit_name X cs) in
    live (snd (extend h unit_name X cs)) new n X cs
    /\ _distance_matrix n = None /\ _consistent n = None
    /\ time_unit n = unit_name
    /\ stns h !! new = None
    /\ sets h !! time_points n = None
    /\ dicts h !! constraints n = None.
Proof.
  eexists. cbn zeta.
  repeat split; simpl; try apply lookup_insert_eq; try reflexivity.
  - apply not_elem_of_dom, is_fresh.
  - apply fresh2_none.
  - apply fresh2_none.
Qed.

Lemma extend_separate h unit_name X cs n s os Xs css :
  live (snd (extend h unit_name X cs)) (fst (extend h unit_name X cs)) n X cs ->
  sets h !! time_points n = None -> dicts h !! constraints n = None ->
  stns h !! fst (extend h unit_name X cs) = None ->
  live h s os Xs css ->
  separate s os (fst (extend h unit_name X cs)) n.
Proof.
  intros _ Hs Hd Hn [H1 H2 H3]. repeat split; congruence.
Qed.


Lemma empty_heap_ok : heap_ok empty_heap.
Proof. split; simpl; intros *; rewrite lookup_empty; intros [=]. Qed.

Lemma separate_sym a oa b ob : separate a oa b ob -> separate b ob a oa.
Proof. intros (H1 & H2 & H3). repeat split; congruence. Qed.

Lemma upd_ok h self o X cs o' X' cs' :
  heap_ok h -> live h self o X cs ->
  time_points o' = time_points o -> constraints o' = constraints o ->
  coherent o' X' cs' ->
  heap_ok (upd h self o' X' cs').
Proof.
  intros [Hlive Hsep] Hl Et Ec Hco.
  assert (Hother : forall a oa, a <> self -> stns h !! a = Some oa ->
                   separate a oa self o').
  { intros a oa Hne Ha.
    destruct (Hsep a self oa o Ha (live_stn _ _ _ _ _ Hl) Hne) as (? & ? & ?).
    repeat split; congruence. }
  split.
  - intros a oa Ha. simpl in Ha.
    destruct (decide (a = self)) as [-> | Hne].
    + rewrite lookup_insert_eq in Ha. injection Ha as <-.
      exists X', cs'. split; [apply live_upd | exact Hco].
    + rewrite lookup_insert_ne in Ha by congruence.
      destruct (Hlive a oa Ha) as (Xa & csa & Hla & Hca).
      exists Xa, csa. split; [| exact Hca].
      apply live_upd_other; auto.
  - intros a b oa ob Ha Hb Hab. simpl in Ha, Hb.
    destruct (decide (a = self)) as [-> | Hna];
      destruct (decide (b = self)) as [-> | Hnb]; try congruence.
    + rewrite lookup_insert_eq in Ha. injection Ha as <-.
      rewrite lookup_insert_ne in Hb by congruence.
      apply separate_sym. auto.
    + rewrite lookup_insert_eq in Hb. injection Hb as <-.
      rewrite lookup_insert_ne in Ha by congruence. auto.
    + rewrite lookup_insert_ne in Ha by congruence.
      rewrite lookup_insert_ne in Hb by congruence. eauto.
Qed.

(** Adding a new instance on a new set and a new dictionary, possibly
    along with objects that no instance refers to. *)
Lemma grow_ok h (ss' : gmap addr (gset string)) (ds' : gmap addr (list (string * string * (Z * Z))))
    n a d X cs unit_name :
  heap_ok h -> sets h ⊆ ss' -> dicts h ⊆ ds' ->
  stns h !! n = None -> sets h !! a = None -> dicts h !! d = None ->
  ss' !! a = Some X -> ds' !! d = Some cs ->
  heap_ok (mk_heap ss' ds' (<[n := mk_stn a d None None unit_name]> (stns h))).
Proof.
  intros [Hlive Hsep] Hss Hds Hn Ha Hd Ha' Hd'.
  assert (Hold : forall b ob, stns h !! b = Some ob ->
                 separate b ob n (mk_stn a d None None unit_name)).
  { intros b ob Hb. destruct (Hlive b ob Hb) as (Xb & csb & [H1 H2 H3] & _).
    repeat split; simpl; congruence. }
  split.
  - intros b ob Hb. simpl in Hb.
    destruct (decide (b = n)) as [-> | Hne].
    + rewrite lookup_insert_eq in Hb. injection Hb as <-.
      exists X, cs. split; [| split; simpl; intros ? [=]].
      split; simpl; auto. apply lookup_insert_eq.
    + rewrite lookup_insert_ne in Hb by congruence.
      destruct (Hlive b ob Hb) as (Xb & csb & [H1 H2 H3] & Hco).
      exists Xb, csb. split; [| exact Hco].
      split; simpl.
      * now rewrite lookup_insert_ne by congruence.
      * eapply lookup_weaken; eauto.
      * eapply lookup_weaken; eauto.
  - intros b c ob oc Hb Hc Hbc. simpl in Hb, Hc.
    destruct (decide (b = n)) as [-> | Hnb];
      destruct (decide (c = n)) as [-> | Hnc]; try congruence.
    + rewrite lookup_insert_eq in Hb. injection Hb as <-.
      rewrite lookup_insert_ne in Hc by congruence.
      apply separate_sym. auto.
    + rewrite lookup_insert_eq in Hc. injection Hc as <-.
      rewrite lookup_insert_ne in Hb by congruence. auto.
    + rewrite lookup_insert_ne in Hb by congruence.
      rewrite lookup_insert_ne in Hc by congruence. eauto.
Qed.

Lemma init_ok h unit_name : heap_ok h -> heap_ok (snd (__init__ unit_name h)).
Proof.
  intros Hok. unfold __init__. unfold_m. simpl.
  apply grow_ok with (X := ∅) (cs := []); auto.
  - apply insert_subseteq, not_elem_of_dom, is_fresh.
  - apply insert_subseteq, not_elem_of_dom, is_fresh.
  - apply not_elem_of_dom, is_fresh.
  - apply not_elem_of_dom, is_fresh.
  - apply not_elem_of_dom, is_fresh.
  - apply lookup_insert_eq.
  - apply lookup_insert_eq.
Qed.

Lemma extend_ok h unit_name X cs :
  heap_ok h -> heap_ok (snd (extend h unit_name X cs)).
Proof.
  intros Hok. simpl.
  apply grow_ok with (X := X) (cs := cs); auto.
  - etransitivity; [| apply insert_subseteq].
    + apply insert_subseteq, not_elem_of_dom, is_fresh.
    + apply not_elem_of_dom, is_fresh.
  - etransitivity; [| apply insert_subseteq].
    + apply insert_subseteq, not_elem_of_dom, is_fresh.
    + apply not_elem_of_dom, is_fresh.
  - apply not_elem_of_dom, is_fresh.
  - apply fresh2_none.
  - apply fresh2_none.
  - apply lookup_insert_eq.
  - apply lookup_insert_eq.
Qed.

(** [check_interval_conflicts] on an instance: the temporary instance is
    built by [extend], then receives the constraint and is tested. *)
Lemma check_interval_conflicts_live h self o X cs u v lo hi :
  live h self o X cs ->
  let h1 := snd (extend h (time_unit o) X cs) in
  let n := fst (extend h (time_unit o) X cs) in
  let X2 := {[v]} ∪ ({[u]} ∪ X) in
  exists on o',
    live h1 n on X cs /\ separate self o n on
    /\ time_points o' = time_points on /\ constraints o' = constraints on
    /\ coherent o' X2 (dict_set (u, v) (lo, hi) cs)
    /\ check_interval_conflicts self u v lo hi h =
       if hi <? lo
       then (Raise ValueError, upd h1 n (invalidated on) X2 cs)
       else (Return (negb (verdict X2 (dict_set (u, v) (lo, hi) cs))),
             upd h1 n o' X2 (dict_set (u, v) (lo, hi) cs)).
Proof.
  intros Hl h1 n X2.
  destruct (extend_new h (time_unit o) X cs)
    as (on & Hn & _ & _ & _ & Hd1 & Hd2 & Hd3).
  cbn zeta in Hn, Hd1, Hd2, Hd3. fold h1 n in Hn, Hd1.
  set (cs2 := dict_set (u, v) (lo, hi) cs).
  set (h2 := upd h1 n (invalidated on) X2 cs2).
  destruct (consistent_live h2 n (invalidated on) X2 cs2
              (live_upd _ _ _ _ _) (coherent_invalidated _ _ _))
    as (o' & Hc & Et & Ec & Hco).
  exists on, o'. split; [exact Hn |]. split.
  { destruct Hl as [H1 H2 H3]. repeat split; congruence. }
  split; [exact Et |]. split; [exact Ec |]. split; [exact Hco |].
  - unfold check_interval_conflicts.
    rewrite (copy_prefix_live _ _ _ _ _ _ Hl). fold h1 n.
    unfold bind at 1. rewrite (add_constraint_live _ _ _ _ _ u v lo hi Hn).
    fold X2 cs2. destruct (hi <? lo); [reflexivity |].
    fold h2. unfold bind at 1. rewrite Hc. unfold ret.
    f_equal. subst h2. now rewrite upd_upd.
Qed.

Lemma check_interval_conflicts_dead h self u v lo hi :
  stns h !! self = None ->
  check_interval_conflicts self u v lo hi h = (Raise AttributeError, h).
Proof. intros H. unfold check_interval_conflicts. unfold_m. now rewrite H. Qed.

Lemma find_free_slots_snd h self d ws we :
  snd (find_free_slots self d ws we h) = snd (consistent self h).
Proof.
  unfold find_free_slots, bind.
  destruct (consistent self h) as [[[|]|e] h']; try reflexivity.
  now destruct (d <=? we - ws).
Qed.

Lemma str_snd h self :
  snd (__str__ self h) = snd (consistent self h)
  \/ snd (__str__ self h) = h.
Proof.
  unfold __str__. unfold_m.
  destruct (stns h !! self) as [o|]; [| now right].
  destruct (sets h !! time_points o) as [X|]; [| now right].
  destruct (dicts h !! constraints o) as [cs|]; [| now right].
  left. now destruct (consistent self h) as [[b|e] h'].
Qed.

Lemma consistent_ok h self : heap_ok h -> heap_ok (snd (consistent self h)).
Proof.
  intros Hok. destruct (stns h !! self) as [o|] eqn:E.
  - destruct (ok_live _ Hok _ _ E) as (X & cs & Hl & Hco).
    destruct (consistent_live _ _ _ _ _ Hl Hco) as (o' & -> & ? & ? & ?).
    simpl. eapply upd_ok; eauto.
  - unfold consistent. unfold_m. now rewrite E.
Qed.

(** Every call of a client keeps the invariant, whether it returns or
    raises. *)
Lemma exec_ok c h : heap_ok h -> heap_ok (exec c h).
Proof.
  intros Hok. destruct c; simpl.
  - now apply init_ok.
  - destruct (stns h !! self) as [o|] eqn:E.
    + destruct (ok_live _ Hok _ _ E) as (X & cs & Hl & Hco).
      rewrite (add_time_point_live _ _ _ _ _ _ Hl). simpl.
      eapply upd_ok; eauto using coherent_invalidated.
    + now rewrite add_time_point_dead.
  - destruct (stns h !! self) as [o|] eqn:E.
    + destruct (ok_live _ Hok _ _ E) as (X & cs & Hl & Hco).
      destruct c as [lo hi].
      rewrite (add_constraint_live _ _ _ _ _ _ _ _ _ Hl).
      destruct (hi <? lo); simpl;
        eapply upd_ok; eauto using coherent_invalidated.
    + now rewrite add_constraint_dead.
  - unfold add_interval. destruct (stns h !! self) as [o|] eqn:E.
    + destruct (ok_live _ Hok _ _ E) as (X & cs & Hl & Hco).
      destruct c as [lo hi].
      rewrite (add_constraint_live _ _ _ _ _ _ _ _ _ Hl).
      destruct (hi <? lo); simpl;
        eapply upd_ok; eauto using coherent_invalidated.
    + now rewrite add_constraint_dead.
  - destruct (stns h !! self) as [o|] eqn:E.
    + destruct (ok_live _ Hok _ _ E) as (X & cs & Hl & Hco).
      destruct (consistent_live _ _ _ _ _ Hl Hco) as (o' & -> & ? & ? & ?).
      simpl. eapply upd_ok; eauto.
    + unfold consistent. unfold_m. now rewrite E.
  - destruct (stns h !! self) as [o|] eqn:E.
    + destruct (ok_live _ Hok _ _ E) as (X & cs & Hl & Hco).
      destruct (get_distance_live _ _ _ _ _ from_point to_point Hl Hco)
        as (o' & -> & ? & ? & ?).
      eapply upd_ok; eauto.
    + unfold get_distance. unfold_m. now rewrite E.
  - destruct (stns h !! self) as [o|] eqn:E.
    + destruct (ok_live _ Hok _ _ E) as (X & cs & Hl & Hco).
      now rewrite (get_intervals_live _ _ _ _ _ Hl).
    + unfold get_intervals. unfold_m. now rewrite E.
  - destruct (stns h !! self) as [o|] eqn:E.
    + destruct (ok_live _ Hok _ _ E) as (X & cs & Hl & Hco).
      destruct (check_interval_conflicts_live _ _ _ _ _ start_point end_point
                  min_duration max_duration Hl)
        as (on & o' & Hn & _ & ? & ? & ? & ->).
      pose proof (extend_ok h (time_unit o) X cs Hok) as Hok1.
      destruct (max_duration <? min_duration); simpl;
        eapply upd_ok; eauto using coherent_invalidated.
    + now rewrite check_interval_conflicts_dead.
  - rewrite find_free_slots_snd. now apply consistent_ok.
  - destruct (str_snd h self) as [-> | ->]; [now apply consistent_ok | exact Hok].
  - destruct (stns h !! self) as [o|] eqn:E.
    + destruct (ok_live _ Hok _ _ E) as (X & cs & Hl & Hco).
      rewrite (copy_live _ _ _ _ _ Hl). now apply extend_ok.
    + now rewrite copy_dead.
Qed.

Lemma exec_all_ok cs h : heap_ok h -> heap_ok (exec_all cs h).
Proof.
  revert h. induction cs as [|c cs IH]; intros h Hok; simpl; auto.
  apply IH, exec_ok, Hok.
Qed.

(** *** Views *)

Lemma views_live h self X cs :
  points_of h self = Some X -> constraints_of h self = Some cs ->
  exists o, live h self o X cs.
Proof.
  unfold points_of, constraints_of.
  destruct (stns h !! self) as [o|] eqn:E; [| intros [=]].
  intros H1 H2. exists o. now split.
Qed.

Lemma live_views h self o X cs :
  live h self o X cs ->
  points_of h self = Some X /\ constraints_of h self = Some cs.
Proof.
  intros [H1 H2 H3]. unfold points_of, constraints_of. now rewrite H1.
Qed.

(** The answer of [consistent] is determined by the three objects of the
    instance. *)
Lemma consistent_fst h self o X cs :
  live h self o X cs ->
  fst (consistent self h) =
  Return (match _consistent o with
          | Some b => b
          | None =>
              diagonal_ok
                (default (build_matrix (elements X) cs) (_distance_matrix o))
                (elements X)
          end).
Proof.
  intros Hl. unfold consistent. unfold bind at 1. unfold read_stn at 1.
  rewrite (live_stn _ _ _ _ _ Hl).
  destruct (_consistent o) as [b|] eqn:Eb; [reflexivity |].
  unfold bind at 1.
  destruct (_distance_matrix o) as [m|] eqn:Em.
  - destruct Hl as [H1 H2 H3]. unfold_m. simpl. rewrite H1. simpl.
    rewrite H2, Em. simpl. rewrite H1. reflexivity.
  - rewrite (build_live _ _ _ _ _ Hl). unfold_m. unfold upd. simpl.
    rewrite lookup_insert_eq. simpl. rewrite lookup_insert_eq. simpl.
    now rewrite lookup_insert_eq.
Qed.

Lemma same_views h h' s o X cs :
  live h s o X cs -> live h' s o X cs ->
  points_of h' s = points_of h s
  /\ constraints_of h' s = constraints_of h s
  /\ fst (get_intervals s h') = fst (get_intervals s h)
  /\ fst (consistent s h') = fst (consistent s h).
Proof.
  intros Hl Hl'.
  destruct (live_views _ _ _ _ _ Hl) as [-> ->].
  destruct (live_views _ _ _ _ _ Hl') as [-> ->].
  rewrite (get_intervals_live _ _ _ _ _ Hl), (get_intervals_live _ _ _ _ _ Hl').
  rewrite (consistent_fst _ _ _ _ _ Hl), (consistent_fst _ _ _ _ _ Hl').
  auto.
Qed.

(** *** Consistency *)

(** Scenario 6 is inconsistent whatever the order in which the set of time
    points is iterated. *)
Lemma scenario6_any_order (points : list string) :
  points ≡ₚ ["a"; "b"; "c"] ->
  diagonal_ok (build_matrix points scenario6_constraints) points = false.
Proof.
  intros Hp. symmetry in Hp. apply permutations_Permutation in Hp.
  assert (Hall : forallb (fun l =>
            negb (diagonal_ok (build_matrix l scenario6_constraints) l))
            (permutations ["a"; "b"; "c"]) = true)
    by (vm_compute; reflexivity).
  rewrite forallb_forall in Hall. apply list_elem_of_In in Hp.
  specialize (Hall _ Hp). now apply negb_true_iff in Hall.
Qed.



(** *** Adding a constraint *)


Lemma sample_points : points_of sample_heap 0%nat = Some {["a"; "b"]}.
Proof. vm_compute. reflexivity. Qed.

Lemma sample_constraints :
  constraints_of sample_heap 0%nat = Some [(("a", "b"), (10, 15))].
Proof. vm_compute. reflexivity. Qed.

(** C6. On an instance, [add_constraint(u, v, (min, max))] with
    [min > max] raises [ValueError] and does not record the constraint:
    the dictionary of constraints, and so the list [get_intervals()]
    returns, are as before the call. *)
Theorem add_constraint_min_gt_max_raises
    (h : heap) (self : addr) (X : gset string) (cs : cdict)
    (u v : string) (lo hi : Z) :
  points_of h self = Some X -> constraints_of h self = Some cs ->
  lo > hi ->
  let r := add_constraint self u v (lo, hi) h in
  fst r = Raise ValueError
  /\ constraints_of (snd r) self = Some cs
  /\ fst (get_intervals self (snd r)) = fst (get_intervals self h).
Proof.
  intros HX Hcs Hgt r. destruct (views_live _ _ _ _ HX Hcs) as (o & Hl).
  subst r. rewrite (add_constraint_live _ _ _ _ _ u v lo hi Hl).
  replace (hi <? lo) with true by (symmetry; apply Z.ltb_lt; lia).
  simpl. split; [reflexivity |].
  pose proof (live_upd h self (invalidated o) ({[v]} ∪ ({[u]} ∪ X)) cs) as Hl'.
  split; [apply (live_views _ _ _ _ _ Hl') |].
  now rewrite (get_intervals_live _ _ _ _ _ Hl),
    (get_intervals_live _ _ _ _ _ Hl').
Qed.

Lemma add_constraint_min_gt_max_raises_witness :
  let r := add_constraint 0%nat "b" "c" (7, 3) sample_heap in
  fst r = Raise ValueError
  /\ constraints_of (snd r) 0%nat = Some [(("a", "b"), (10, 15))]
  /\ fst (get_intervals 0%nat (snd r)) = fst (get_intervals 0%nat sample_heap).
Proof.
  apply (add_constraint_min_gt_max_raises sample_heap 0%nat
           {["a"; "b"]} [(("a", "b"), (10, 15))] "b" "c" 7 3
           sample_points sample_constraints).
  lia.
Defined.

(** C10. When [add_constraint(u, v, (min, max))] raises because
    [min > max], the instance has already been changed: [u] and [v] are in
    its set of time points, and the cached matrix and the cached verdict
    have been dropped. *)
Theorem add_constraint_failure_not_atomic
    (h : heap) (self : addr) (X : gset string) (cs : cdict)
    (u v : string) (lo hi : Z) :
  points_of h self = Some X -> constraints_of h self = Some cs ->
  lo > hi ->
  let r := add_constraint self u v (lo, hi) h in
  fst r = Raise ValueError
  /\ points_of (snd r) self = Some ({[v]} ∪ ({[u]} ∪ X))
  /\ exists o', stns (snd r) !! self = Some o'
       /\ _distance_matrix o' = None /\ _consistent o' = None.
Proof.
  intros HX Hcs Hgt r. destruct (views_live _ _ _ _ HX Hcs) as (o & Hl).
  subst r. rewrite (add_constraint_live _ _ _ _ _ u v lo hi Hl).
  replace (hi <? lo) with true by (symmetry; apply Z.ltb_lt; lia).
  simpl. split; [reflexivity |].
  pose proof (live_upd h self (invalidated o) ({[v]} ∪ ({[u]} ∪ X)) cs) as Hl'.
  split; [apply (live_views _ _ _ _ _ Hl') |].
  exists (invalidated o). split; [apply Hl' | split; reflexivity].
Qed.

Lemma add_constraint_failure_not_atomic_witness :
  let r := add_constraint 0%nat "b" "c" (7, 3) sample_heap in
  fst r = Raise ValueError
  /\ points_of (snd r) 0%nat = Some ({["c"]} ∪ ({["b"]} ∪ {["a"; "b"]}))
  /\ exists o', stns (snd r) !! 0%nat = Some o'
       /\ _distance_matrix o' = None /\ _consistent o' = None.
Proof.
  apply (add_constraint_failure_not_atomic sample_heap 0%nat
           {["a"; "b"]} [(("a", "b"), (10, 15))] "b" "c" 7 3
           sample_points sample_constraints).
  lia.
Defined.

(** The time point c, which was not in the network, is in it after the
    failed call of the witness above. *)
Lemma failed_add_constraint_adds_point :
  points_of sample_heap 0%nat = Some {["a"; "b"]}
  /\ points_of (snd (add_constraint 0%nat "b" "c" (7, 3) sample_heap)) 0%nat
     = Some {["a"; "b"; "c"]}.
Proof. split; vm_compute; reflexivity. Qed.

(** *** Copies *)

(** C7. On an instance, with [min_duration <= max_duration],
    [check_interval_conflicts(u, v, min, max)] is the program that copies
    the network, adds the constraint to the copy and returns the negation
    of [consistent()] on the copy: it returns true exactly when the
    augmented copy is inconsistent.  The time points, the constraints, the
    list of intervals and the consistency verdict of the receiver are the
    same after the call as before. *)
Theorem check_interval_conflicts_on_copy
    (h : heap) (self : addr) (X : gset string) (cs : cdict)
    (u v : string) (lo hi : Z) :
  points_of h self = Some X -> constraints_of h self = Some cs ->
  lo <= hi ->
  let r := check_interval_conflicts self u v lo hi h in
  r = (do c <- copy self;
       do _ <- add_constraint c u v (lo, hi);
       do b <- consistent c;
       ret (negb b)) h
  /\ fst r = Return (negb (verdict ({[v]} ∪ ({[u]} ∪ X))
                             (dict_set (u, v) (lo, hi) cs)))
  /\ points_of (snd r) self = Some X
  /\ constraints_of (snd r) self = Some cs
  /\ fst (get_intervals self (snd r)) = fst (get_intervals self h)
  /\ fst (consistent self (snd r)) = fst (consistent self h).
Proof.
  intros HX Hcs Hle r. destruct (views_live _ _ _ _ HX Hcs) as (o & Hl).
  split.
  { subst r. unfold check_interval_conflicts.
    rewrite (copy_prefix_live _ _ _ _ _ _ Hl).
    symmetry. unfold bind at 1. now rewrite (copy_live _ _ _ _ _ Hl). }
  destruct (check_interval_conflicts_live h self o X cs u v lo hi Hl)
    as (on & o' & Hn & Hsep & Et & Ec & Hco & Hr).
  fold r in Hr.
  replace (hi <? lo) with false in Hr by (symmetry; apply Z.ltb_ge; lia).
  rewrite Hr. cbn [fst snd]. split; [reflexivity |].
  assert (Hl' : live
            (upd (snd (extend h (time_unit o) X cs))
               (fst (extend h (time_unit o) X cs)) o'
               ({[v]} ∪ ({[u]} ∪ X)) (dict_set (u, v) (lo, hi) cs))
            self o X cs).
  { apply live_upd_other; [| now apply live_extend].
    destruct Hsep as (? & ? & ?). repeat split; congruence. }
  destruct (same_views _ _ _ _ _ _ Hl Hl') as (E1 & E2 & E3 & E4).
  rewrite E1, E2. auto.
Qed.

Lemma check_interval_conflicts_on_copy_witness :
  let r := check_interval_conflicts 0%nat "a" "b" 20 30 sample_heap in
  r = (do c <- copy 0%nat;
       do _ <- add_constraint c "a" "b" (20, 30);
       do b <- consistent c;
       ret (negb b)) sample_heap
  /\ fst r = Return (negb (verdict ({["b"]} ∪ ({["a"]} ∪ {["a"; "b"]}))
                             (dict_set ("a", "b") (20, 30)
                                [(("a", "b"), (10, 15))])))
  /\ points_of (snd r) 0%nat = Some {["a"; "b"]}
  /\ constraints_of (snd r) 0%nat = Some [(("a", "b"), (10, 15))]
  /\ fst (get_intervals 0%nat (snd r)) = fst (get_intervals 0%nat sample_heap)
  /\ fst (consistent 0%nat (snd r)) = fst (consistent 0%nat sample_heap).
Proof.
  apply (check_interval_conflicts_on_copy sample_heap 0%nat
           {["a"; "b"]} [(("a", "b"), (10, 15))] "a" "b" 20 30
           sample_points sample_constraints).
  lia.
Defined.

(** The copy made by [copy] holds the time points and the constraints of
    the original, and the original is still live after the call. *)
Lemma copy_spec h s o X cs :
  live h s o X cs ->
  exists c h1 oc,
    copy s h = (Return c, h1)
    /\ live h1 c oc X cs /\ live h1 s o X cs /\ separate s o c oc.
Proof.
  intros Hl. rewrite (copy_live _ _ _ _ _ Hl).
  destruct (extend_new h (time_unit o) X cs)
    as (oc & Hc & _ & _ & _ & Hd1 & Hd2 & Hd3).
  cbn zeta in *. eexists _, _, oc. split; [reflexivity |].
  split; [exact Hc |]. split; [now apply live_extend |].
  destruct Hl as [H1 H2 H3]. repeat split; congruence.
Qed.

(** A mutating call on an instance leaves the instances separate from it
    alone and keeps the addresses of its own set and dictionary. *)
Lemma mutate_frame h c oc Xc csc s o X cs m :
  live h c oc Xc csc -> live h s o X cs -> separate s o c oc ->
  exists oc' Xc' csc',
    live (mutate c m h) c oc' Xc' csc' /\ live (mutate c m h) s o X cs
    /\ separate s o c oc'.
Proof.
  intros Hc Hs Hsep. destruct m as [p | u v [lo hi]]; simpl.
  - rewrite (add_time_point_live _ _ _ _ _ p Hc). simpl.
    eexists _, _, _. split; [apply live_upd |].
    split; [now apply live_upd_other | exact Hsep].
  - rewrite (add_constraint_live _ _ _ _ _ u v lo hi Hc).
    destruct (hi <? lo); simpl; eexists _, _, _;
      (split; [apply live_upd |]);
      (split; [now apply live_upd_other | exact Hsep]).
Qed.

Lemma mutations_frame ms : forall h c oc Xc csc s o X cs,
  live h c oc Xc csc -> live h s o X cs -> separate s o c oc ->
  live (foldl (fun h m => mutate c m h) h ms) s o X cs.
Proof.
  induction ms as [|m ms IH]; intros h c oc Xc csc s o X cs Hc Hs Hsep;
    simpl; [exact Hs |].
  destruct (mutate_frame _ _ _ _ _ _ _ _ _ m Hc Hs Hsep)
    as (oc' & Xc' & csc' & Hc' & Hs' & Hsep').
  eapply IH; eauto.
Qed.

(** C8. After [c = s.copy()], any sequence of calls of [add_time_point]
    and [add_constraint] on [c] (raising or not) leaves the time points of
    [s], its constraints, the list returned by [s.get_intervals()] and the
    verdict of [s.consistent()] as they were. *)
Theorem copy_is_independent
    (h : heap) (s : addr) (X : gset string) (cs : cdict)
    (ms : list mutation) :
  points_of h s = Some X -> constraints_of h s = Some cs ->
  exists c h1,
    copy s h = (Return c, h1)
    /\ points_of h1 c = Some X /\ constraints_of h1 c = Some cs
    /\ let h2 := foldl (fun h m => mutate c m h) h1 ms in
       points_of h2 s = Some X
       /\ constraints_of h2 s = Some cs
       /\ fst (get_intervals s h2) = fst (get_intervals s h)
       /\ fst (consistent s h2) = fst (consistent s h).
Proof.
  intros HX Hcs. destruct (views_live _ _ _ _ HX Hcs) as (o & Hl).
  destruct (copy_spec _ _ _ _ _ Hl) as (c & h1 & oc & Hcopy & Hc & Hs & Hsep).
  exists c, h1. split; [exact Hcopy |].
  destruct (live_views _ _ _ _ _ Hc) as [-> ->].
  split; [reflexivity |]. split; [reflexivity |]. intros h2.
  pose proof (mutations_frame ms _ _ _ _ _ _ _ _ _ Hc Hs Hsep) as Hs2.
  fold h2 in Hs2.
  destruct (same_views _ _ _ _ _ _ Hl Hs2) as (E1 & E2 & E3 & E4).
  rewrite E1, E2. auto.
Qed.

Lemma copy_is_independent_witness :
  exists c h1,
    copy 0%nat sample_heap = (Return c, h1)
    /\ points_of h1 c = Some {["a"; "b"]}
    /\ constraints_of h1 c = Some [(("a", "b"), (10, 15))]
    /\ let h2 := foldl (fun h m => mutate c m h) h1
                   [MAddTimePoint "z"; MAddConstraint "b" "a" (0, 5);
                    MAddConstraint "a" "z" (9, 1)] in
       points_of h2 0%nat = Some {["a"; "b"]}
       /\ constraints_of h2 0%nat = Some [(("a", "b"), (10, 15))]
       /\ fst (get_intervals 0%nat h2) = fst (get_intervals 0%nat sample_heap)
       /\ fst (consistent 0%nat h2) = fst (consistent 0%nat sample_heap).
Proof.
  exact (copy_is_independent sample_heap 0%nat
           {["a"; "b"]} [(("a", "b"), (10, 15))]
           [MAddTimePoint "z"; MAddConstraint "b" "a" (0, 5);
            MAddConstraint "a" "z" (9, 1)]
           sample_points sample_constraints).
Defined.

(** In the witness above the copy itself does change: the mutations make
    it inconsistent while the original stays consistent. *)
Lemma copy_mutated_original_kept :
  let c := 1%nat in
  let h1 := snd (copy 0%nat sample_heap) in
  let h2 := foldl (fun h m => mutate c m h) h1
              [MAddTimePoint "z"; MAddConstraint "b" "a" (0, 5);
               MAddConstraint "a" "z" (9, 1)] in
  fst (copy 0%nat sample_heap) = Return c
  /\ fst (consistent c h2) = Return false
  /\ fst (consistent 0%nat h2) = Return true.
Proof. vm_compute. auto. Qed.

End STNFacts.




Module DurationFacts.
Import PyFloat Duration.

(** *** Rounding of integers *)

Lemma Qred_int (q : Q) (z : Z) : (q == inject_Z z)%Q -> Qred q = inject_Z z.
Proof.
  intros H. rewrite (Qred_complete _ _ H).
  apply Qred_identity. simpl. apply Z.gcd_1_r.
Qed.

(** Rounding does not depend on how the fraction is written. *)
Lemma round64_Qeq (p q : Q) : (p == q)%Q -> round64 p = round64 q.
Proof. intros E. unfold round64. now rewrite (Qred_complete _ _ E). Qed.

Lemma round_half_even_exact (z : Z) : round_half_even z 1 = z.
Proof.
  unfold round_half_even. rewrite Z.mod_1_r, Z.div_1_r. reflexivity.
Qed.

(** An integer of at most 53 bits is a binary64 number. *)
Lemma round64_small_int (z : Z) :
  0 <= z < 2 ^ 53 -> round64 (inject_Z z) = Finite (inject_Z z).
Proof.
  intros [H0 H1]. unfold round64.
  rewrite (Qred_int (inject_Z z) z) by reflexivity. cbn zeta. simpl Qnum.
  destruct z as [|p|p]; [reflexivity | | lia].
  unfold round64_pos.
  assert (He : ilog2 (inject_Z (Zpos p)) = Z.log2 (Zpos p)).
  { unfold ilog2. simpl Qnum. simpl Qden.
    change (Z.log2 1) with 0. rewrite Z.sub_0_r.
    unfold div_pow2. simpl Qnum. simpl Qden.
    pose proof (Z.log2_nonneg (Zpos p)) as Hn.
    replace (0 <=? Z.log2 (Zpos p)) with true by (symmetry; apply Z.leb_le; lia).
    rewrite Z.mul_1_l.
    replace (2 ^ Z.log2 (Zpos p) <=? Zpos p) with true; [reflexivity |].
    symmetry. apply Z.leb_le. apply Z.log2_spec. lia. }
  rewrite He.
  assert (Hlog : 0 <= Z.log2 (Zpos p) < 53).
  { split; [apply Z.log2_nonneg |]. apply Z.log2_lt_pow2; lia. }
  remember (Z.log2 (Zpos p)) as e eqn:Ee.
  replace (Z.max (e - 52) (- 1074)) with (e - 52) by lia.
  unfold div_pow2. simpl Qnum. simpl Qden.
  destruct (0 <=? e - 52) eqn:E.
  - apply Z.leb_le in E. assert (E52 : e = 52) by lia. subst e.
    rewrite E52. change (1 * 2 ^ (52 - 52)) with 1.
    rewrite round_half_even_exact. rewrite E52.
    change ((0 <? Zpos p) && (1024 <=? 52 + (52 - 52))) with false.
    cbv iota. f_equal. apply Qred_int.
    unfold pow2. simpl. unfold Qeq. simpl. lia.
  - apply Z.leb_gt in E. rewrite round_half_even_exact.
    assert (Hpos : 0 < Zpos p * 2 ^ (- (e - 52))) by (apply Z.mul_pos_pos; lia).
    replace (0 <? Zpos p * 2 ^ (- (e - 52))) with true
      by (symmetry; apply Z.ltb_lt; exact Hpos).
    rewrite Z.log2_mul_pow2 by lia. rewrite <- Ee.
    simpl andb.
    replace (1024 <=? - (e - 52) + e + (e - 52)) with false
      by (symmetry; apply Z.leb_gt; lia).
    f_equal. apply Qred_int.
    unfold pow2. replace (0 <=? e - 52) with false by (symmetry; apply Z.leb_gt; lia).
    assert (Hp2 : 0 < 2 ^ (- (e - 52))) by (apply Z.pow_pos_nonneg; lia).
    unfold Qeq, Qdiv, Qmult, Qinv, inject_Z. simpl Qnum.
    destruct (2 ^ (- (e - 52))) as [|k|k] eqn:Ek; try lia.
    simpl. lia.
Qed.

(** So is [2 ^ 53] itself. *)
Lemma round64_int (z : Z) :
  0 <= z <= 2 ^ 53 -> round64 (inject_Z z) = Finite (inject_Z z).
Proof.
  intros H. destruct (Z.eq_dec z (2 ^ 53)) as [-> | Hne].
  - vm_compute. reflexivity.
  - apply round64_small_int. lia.
Qed.

Lemma fmul_int (a b : Z) :
  0 <= a * b <= 2 ^ 53 ->
  fmul (Finite (inject_Z a)) (Finite (inject_Z b)) = Finite (inject_Z (a * b)).
Proof. intros H. unfold fmul. now apply round64_int. Qed.

Lemma fadd_int (a b : Z) :
  0 <= a + b <= 2 ^ 53 ->
  fadd (Finite (inject_Z a)) (Finite (inject_Z b)) = Finite (inject_Z (a + b)).
Proof.
  intros H. unfold fadd.
  replace (inject_Z a + inject_Z b)%Q with (inject_Z (a + b));
    [now apply round64_int |].
  unfold Qplus, inject_Z. simpl. now rewrite !Z.mul_1_r.
Qed.

(** *** Floats that hold whole numbers

    On floats that hold integers of at most 53 bits the float operations
    of [format_iso8601_duration] compute what the integer operations
    compute. *)

Lemma round64_int_Qeq (q : Q) (k : Z) :
  (q == inject_Z k)%Q -> 0 <= k <= 2 ^ 53 ->
  round64 q = Finite (inject_Z k).
Proof. intros E Hk. rewrite (round64_Qeq _ _ E). now apply round64_int. Qed.

Lemma round64_neg_int (k : Z) :
  - 2 ^ 53 <= k < 0 -> round64 (inject_Z k) = Finite (inject_Z k).
Proof.
  intros Hk. destruct k as [|p|p]; try lia.
  pose proof (round64_int (Zpos p) ltac:(lia)) as Hp.
  unfold round64 in *.
  rewrite (Qred_int (inject_Z (Zpos p)) (Zpos p)) in Hp by reflexivity.
  rewrite (Qred_int (inject_Z (Zneg p)) (Zneg p)) by reflexivity.
  cbn zeta in *. simpl Qnum in *. cbv iota in *.
  change (- inject_Z (Zneg p))%Q with (inject_Z (Zpos p)).
  now rewrite Hp.
Qed.

Lemma Qle_bool_int (a b : Z) : Qle_bool (inject_Z a) (inject_Z b) = (a <=? b).
Proof.
  unfold Qle_bool, inject_Z. simpl. now rewrite !Z.mul_1_r.
Qed.

Lemma Qeq_bool_int (a b : Z) : Qeq_bool (inject_Z a) (inject_Z b) = (a =? b).
Proof.
  unfold Qeq_bool, inject_Z. simpl. now rewrite !Z.mul_1_r.
Qed.

Lemma Qfloor_div_int (k : Z) (w : positive) :
  Qfloor (inject_Z k / inject_Z (Zpos w)) = k / Zpos w.
Proof.
  unfold Qdiv, Qinv, Qmult, inject_Z, Qfloor. simpl.
  now rewrite Z.mul_1_r.
Qed.

Lemma fmod_int (k : Z) (w : positive) :
  0 <= k -> fmod (Finite (inject_Z k)) (Zpos w) = Finite (inject_Z (k mod Zpos w)).
Proof.
  intros Hk. unfold fmod.
  change 0%Q with (inject_Z 0). rewrite Qle_bool_int.
  replace (0 <=? k) with true by (symmetry; now apply Z.leb_le).
  rewrite Qfloor_div_int. f_equal. apply Qred_int.
  rewrite (Z.mod_eq k (Zpos w)) by lia.
  unfold Qeq, Qminus, Qplus, Qopp, Qmult, inject_Z. simpl. lia.
Qed.

Lemma flt_zero_int (k : Z) : flt (Finite (inject_Z k)) (Finite 0) = (k <? 0).
Proof.
  cbn [flt]. change 0%Q with (inject_Z 0). rewrite Qle_bool_int.
  now rewrite Z.ltb_antisym.
Qed.

Lemma flt_int_zero (k : Z) : flt (Finite 0) (Finite (inject_Z k)) = (0 <? k).
Proof.
  cbn [flt]. change 0%Q with (inject_Z 0). rewrite Qle_bool_int.
  now rewrite Z.ltb_antisym.
Qed.

Lemma is_zero_int (k : Z) : is_zero (Finite (inject_Z k)) = (k =? 0).
Proof.
  unfold is_zero. cbn [feq]. change 0%Q with (inject_Z 0).
  apply Qeq_bool_int.
Qed.

Lemma float_mod_int (k : Z) (w : positive) :
  0 <= k ->
  float_mod (Finite (inject_Z k)) (Zpos w) = Finite (inject_Z (k mod Zpos w)).
Proof.
  intros Hk. unfold float_mod. rewrite (fmod_int _ _ Hk).
  rewrite is_zero_int, flt_zero_int.
  pose proof (Z.mod_pos_bound k (Zpos w) ltac:(lia)) as Hb.
  destruct (k mod Zpos w =? 0) eqn:E.
  - apply Z.eqb_eq in E. now rewrite E.
  - now replace (k mod Zpos w <? 0) with false by (symmetry; apply Z.ltb_ge; lia).
Qed.

Lemma float_floordiv_int (k : Z) (w : positive) :
  0 <= k <= 2 ^ 53 ->
  float_floordiv (Finite (inject_Z k)) (Zpos w) = Finite (inject_Z (k / Zpos w)).
Proof.
  intros Hk. unfold float_floordiv. rewrite (fmod_int _ _ (proj1 Hk)).
  pose proof (Z.mod_pos_bound k (Zpos w) ltac:(lia)) as Hb.
  pose proof (Z.div_mod k (Zpos w) ltac:(lia)) as Hdm.
  assert (Hq : 0 <= k / Zpos w) by (apply Z.div_pos; lia).
  assert (Hqk : k / Zpos w <= k).
  { apply Z.div_le_upper_bound; [lia | nia]. }
  assert (Hsub : fsub (Finite (inject_Z k)) (Finite (inject_Z (k mod Zpos w)))
                 = Finite (inject_Z (k - k mod Zpos w))).
  { unfold fsub, fneg, fadd. apply round64_int_Qeq; [| lia].
    unfold Qeq, Qplus, Qopp, inject_Z. simpl. lia. }
  rewrite Hsub.
  assert (Hdiv : fdiv_const (Finite (inject_Z (k - k mod Zpos w))) (Zpos w)
                 = Finite (inject_Z (k / Zpos w))).
  { unfold fdiv_const. apply round64_int_Qeq; [| lia].
    unfold Qeq, Qdiv, Qmult, Qinv, inject_Z. simpl. nia. }
  rewrite Hdiv, is_zero_int, flt_zero_int.
  replace (k mod Zpos w <? 0) with false by (symmetry; apply Z.ltb_ge; lia).
  rewrite andb_false_r. rewrite is_zero_int.
  destruct (k / Zpos w =? 0) eqn:E.
  - apply Z.eqb_eq in E. now rewrite E.
  - cbn [ffloor]. rewrite Qfloor_Z.
    assert (Hz : fsub (Finite (inject_Z (k / Zpos w)))
                   (Finite (inject_Z (k / Zpos w))) = Finite 0).
    { unfold fsub, fneg, fadd.
      rewrite (round64_Qeq _ (inject_Z 0)) by ring. reflexivity. }
    rewrite Hz. reflexivity.
Qed.

Lemma int_of_float_int (k : Z) : int_of_float (Finite (inject_Z k)) = Return k.
Proof.
  unfold int_of_float. f_equal.
  destruct (Qle_bool 0 (inject_Z k)); [apply Qfloor_Z | apply Qceiling_Z].
Qed.

Lemma num_divmod_float_int (k : Z) (w : positive) :
  0 <= k <= 2 ^ 53 ->
  num_divmod (PFloat (Finite (inject_Z k))) (Zpos w)
  = (Return (k / Zpos w), PFloat (Finite (inject_Z (k mod Zpos w)))).
Proof.
  intros Hk. unfold num_divmod.
  now rewrite float_floordiv_int, float_mod_int, int_of_float_int by lia.
Qed.

Lemma secs_text_float_int (k : Z) :
  secs_text (PFloat (Finite (inject_Z k))) = str_int k.
Proof.
  unfold secs_text. rewrite int_of_float_int. cbn [feq].
  now rewrite Qeq_bool_int, Z.eqb_refl.
Qed.

(** Formatting the float [k] gives the text of the integer [k]. *)
Lemma format_float_int (k : Z) :
  0 <= k <= 2 ^ 53 ->
  format_iso8601_duration (PFloat (Finite (inject_Z k)))
  = format_iso8601_duration (PInt k).
Proof.
  intros Hk. unfold format_iso8601_duration. cbn [num_neg].
  rewrite flt_zero_int.
  replace (k <? 0) with false by (symmetry; apply Z.ltb_ge; lia).
  change 3600 with (Zpos 3600). change 60 with (Zpos 60).
  rewrite num_divmod_float_int by lia.
  cbv beta iota.
  pose proof (Z.mod_pos_bound k (Zpos 3600) ltac:(lia)) as Hb.
  rewrite num_divmod_float_int by lia.
  cbn [num_divmod num_pos]. cbv beta iota.
  now rewrite flt_int_zero, secs_text_float_int.
Qed.

(** *** Decimal text of a natural number *)


Lemma span_digits_stop (s : string) :
  no_leading_digit s -> span_digits s = (EmptyString, s).
Proof. destruct s as [|c r]; simpl; [reflexivity | now intros ->]. Qed.

Lemma span_digits_uint (d : Decimal.uint) (r : string) :
  no_leading_digit r ->
  span_digits (NilEmpty.string_of_uint d ++ r) = (NilEmpty.string_of_uint d, r).
Proof.
  intros Hr. induction d; simpl;
    [now apply span_digits_stop | rewrite IHd; reflexivity ..].
Qed.

Lemma digits_value_uint (d : Decimal.uint) (acc : Z) :
  digits_value (NilEmpty.string_of_uint d) acc =
  acc * 10 ^ Z.of_N (DecimalPos.Unsigned.usize d)
  + Z.of_N (DecimalPos.Unsigned.of_lu (Decimal.rev d)).
Proof.
  revert acc.
  induction d; intros acc;
    cbn [NilEmpty.string_of_uint digits_value DecimalPos.Unsigned.usize];
    [simpl; lia | ..];
    unfold Decimal.rev; cbn [Decimal.revapp];
    rewrite DecimalPos.Unsigned.of_lu_revapp; fold (Decimal.rev d);
    rewrite IHd;
    rewrite N2Z.inj_succ, Z.pow_succ_r by apply N2Z.is_nonneg;
    rewrite N2Z.inj_add, N2Z.inj_mul, N2Z.inj_pow;
    match goal with
    | |- context [Z.of_N (N_of_ascii ?c)] =>
        let v := eval vm_compute in (Z.of_N (N_of_ascii c)) in
        change (Z.of_N (N_of_ascii c)) with v
    end;
    match goal with
    | |- context [Z.of_N (DecimalPos.Unsigned.of_lu (?D Decimal.Nil))] =>
        let v := eval vm_compute in
                   (Z.of_N (DecimalPos.Unsigned.of_lu (D Decimal.Nil))) in
        change (Z.of_N (DecimalPos.Unsigned.of_lu (D Decimal.Nil))) with v
    end;
    change (Z.of_N 10) with 10; lia.
Qed.

Lemma str_int_nonneg (z : Z) :
  0 <= z -> str_int z = NilEmpty.string_of_uint (N.to_uint (Z.to_N z)).
Proof. destruct z; [reflexivity | reflexivity | lia]. Qed.

Lemma digits_value_str_int (z : Z) :
  0 <= z -> digits_value (str_int z) 0 = z.
Proof.
  intros H. rewrite (str_int_nonneg _ H), digits_value_uint.
  rewrite Z.mul_0_l, Z.add_0_l.
  rewrite <- DecimalPos.Unsigned.of_uint_alt.
  change (Pos.of_uint (N.to_uint (Z.to_N z)))
    with (N.of_uint (N.to_uint (Z.to_N z))).
  rewrite DecimalN.Unsigned.of_to. now apply Z2N.id.
Qed.

Lemma str_int_nonempty (z : Z) : 0 <= z -> str_int z <> EmptyString.
Proof.
  intros H. rewrite (str_int_nonneg _ H).
  destruct (Z.to_N z) as [|p]; [discriminate |].
  simpl. pose proof (DecimalPos.Unsigned.to_uint_nonnil p) as Hn.
  destruct (Pos.to_uint p); try discriminate. congruence.
Qed.

Lemma span_digits_str_int (z : Z) (r : string) :
  0 <= z -> no_leading_digit r ->
  span_digits (str_int z ++ r) = (str_int z, r).
Proof. intros H Hr. rewrite (str_int_nonneg _ H). now apply span_digits_uint. Qed.

(** *** Matching the components *)


Lemma match_number_str_int (z : Z) (c : ascii) (r : string) :
  0 <= z -> unit_letter c ->
  match_number (str_int z ++ String c r)
  = Some (mk_number (str_int z) None, String c r).
Proof.
  intros Hz Hc. unfold match_number.
  rewrite span_digits_str_int by
    (auto; destruct Hc as [-> | [-> | ->]]; reflexivity).
  pose proof (str_int_nonempty z Hz) as Hne.
  destruct (str_int z) as [|a t]; [congruence |].
  destruct Hc as [-> | [-> | ->]]; reflexivity.
Qed.

Lemma match_component_same (x : ascii) (z : Z) (r : string) :
  0 <= z -> unit_letter x ->
  match_component x (str_int z ++ String x r)
  = (Some (mk_number (str_int z) None), r).
Proof.
  intros Hz Hx. unfold match_component.
  rewrite match_number_str_int by assumption.
  now rewrite Ascii.eqb_refl.
Qed.

Lemma match_component_other (x y : ascii) (z : Z) (r : string) :
  0 <= z -> unit_letter y -> x <> y ->
  match_component x (str_int z ++ String y r)
  = (None, str_int z ++ String y r).
Proof.
  intros Hz Hy Hne. unfold match_component.
  rewrite match_number_str_int by assumption.
  destruct (Ascii.eqb y x) eqn:E; [| reflexivity].
  apply Ascii.eqb_eq in E. congruence.
Qed.


Lemma substring_all (s : string) : String.substring 0 (String.length s) s = s.
Proof. induction s as [|c s IH]; simpl; [reflexivity | now rewrite IH]. Qed.

Lemma float_of_group_int (z : Z) :
  0 <= z ->
  float_of_group (Some (mk_number (str_int z) None)) = round64 (inject_Z z).
Proof.
  intros Hz. unfold float_of_group, float_of_number. simpl.
  now rewrite digits_value_str_int.
Qed.

Lemma prefix_PT (body : string) :
  String.prefix "PT" (String "P" (String "T" body)) = true.
Proof. apply String.prefix_correct. simpl. now destruct body. Qed.

(** Parsing a duration written with integer components. *)
Lemma parse_components (oh om os : option Z) :
  component_ok oh -> component_ok om -> component_ok os ->
  parse_iso8601_duration
    ("PT" ++ component "H" oh (component "M" om (component "S" os "")))
  = Some (fadd (fadd (fmul (component_value oh) (of_Z 3600))
                     (fmul (component_value om) (of_Z 60)))
               (component_value os)).
Proof.
  intros Hh Hm Hs. unfold parse_iso8601_duration.
  set (body := component "H" oh (component "M" om (component "S" os ""))).
  change ("PT" ++ body) with (String "P" (String "T" body)).
  rewrite prefix_PT.
  cbn [negb String.length Nat.sub String.substring].
  rewrite Nat.sub_0_r, substring_all. subst body.
  assert (HH : unit_letter "H") by (left; reflexivity).
  assert (HM : unit_letter "M") by (right; left; reflexivity).
  assert (HS : unit_letter "S") by (right; right; reflexivity).
  destruct oh as [h|], om as [m|], os as [sc|]; cbn [component component_ok] in *;
    repeat first
      [ rewrite match_component_same by assumption
      | rewrite match_component_other by (assumption || discriminate) ];
    try (change (match_component "H" "") with (@None number_text, ""));
    try (change (match_component "M" "") with (@None number_text, ""));
    try (change (match_component "S" "") with (@None number_text, ""));
    cbv beta iota;
    rewrite ?float_of_group_int by assumption;
    reflexivity.
Qed.

(** *** Formatting an integer *)

Lemma append_assoc (a b c : string) : ((a ++ b) ++ c = a ++ (b ++ c))%string.
Proof.
  induction a as [|x a IH]; [reflexivity |].
  exact (f_equal (String x) IH).
Qed.


Lemma format_int (n : Z) :
  0 <= n ->
  let h := n / 3600 in
  let m := n mod 3600 / 60 in
  let sc := (n mod 3600) mod 60 in
  format_iso8601_duration (PInt n) =
  Return ("PT" ++ component "H" (positive_part h)
            (component "M" (positive_part m)
               (component "S"
                  (if (0 <? sc) || ((h =? 0) && (m =? 0)) then Some sc
                   else None) ""))).
Proof.
  intros Hn h m sc. unfold format_iso8601_duration.
  cbn [num_neg]. replace (n <? 0) with false by (symmetry; apply Z.ltb_ge; lia).
  cbn [num_divmod num_pos secs_text]. fold h m sc.
  assert (Hh : 0 <= h) by (apply Z.div_pos; lia).
  assert (Hm : 0 <= m) by (apply Z.div_pos; [apply Z.mod_pos_bound |]; lia).
  unfold positive_part.
  destruct (0 <? h) eqn:Eh; destruct (0 <? m) eqn:Em;
    destruct ((0 <? sc) || ((h =? 0) && (m =? 0))) eqn:Es;
    cbn [app String.concat component];
    rewrite ?append_assoc; try reflexivity.
  exfalso. apply Z.ltb_ge in Eh, Em.
  assert (h = 0) as E1 by lia. assert (m = 0) as E2 by lia.
  rewrite E1, E2 in Es. rewrite orb_true_r in Es. discriminate.
Qed.

Lemma component_value_int (z : Z) :
  0 <= z <= 2 ^ 53 ->
  component_value (positive_part z) = Finite (inject_Z z).
Proof.
  intros H. unfold positive_part. destruct (0 <? z) eqn:E; simpl.
  - now apply round64_int.
  - apply Z.ltb_ge in E. now replace z with 0 by lia.
Qed.

(** Every integer number of seconds up to [2 ^ 53] is formatted to a text
    that parses back to that number. *)
Lemma parse_format_int (n : Z) :
  0 <= n <= 2 ^ 53 ->
  exists text, format_iso8601_duration (PInt n) = Return text
    /\ parse_iso8601_duration text = Some (Finite (inject_Z n)).
Proof.
  intros Hn. eexists. split; [apply format_int; lia |].
  set (h := n / 3600). set (m := n mod 3600 / 60).
  set (sc := (n mod 3600) mod 60).
  pose proof (Z.div_mod n 3600 ltac:(lia)) as D1.
  pose proof (Z.div_mod (n mod 3600) 60 ltac:(lia)) as D2.
  pose proof (Z.mod_pos_bound n 3600 ltac:(lia)) as B1.
  pose proof (Z.mod_pos_bound (n mod 3600) 60 ltac:(lia)) as B2.
  fold h in D1. fold m sc in D2. fold sc in B2.
  assert (Hh : 0 <= h) by (apply Z.div_pos; lia).
  assert (Hm : 0 <= m) by (apply Z.div_pos; lia).
  assert (Hos : component_value
            (if (0 <? sc) || ((h =? 0) && (m =? 0)) then Some sc else None)
          = Finite (inject_Z sc)).
  { destruct ((0 <? sc) || ((h =? 0) && (m =? 0))) eqn:E; simpl.
    - apply round64_int. lia.
    - apply orb_false_iff in E as [E _]. apply Z.ltb_ge in E.
      now replace sc with 0 by lia. }
  rewrite parse_components.
  - rewrite Hos, !component_value_int by lia.
    change (of_Z 3600) with (round64 (inject_Z 3600)).
    change (of_Z 60) with (round64 (inject_Z 60)).
    rewrite !round64_int by lia.
    rewrite !fmul_int by lia. rewrite !fadd_int by lia.
    do 3 f_equal. lia.
  - unfold positive_part. destruct (0 <? h); simpl; auto.
  - unfold positive_part. destruct (0 <? m); simpl; auto.
  - destruct ((0 <? sc) || ((h =? 0) && (m =? 0))); simpl; auto. lia.
Qed.

Lemma feq_refl_int (z : Z) : feq (Finite (inject_Z z)) (Finite (inject_Z z)) = true.
Proof. simpl. apply Qeq_bool_iff. reflexivity. Qed.

(** C3 (as amended). For every integer [n] with [0 <= n <= 2 ^ 53],
    [parse_iso8601_duration(format_iso8601_duration(n))] equals [n], and
    [format_iso8601_duration(0)] is the text [PT0S]. *)
Theorem duration_round_trip :
  (forall n : Z, 0 <= n <= 2 ^ 53 -> round_trips n)
  /\ format_iso8601_duration (PInt 0) = Return "PT0S".
Proof.
  split; [| reflexivity].
  intros n Hn. destruct (parse_format_int n Hn) as (text & Hf & Hp).
  exists text, (Finite (inject_Z n)). auto using feq_refl_int.
Qed.

Lemma duration_round_trip_witness : round_trips 5445.
Proof. apply (proj1 duration_round_trip 5445). lia. Defined.

Lemma format_2_53_plus_1 :
  format_iso8601_duration (PInt (2 ^ 53 + 1))
  = Return "PT2501999792983H36M33S".
Proof. vm_compute. reflexivity. Qed.

Lemma parse_2_53_plus_1 :
  parse_iso8601_duration "PT2501999792983H36M33S"
  = Some (Finite (inject_Z (2 ^ 53))).
Proof. vm_compute. reflexivity. Qed.

(** C3 as stated fails: the integer [2 ^ 53 + 1] is formatted to
    [PT2501999792983H36M33S], which parses to the float [2 ^ 53]: the sum
    of the three components is rounded to 53 bits. *)
Lemma duration_round_trip_fails_above_2_53 : ~ round_trips (2 ^ 53 + 1).
Proof.
  intros (text & f & Hf & Hp & He).
  rewrite format_2_53_plus_1 in Hf. injection Hf as <-.
  rewrite parse_2_53_plus_1 in Hp. injection Hp as <-.
  vm_compute in He. discriminate.
Qed.

(** *** What the parser rejects *)

(** A text that does not begin with [PT] is rejected. *)
Lemma parse_rejects_missing_prefix (text : string) :
  String.prefix "PT" text = false -> parse_iso8601_duration text = None.
Proof.
  intros H. unfold parse_iso8601_duration. rewrite H.
  now destruct text.
Qed.

(** A text that begins with [PT] is never rejected, whatever follows. *)
Lemma parse_accepts_prefixed (text : string) :
  String.prefix "PT" text = true ->
  exists f, parse_iso8601_duration text = Some f.
Proof.
  intros H. unfold parse_iso8601_duration. rewrite H.
  destruct text as [|c r]; [discriminate |]. cbn [negb].
  destruct (match_component "H" _) as [g1 rest1].
  destruct (match_component "M" _) as [g2 rest2].
  destruct (match_component "S" _) as [g3 rest3].
  eexists. reflexivity.
Qed.

(** C2. The statement holds for texts that do not begin with [PT]
    ([parse_rejects_missing_prefix]) and fails for texts that begin with
    [PT] and have no H, M or S component: on [PT] itself, and on [PT]
    followed by anything that is not a component, the parser returns zero
    seconds instead of the failure value. *)
Theorem parse_accepts_text_without_component :
  parse_iso8601_duration "PT" = Some (Finite 0)
  /\ parse_iso8601_duration "PTgarbage" = Some (Finite 0)
  /\ parse_iso8601_duration "PT-5M" = Some (Finite 0).
Proof. repeat split; vm_compute; reflexivity. Qed.

End DurationFacts.



Module ActionsFacts.
Import PyFloat Duration DateTime TemporalMetadata Actions.

Lemma dom_update {V} (d : gmap string V) (items : list (string * V)) :
  dom (update d items) = dom d ∪ list_to_set (map fst items).
Proof.
  unfold update. revert d.
  induction items as [|[k v] items IH]; intros d; simpl.
  - set_solver.
  - rewrite IH, dom_insert_L. set_solver.
Qed.

Lemma names_of_length l names :
  names_of l = Return names -> length names = length l.
Proof.
  revert names. induction l as [|o l IH]; intros names; simpl.
  - intros [= <-]. reflexivity.
  - destruct (name_of o); [| discriminate].
    destruct (names_of l) as [ns|]; [| discriminate].
    intros [= <-]. simpl. f_equal. now apply IH.
Qed.

Lemma map_fst_combine {A B} (l : list A) (l' : list B) :
  length l = length l' -> map fst (combine l l') = l.
Proof.
  revert l'. induction l as [|a l IH]; intros [|b l'] Hl; simpl in *;
    try discriminate; [reflexivity |].
  f_equal. apply IH. congruence.
Qed.

Lemma register_in_sync name f self :
  in_sync self -> in_sync (register name f self).
Proof.
  intros [H1 H2]. unfold in_sync, register. simpl.
  rewrite !dom_insert_L, H1, H2. auto.
Qed.

Lemma declare_actions_in_sync l self :
  in_sync self -> in_sync (snd (declare_actions l self)).
Proof.
  intros [H1 H2]. unfold declare_actions.
  destruct l; simpl; try (split; assumption).
  destruct (negb (forallb callable items)); simpl; [split; assumption |].
  destruct (names_of items) as [names|] eqn:E; simpl; [| split; assumption].
  unfold in_sync. simpl. rewrite !dom_update, H1, H2.
  rewrite (map_fst_combine _ _ (names_of_length _ _ E)).
  rewrite !map_map. simpl. rewrite !map_id. auto.
Qed.

Section WithLibrary.
Context `{DatetimeLib}.

Lemma store_metadata_in_sync name duration self :
  in_sync self -> in_sync (snd (store_metadata name duration self)).
Proof.
  intros Hs. unfold store_metadata.
  destruct (TemporalMetadata.__init__ _ _ _); simpl; exact Hs.
Qed.

Lemma declare_temporal_item_in_sync item self :
  in_sync self -> in_sync (snd (declare_temporal_item item self)).
Proof.
  intros Hs. unfold declare_temporal_item.
  destruct (elements_of item) as [[|a [|b [|c [|e l]]]]|]; simpl; try exact Hs.
  - destruct (negb (callable a)); simpl; [exact Hs |].
    destruct (name_of a) as [name|]; simpl; [| exact Hs].
    apply store_metadata_in_sync.
    destruct (action_dict self !! name); [exact Hs |].
    now apply register_in_sync.
  - destruct a; simpl; try exact Hs.
    destruct (negb (callable b)); simpl; [exact Hs |].
    apply store_metadata_in_sync. now apply register_in_sync.
Qed.

Lemma declare_temporal_items_in_sync items : forall self,
  in_sync self -> in_sync (snd (declare_temporal_items items self)).
Proof.
  induction items as [|item items IH]; intros self Hs; simpl; [exact Hs |].
  unfold bind.
  pose proof (declare_temporal_item_in_sync item self Hs) as Hs'.
  destruct (declare_temporal_item item self) as [[[]|e] self']; simpl in *.
  - now apply IH.
  - exact Hs'.
Qed.

Lemma declare_temporal_actions_in_sync l self :
  in_sync self -> in_sync (snd (declare_temporal_actions l self)).
Proof.
  intros Hs. unfold declare_temporal_actions.
  destruct l; simpl; try exact Hs.
  now apply declare_temporal_items_in_sync.
Qed.

(** When [declare_action_models] returns, the two sizes it compared are
    equal, and the maps it extended are again those of the action map. *)
Lemma declare_action_models_in_sync p c self :
  in_sync self ->
  fst (declare_action_models p c self) = Return tt ->
  in_sync (snd (declare_action_models p c self)).
Proof.
  intros [H1 H2]. unfold declare_action_models. simpl.
  destruct (size (update (action_prob self) p) =? size (action_dict self))%nat
    eqn:Ep; simpl; [| discriminate].
  destruct (size (update (action_cost self) c) =? size (action_dict self))%nat
    eqn:Ec; simpl; [| discriminate].
  intros _. apply Nat.eqb_eq in Ep, Ec.
  rewrite <- !size_dom in Ep, Ec. rewrite dom_update in Ep, Ec.
  unfold in_sync. simpl. rewrite !dom_update. split; symmetry.
  - apply set_subseteq_size_eq; [rewrite <- H1; set_solver | lia].
  - apply set_subseteq_size_eq; [rewrite <- H2; set_solver | lia].
Qed.

(** C9 (as amended). On a registry whose cost map and probability map
    have the key set of the action map, as a new registry has, a
    declaration call that returns leaves it so; [declare_actions] and
    [declare_temporal_actions] leave it so also when they raise. *)
Theorem declarations_keep_key_sets (self : actions) (d : declaration) :
  in_sync self ->
  fst (declare d self) = Return tt
    \/ (forall p c, d <> DeclareActionModels p c) ->
  in_sync (snd (declare d self)).
Proof.
  intros Hs Hd. destruct d as [l | p c | l]; simpl in *.
  - now apply declare_actions_in_sync.
  - destruct Hd as [Hr | Hn]; [| now destruct (Hn p c)].
    now apply declare_action_models_in_sync.
  - now apply declare_temporal_actions_in_sync.
Qed.

End WithLibrary.

Lemma new_actions_in_sync : in_sync new_actions.
Proof. split; reflexivity. Qed.

(** The registry after [declare_action_models], whatever the outcome. *)
Lemma declare_action_models_snd p c self :
  snd (declare_action_models p c self) =
  mk_actions (action_dict self) (update (action_prob self) p)
    (update (action_cost self) c) (action_temporal_dict self).
Proof.
  unfold declare_action_models. cbn [action_prob action_dict action_cost].
  destruct (negb _); [reflexivity |]. now destruct (negb _).
Qed.

Lemma declarations_keep_key_sets_witness :
  in_sync
    (snd (@declare (IsoCalendar.iso_lib 0)
            (DeclareTemporalActions
               (OList [OTuple [OFunction "walk"; OStr "PT5M"];
                       OTuple [OStr "ride"; OCallable; ONum (PInt 600)]]))
            new_actions)).
Proof.
  apply (@declarations_keep_key_sets (IsoCalendar.iso_lib 0) new_actions
           (DeclareTemporalActions
              (OList [OTuple [OFunction "walk"; OStr "PT5M"];
                      OTuple [OStr "ride"; OCallable; ONum (PInt 600)]]))
           new_actions_in_sync).
  left. vm_compute. reflexivity.
Defined.

(** C9 as stated fails: on a new registry,
    [declare_action_models({'b': [1, 0]}, {})] raises [AssertionError]
    after it has added the key [b] to the probability map, which the
    action map does not have. *)
Lemma declare_action_models_breaks_key_sets :
  let r := @declare (IsoCalendar.iso_lib 0)
             (DeclareActionModels [("b", default_prob)] []) new_actions in
  in_sync new_actions
  /\ fst r = Raise AssertionError
  /\ ~ in_sync (snd r).
Proof.
  cbn zeta. split; [apply new_actions_in_sync |].
  split; [vm_compute; reflexivity |].
  intros [_ Hp]. cbn [declare] in Hp.
  rewrite declare_action_models_snd in Hp. cbn [action_prob action_dict] in Hp.
  rewrite dom_update in Hp. simpl in Hp. set_solver.
Qed.

End ActionsFacts.

Module MetadataFacts.
Import PyFloat Duration DateTime TemporalMetadata DurationFacts.
Import IsoCalendar.

(** Every text [format_iso8601_duration] returns begins with [PT]. *)
Lemma format_starts_with_PT (x : pynum) (text : string) :
  format_iso8601_duration x = Return text -> String.prefix "PT" text = true.
Proof.
  unfold format_iso8601_duration.
  destruct (num_divmod _ 3600) as [[hours|e] remaining]; [| discriminate].
  destruct (num_divmod remaining 60) as [[minutes|e] secs]; [| discriminate].
  intros [= <-].
  match goal with
  | |- String.prefix "PT" (match ?parts with [] => _ | _ => _ end) = true =>
      destruct parts; [reflexivity | apply prefix_PT]
  end.
Qed.


(** A whole number of seconds is converted exactly. *)
Lemma timedelta_of_whole_seconds (k : Z) :
  timedelta_in_range (k * us_per_second) = true ->
  timedelta_of_seconds (Finite (inject_Z k)) = Return (k * us_per_second).
Proof.
  intros Hr. unfold timedelta_of_seconds.
  assert (Hint : (if Qle_bool 0 (inject_Z k) then Qfloor (inject_Z k)
                  else Qceiling (inject_Z k)) = k).
  { destruct (Qle_bool 0 (inject_Z k)).
    - apply Qfloor_Z.
    - apply Qceiling_Z. }
  rewrite Hint.
  assert (Hz : Qred (inject_Z k - inject_Z k) = inject_Z 0).
  { apply Qred_int. ring. }
  rewrite Hz. cbn [fmul].
  rewrite (round64_Qeq _ (inject_Z 0)) by ring.
  change (round64 (inject_Z 0)) with (Finite 0). simpl round_half_even.
  rewrite Z.add_0_r, Hr. reflexivity.
Qed.

Section WithLibrary.
Context `{DatetimeLib}.



(** With a duration that is the text of a whole number [n] of seconds, the
    end is exactly [n] seconds after the start. *)
Lemma calculate_end_adds_whole_seconds
    (self : metadata) (start duration : string) (start_dt : datetime) (n : Z) :
  _start_time self = Some start -> _duration self = Some duration ->
  parse_iso8601_datetime start = Some start_dt ->
  format_iso8601_duration (PInt n) = Return duration ->
  0 <= n <= 2 ^ 53 ->
  timedelta_in_range (n * us_per_second) = true ->
  0 <= wall start_dt + n * us_per_second <= max_wall ->
  calculate_end_from_duration self =
  (Return true,
   with_end_time self
     (Some (format_iso8601_datetime
              (mk_datetime (wall start_dt + n * us_per_second)
                 (tzinfo start_dt))))).
Proof.
  intros Hs Hd Es Hf Hn Hr Hrange.
  destruct (parse_format_int n Hn) as (text & Hf' & Hp).
  rewrite Hf in Hf'. injection Hf' as <-.
  unfold calculate_end_from_duration. rewrite Hs, Hd.
  unfold calculate_end_time, add_duration_to_datetime.
  rewrite Es, Hp, (timedelta_of_whole_seconds _ Hr). unfold datetime_add.
  replace ((0 <=? wall start_dt + n * us_per_second)
           && (wall start_dt + n * us_per_second <=? max_wall))
    with true; [reflexivity |].
  symmetry. apply andb_true_iff. split; apply Z.leb_le; lia.
Qed.

(** Past the last representable instant the call raises. *)
Lemma calculate_end_from_duration_overflow
    (self : metadata) (start duration : string) (start_dt : datetime)
    (secs : pyfloat) (td : Z) :
  _start_time self = Some start -> _duration self = Some duration ->
  parse_iso8601_datetime start = Some start_dt ->
  parse_iso8601_duration duration = Some secs ->
  timedelta_of_seconds secs = Return td ->
  max_wall < wall start_dt + td ->
  calculate_end_from_duration self = (Raise OverflowError, self).
Proof.
  intros Hs Hd Es Ed Htd Hrange.
  unfold calculate_end_from_duration. rewrite Hs, Hd.
  unfold calculate_end_time, add_duration_to_datetime.
  rewrite Es, Ed, Htd. unfold datetime_add.
  replace (wall start_dt + td <=? max_wall) with false
    by (symmetry; apply Z.leb_gt; lia).
  now rewrite andb_false_r.
Qed.

(** A whole number of seconds, as [total_seconds] returns it. *)
Lemma total_seconds_whole (k : Z) :
  - 2 ^ 53 <= k <= 2 ^ 53 ->
  total_seconds (k * us_per_second) = Finite (inject_Z k).
Proof.
  intros Hk. unfold total_seconds.
  rewrite (round64_Qeq _ (inject_Z k)).
  - destruct (Z_lt_le_dec k 0); [apply round64_neg_int | apply round64_int]; lia.
  - unfold Qeq, inject_Z, us_per_second. simpl. lia.
Qed.

(** [calculate_duration] on two instants that are both naive or both
    aware and a whole number [k] of seconds apart: with [k < 0] the call
    returns false and changes nothing; with [k >= 0] it returns true and
    sets the duration to the text of [k] seconds, which parses back to
    [k]. *)
Lemma calculate_duration_whole_seconds
    (self : metadata) (start end_ : string) (start_dt end_dt : datetime)
    (k : Z) :
  _start_time self = Some start -> _end_time self = Some end_ ->
  parse_iso8601_datetime start = Some start_dt ->
  parse_iso8601_datetime end_ = Some end_dt ->
  datetime_sub end_dt start_dt = Return (k * us_per_second) ->
  - 2 ^ 53 <= k <= 2 ^ 53 ->
  (k < 0 -> calculate_duration self = (Return false, self))
  /\ (0 <= k ->
      exists text,
        format_iso8601_duration (PInt k) = Return text
        /\ parse_iso8601_duration text = Some (Finite (inject_Z k))
        /\ calculate_duration self
           = (Return true, with_duration self (Some text))).
Proof.
  intros Hs He Es Ee Hsub Hk.
  unfold calculate_duration. rewrite Hs, He, Es, Ee, Hsub.
  rewrite (total_seconds_whole _ Hk), flt_zero_int.
  split; intros Hsign.
  - now replace (k <? 0) with true by (symmetry; apply Z.ltb_lt; lia).
  - replace (k <? 0) with false by (symmetry; apply Z.ltb_ge; lia).
    destruct (parse_format_int k ltac:(lia)) as (text & Hf & Hp).
    exists text. rewrite format_float_int by lia. rewrite Hf. auto.
Qed.

(** [calculate_duration] on a naive and an aware instant. *)
Lemma calculate_duration_mixed
    (self : metadata) (start end_ : string) (start_dt end_dt : datetime) :
  _start_time self = Some start -> _end_time self = Some end_ ->
  parse_iso8601_datetime start = Some start_dt ->
  parse_iso8601_datetime end_ = Some end_dt ->
  naive start_dt <> naive end_dt ->
  calculate_duration self = (Raise TypeError, self).
Proof.
  intros Hs He Es Ee Hmix. unfold calculate_duration.
  rewrite Hs, He, Es, Ee. unfold datetime_sub. unfold naive in Hmix.
  destruct (tzinfo end_dt) as [oe|], (tzinfo start_dt) as [os|];
    try reflexivity; now destruct Hmix.
Qed.


End WithLibrary.

(** *** On concrete instants, on a machine in the UTC zone *)





(** The instance above, evaluated: the end is half an hour after the
    start. *)
Lemma half_hour_task_end :
  @calculate_end_from_duration utc half_hour_task
  = (Return true,
     mk_metadata (Some "PT30M") (Some "2025-01-01T10:00:00Z")
       (Some "2025-01-01T10:30:00Z")).
Proof. vm_compute. reflexivity. Qed.


(** C5. The statement fails on the code when one instant is naive and the
    other aware: the subtraction raises [TypeError], the call neither sets
    the duration nor returns false.  This happens on two texts the setters
    accept, and on the end time the class itself derives from a naive
    start time. *)
Theorem calculate_duration_raises_on_mixed_instants :
  (exists self : metadata,
     @TemporalMetadata.__init__ utc None (Some (TText "2025-01-01T10:00:00"))
       (Some (TText "2025-01-01T10:30:00Z")) = Return self
     /\ @calculate_duration utc self = (Raise TypeError, self))
  /\ (exists self self' : metadata,
        @TemporalMetadata.__init__ utc (Some (VText "PT30M"))
          (Some (TText "2025-01-01T10:00:00")) None = Return self
        /\ @calculate_end_from_duration utc self = (Return true, self')
        /\ _end_time self' = Some "2025-01-01T10:30:00Z"
        /\ @calculate_duration utc self' = (Raise TypeError, self')).
Proof.
  split.
  - exists (mk_metadata None (Some "2025-01-01T10:00:00")
              (Some "2025-01-01T10:30:00Z")).
    split; vm_compute; reflexivity.
  - exists (mk_metadata (Some "PT30M") (Some "2025-01-01T10:00:00") None),
           (mk_metadata (Some "PT30M") (Some "2025-01-01T10:00:00")
              (Some "2025-01-01T10:30:00Z")).
    repeat split; vm_compute; reflexivity.
Qed.

(** Where both instants are aware the call sets the duration, or returns
    false when the end precedes the start. *)
Lemma calculate_duration_examples :
  @calculate_duration utc
    (mk_metadata None (Some "2025-01-01T10:00:00Z") (Some "2025-01-01T10:30:00Z"))
  = (Return true,
     mk_metadata (Some "PT30M") (Some "2025-01-01T10:00:00Z")
       (Some "2025-01-01T10:30:00Z"))
  /\ @calculate_duration utc
       (mk_metadata (Some "PT5M") (Some "2025-01-01T10:30:00Z")
          (Some "2025-01-01T10:00:00Z"))
     = (Return false,
        mk_metadata (Some "PT5M") (Some "2025-01-01T10:30:00Z")
          (Some "2025-01-01T10:00:00Z")).
Proof. split; vm_compute; reflexivity. Qed.

End MetadataFacts.

(** * Further properties of the network *)

Module STNMore.
Import STN STNFacts.

(** *** The dictionary of constraints *)

Lemma dict_get_dict_set {K V} `{EqDecision K} (k k' : K) (v : V)
    (d : list (K * V)) :
  dict_get k' (dict_set k v d)
  = if decide (k' = k) then Some v else dict_get k' d.
Proof.
  induction d as [|[k0 v0] d IH]; simpl.
  - destruct (decide (k' = k)); reflexivity.
  - destruct (decide (k = k0)) as [-> | Hne]; simpl.
    + destruct (decide (k' = k0)); reflexivity.
    + destruct (decide (k' = k0)) as [-> | Hne'].
      * destruct (decide (k0 = k)); [congruence | reflexivity].
      * exact IH.
Qed.

Lemma elem_of_dict_set {K V} `{EqDecision K} (k : K) (v : V)
    (d : list (K * V)) (e : K * V) :
  e ∈ dict_set k v d -> e = (k, v) \/ e ∈ d.
Proof.
  induction d as [|[k0 v0] d IH]; simpl.
  - intros He. apply list_elem_of_singleton in He. now left.
  - destruct (decide (k = k0)) as [-> | Hne]; intros He;
      apply elem_of_cons in He as [-> | He].
    + now left.
    + right. now right.
    + right. left.
    + destruct (IH He) as [-> | Hin]; [now left |].
      right. now right.
Qed.

Lemma dict_set_keys {K V} `{EqDecision K} (k : K) (v : V)
    (d : list (K * V)) :
  map fst (dict_set k v d)
  = if bool_decide (k ∈ map fst d) then map fst d
    else (map fst d ++ [k])%list.
Proof.
  induction d as [|[k0 v0] d IH]; simpl; [reflexivity |].
  destruct (decide (k = k0)) as [-> | Hne]; simpl.
  - rewrite bool_decide_eq_true_2 by left. reflexivity.
  - rewrite IH. destruct (bool_decide (k ∈ map fst d)) eqn:E.
    + apply bool_decide_eq_true_1 in E.
      rewrite bool_decide_eq_true_2 by now right. reflexivity.
    + apply bool_decide_eq_false_1 in E.
      rewrite bool_decide_eq_false_2; [reflexivity |].
      intros Hin. apply elem_of_cons in Hin as [? | ?]; congruence.
Qed.

Lemma dict_set_NoDup {K V} `{EqDecision K} (k : K) (v : V)
    (d : list (K * V)) :
  NoDup (map fst d) -> NoDup (map fst (dict_set k v d)).
Proof.
  intros Hd. rewrite dict_set_keys.
  destruct (bool_decide (k ∈ map fst d)) eqn:E; [exact Hd |].
  apply bool_decide_eq_false_1 in E.
  apply NoDup_app. split; [exact Hd |]. split.
  - intros x Hx Hx'. apply list_elem_of_singleton in Hx'. congruence.
  - apply NoDup_singleton.
Qed.

Lemma dict_get_is_Some {K V} `{EqDecision K} (k : K) (d : list (K * V)) :
  is_Some (dict_get k d) <-> k ∈ map fst d.
Proof.
  induction d as [|[k0 v0] d IH]; simpl.
  - split; [intros [? [=]] | intros H; inversion H].
  - destruct (decide (k = k0)) as [-> | Hne].
    + split; [left | eauto].
    + rewrite IH. split; [now right |].
      intros H. apply elem_of_cons in H as [? | ?]; congruence.
Qed.

(** *** What the methods make of the contents of an instance *)

Lemma grows_trans X cs X1 cs1 X2 cs2 :
  grows X cs X1 cs1 -> grows X1 cs1 X2 cs2 -> grows X cs X2 cs2.
Proof.
  intros H1 H2. induction H2.
  - exact H1.
  - now apply grows_point.
  - now apply grows_constraint.
Qed.

Lemma grows_add_constraint X cs u v lo hi :
  lo <= hi ->
  grows X cs ({[v]} ∪ ({[u]} ∪ X)) (dict_set (u, v) (lo, hi) cs).
Proof.
  intros Hle. apply grows_constraint; [| exact Hle | set_solver | set_solver].
  apply grows_point, grows_point, grows_same.
Qed.

Lemma grows_well_formed X cs X' cs' :
  grows X cs X' cs' -> well_formed X cs -> well_formed X' cs'.
Proof.
  intros Hg Hw. induction Hg as [| X' cs' p Hg IH | X' cs' u v lo hi Hg IH].
  - exact Hw.
  - destruct IH as [Hnd Hall]. split; [exact Hnd |].
    intros a b l r Hin. destruct (Hall a b l r Hin) as (? & ? & ?).
    repeat split; [assumption | set_solver | set_solver].
  - destruct IH as [Hnd Hall]. split; [now apply dict_set_NoDup |].
    intros a b l r Hin. apply elem_of_dict_set in Hin as [[=] | Hin].
    + subst. auto.
    + now apply Hall.
Qed.

Lemma grows_subseteq X cs X' cs' :
  grows X cs X' cs' ->
  X ⊆ X' /\ forall k, is_Some (dict_get k cs) -> is_Some (dict_get k cs').
Proof.
  intros Hg. induction Hg as [| X' cs' p Hg IH | X' cs' u v lo hi Hg IH].
  - split; [reflexivity | auto].
  - destruct IH as [Hs Hk]. split; [set_solver | exact Hk].
  - destruct IH as [Hs Hk]. split; [exact Hs |].
    intros k Hin. rewrite dict_get_dict_set.
    destruct (decide (k = (u, v))); [eauto | auto].
Qed.

Lemma live_unique h s o X cs o' X' cs' :
  live h s o X cs -> live h s o' X' cs' -> o' = o /\ X' = X /\ cs' = cs.
Proof.
  intros [H1 H2 H3] [K1 K2 K3].
  assert (o' = o) by congruence. subst o'.
  repeat split; congruence.
Qed.

Lemma consistent_step h self :
  heap_ok h -> step true h (snd (consistent self h)).
Proof.
  intros Hok. destruct (stns h !! self) as [o|] eqn:E.
  - destruct (ok_live _ Hok _ _ E) as (X & cs & Hl & Hco).
    destruct (consistent_live _ _ _ _ _ Hl Hco) as (o' & -> & ? & ? & ?).
    simpl. eapply step_upd; eauto using grows_same.
  - unfold consistent. unfold_m. rewrite E. apply step_same.
Qed.

Lemma add_constraint_step h self u v c :
  heap_ok h -> step false h (snd (add_constraint self u v c h)).
Proof.
  intros Hok. destruct (stns h !! self) as [o|] eqn:E.
  - destruct (ok_live _ Hok _ _ E) as (X & cs & Hl & Hco).
    destruct c as [lo hi].
    rewrite (add_constraint_live _ _ _ _ _ _ _ _ _ Hl).
    destruct (hi <? lo) eqn:Hlt; simpl.
    + eapply step_upd; eauto; [| intros [=]].
      apply grows_point, grows_point, grows_same.
    + eapply step_upd; eauto; [| intros [=]].
      apply grows_add_constraint. lia.
  - rewrite add_constraint_dead by exact E. apply step_same.
Qed.

(** Every call is one step of the store. *)
Lemma exec_step c h : heap_ok h -> step (is_query c) h (exec c h).
Proof.
  intros Hok. destruct c; simpl.
  - apply step_init.
  - destruct (stns h !! self) as [o|] eqn:E.
    + destruct (ok_live _ Hok _ _ E) as (X & cs & Hl & Hco).
      rewrite (add_time_point_live _ _ _ _ _ _ Hl). simpl.
      eapply step_upd; eauto; [| intros [=]].
      apply grows_point, grows_same.
    + rewrite add_time_point_dead by exact E. apply step_same.
  - now apply add_constraint_step.
  - now apply add_constraint_step.
  - now apply consistent_step.
  - destruct (stns h !! self) as [o|] eqn:E.
    + destruct (ok_live _ Hok _ _ E) as (X & cs & Hl & Hco).
      destruct (get_distance_live _ _ _ _ _ from_point to_point Hl Hco)
        as (o' & -> & ? & ? & ?).
      eapply step_upd; eauto using grows_same.
    + unfold get_distance. unfold_m. rewrite E. apply step_same.
  - destruct (stns h !! self) as [o|] eqn:E.
    + destruct (ok_live _ Hok _ _ E) as (X & cs & Hl & Hco).
      rewrite (get_intervals_live _ _ _ _ _ Hl). apply step_same.
    + unfold get_intervals. unfold_m. rewrite E. apply step_same.
  - destruct (stns h !! self) as [o|] eqn:E.
    + destruct (ok_live _ Hok _ _ E) as (X & cs & Hl & Hco).
      destruct (check_interval_conflicts_live _ _ _ _ _ start_point end_point
                  min_duration max_duration Hl)
        as (on & o' & Hn & _ & ? & ? & ? & ->).
      destruct (max_duration <? min_duration) eqn:Hlt; simpl.
      * eapply step_extend; eauto.
        apply grows_point, grows_point, grows_same.
      * eapply step_extend; eauto. apply grows_add_constraint. lia.
    + rewrite check_interval_conflicts_dead by exact E. apply step_same.
  - rewrite find_free_slots_snd. now apply consistent_step.
  - destruct (str_snd h self) as [-> | ->];
      [now apply consistent_step | apply step_same].
  - destruct (stns h !! self) as [o|] eqn:E.
    + destruct (ok_live _ Hok _ _ E) as (X & cs & Hl & Hco).
      rewrite (copy_live _ _ _ _ _ Hl). cbn [snd].
      destruct (extend_new h (time_unit o) X cs) as (on & Hn & _).
      cbn zeta in Hn.
      rewrite <- (upd_id _ _ _ _ _ Hn).
      eapply step_extend; eauto using grows_same.
    + rewrite copy_dead by exact E. apply step_same.
Qed.

Lemma step_live q h h' s o X cs :
  heap_ok h -> step q h h' -> live h s o X cs ->
  exists o' X' cs', live h' s o' X' cs' /\ grows X cs X' cs'
    /\ (q = true -> X' = X /\ cs' = cs).
Proof.
  intros Hok Hst Hl. destruct Hst as
    [| self o0 X0 cs0 o' X' cs' Hl0 Et Ec Hg Hq | u
     | self o0 X0 cs0 on o' X' cs' Hl0 Hn Et Ec Hg].
  - exists o, X, cs. split; [exact Hl |]. split; [apply grows_same | auto].
  - destruct (decide (s = self)) as [-> | Hne].
    + destruct (live_unique _ _ _ _ _ _ _ _ Hl0 Hl) as (-> & -> & ->).
      exists o', X', cs'. split; [apply live_upd | auto].
    + exists o, X, cs. split; [| split; [apply grows_same | auto]].
      apply live_upd_other; [| exact Hl].
      destruct (ok_sep _ Hok s self o o0 (live_stn _ _ _ _ _ Hl)
                  (live_stn _ _ _ _ _ Hl0) Hne) as (? & ? & ?).
      repeat split; congruence.
  - exists o, X, cs. split; [| split; [apply grows_same | auto]].
    destruct Hl as [H1 H2 H3]. unfold __init__. unfold_m. split; simpl.
    + rewrite lookup_insert_ne; [exact H1 |].
      apply (fresh_insert_ne _ _ o). now exists o.
    + now apply lookup_insert_fresh.
    + now apply lookup_insert_fresh.
  - exists o, X, cs. split; [| split; [apply grows_same | auto]].
    apply live_upd_other; [| now apply live_extend].
    destruct (extend_new h (time_unit o0) X0 cs0)
      as (on' & Hn' & _ & _ & _ & Hd1 & Hd2 & Hd3).
    cbn zeta in Hn', Hd1, Hd2, Hd3.
    destruct (live_unique _ _ _ _ _ _ _ _ Hn Hn') as (-> & _).
    destruct Hl as [H1 H2 H3]. repeat split; congruence.
Qed.

(** Where the instances of the store after a step come from. *)
Lemma step_inv q h h' s o' X' cs' :
  heap_ok h -> step q h h' -> live h' s o' X' cs' ->
  exists X cs, grows X cs X' cs'
    /\ ((X = ∅ /\ cs = []) \/ exists s0 o0, live h s0 o0 X cs).
Proof.
  intros Hok Hst Hl'.
  destruct (stns h !! s) as [o|] eqn:E.
  { destruct (ok_live _ Hok _ _ E) as (X & cs & Hl & _).
    destruct (step_live _ _ _ _ _ _ _ Hok Hst Hl) as (o2 & X2 & cs2 & Hl2 & Hg & _).
    destruct (live_unique _ _ _ _ _ _ _ _ Hl' Hl2) as (-> & -> & ->).
    exists X, cs. split; [exact Hg |]. right. eauto. }
  destruct Hst as
    [| self o0 X0 cs0 o1 X1 cs1 Hl0 Et Ec Hg Hq | u
     | self o0 X0 cs0 on o1 X1 cs1 Hl0 Hn Et Ec Hg].
  - destruct Hl' as [H1 _ _]. congruence.
  - destruct Hl' as [H1 _ _]. simpl in H1.
    destruct (decide (s = self)) as [-> | Hne].
    + destruct Hl0 as [K1 _ _]. congruence.
    + rewrite lookup_insert_ne in H1 by congruence. congruence.
  - exists ∅, []. split; [| now left].
    destruct Hl' as [H1 H2 H3]. unfold __init__ in *. unfold_m.
    simpl in H1, H2, H3.
    destruct (decide (s = fresh (dom (stns h)))) as [-> | Hne].
    + rewrite lookup_insert_eq in H1. injection H1 as <-. simpl in H2, H3.
      rewrite lookup_insert_eq in H2. rewrite lookup_insert_eq in H3. injection H2 as <-.
      injection H3 as <-. apply grows_same.
    + rewrite lookup_insert_ne in H1 by congruence. congruence.
  - exists X0, cs0. split; [| right; eauto].
    destruct Hl' as [H1 H2 H3]. simpl in H1.
    destruct (decide (s = fresh (dom (stns h)))) as [-> | Hne].
    + rewrite lookup_insert_eq in H1. injection H1 as <-.
      simpl in H2, H3. rewrite lookup_insert_eq in H2.
      rewrite lookup_insert_eq in H3.
      injection H2 as <-. injection H3 as <-. exact Hg.
    + rewrite lookup_insert_ne in H1 by congruence.
      rewrite lookup_insert_ne in H1 by congruence. congruence.
Qed.

(** The contents of every instance of a client's store have been built
    from the empty network. *)
Lemma reachable_built calls : forall h,
  heap_ok h -> holds_everywhere (grows ∅ []) h ->
  holds_everywhere (grows ∅ []) (exec_all calls h).
Proof.
  induction calls as [|c calls IH]; intros h Hok Hall; [exact Hall |].
  simpl. apply IH; [now apply exec_ok |].
  intros s o' X' cs' Hl'.
  destruct (step_inv _ _ _ _ _ _ _ Hok (exec_step c h Hok) Hl')
    as (X & cs & Hg & [[-> ->] | (s0 & o0 & Hl0)]); [exact Hg |].
  eapply grows_trans; [| exact Hg]. eapply Hall, Hl0.
Qed.

Lemma empty_built : holds_everywhere (grows ∅ []) empty_heap.
Proof. intros s o X cs [H1 _ _]. simpl in H1. now rewrite lookup_empty in H1. Qed.

Lemma well_formed_empty : well_formed ∅ [].
Proof.
  split; [constructor |]. intros u v lo hi H. inversion H.
Qed.

Lemma reachable_well_formed calls self X cs :
  points_of (exec_all calls empty_heap) self = Some X ->
  constraints_of (exec_all calls empty_heap) self = Some cs ->
  well_formed X cs.
Proof.
  intros HX Hcs. destruct (views_live _ _ _ _ HX Hcs) as (o & Hl).
  eapply grows_well_formed; [| apply well_formed_empty].
  eapply (reachable_built calls empty_heap empty_heap_ok empty_built), Hl.
Qed.

(** *** Entries of the distance matrix only go down *)

Lemma dle_refl a : dle a a.
Proof. destruct a; simpl; [lia | exact I]. Qed.

Lemma dle_trans a b c : dle a b -> dle b c -> dle a c.
Proof. destruct a, b, c; simpl; try tauto; lia. Qed.

Lemma dgt_true a b : dgt a b = true -> dle b a.
Proof. destruct a, b; simpl; try discriminate; try tauto; lia. Qed.

Lemma dgt_false a b : dgt a b = false -> dle a b.
Proof. destruct a, b; simpl; try discriminate; try tauto; lia. Qed.

Lemma dget_insert (d : matrix) a b x i j :
  dget (<[(a, b) := x]> d) i j
  = if decide ((i, j) = (a, b)) then x else dget d i j.
Proof.
  unfold dget. destruct (decide ((i, j) = (a, b))) as [-> | Hne].
  - now rewrite lookup_insert_eq.
  - now rewrite lookup_insert_ne by congruence.
Qed.

(** [if dist[a][b] > x: dist[a][b] = x], the assignment all three loops
    of [_build_distance_matrix] make. *)
Lemma lower_le (d : matrix) a b x :
  let d' := if dgt (dget d a b) x then <[(a, b) := x]> d else d in
  (forall i j, dle (dget d' i j) (dget d i j)) /\ dle (dget d' a b) x.
Proof.
  cbn zeta. destruct (dgt (dget d a b) x) eqn:E.
  - split.
    + intros i j. rewrite dget_insert.
      destruct (decide ((i, j) = (a, b))) as [[= -> ->] | _];
        [now apply dgt_true | apply dle_refl].
    + rewrite dget_insert. rewrite decide_True by reflexivity. apply dle_refl.
  - split; [intros; apply dle_refl | now apply dgt_false].
Qed.

Lemma mle_refl d : mle d d.
Proof. intros i j. apply dle_refl. Qed.

Lemma mle_trans d1 d2 d3 : mle d1 d2 -> mle d2 d3 -> mle d1 d3.
Proof. intros H1 H2 i j. eapply dle_trans; [apply H1 | apply H2]. Qed.

Lemma foldl_mle {A} (f : matrix -> A -> matrix) (l : list A) :
  (forall d x, mle (f d x) d) -> forall d, mle (foldl f d l) d.
Proof.
  intros Hf. induction l as [|x l IH]; intros d; simpl; [apply mle_refl |].
  eapply mle_trans; [apply IH | apply Hf].
Qed.

Lemma add_edge_le d u v lo hi :
  mle (add_edge d ((u, v), (lo, hi))) d
  /\ dle (dget (add_edge d ((u, v), (lo, hi))) u v) (Fin hi)
  /\ dle (dget (add_edge d ((u, v), (lo, hi))) v u) (Fin (- lo)).
Proof.
  unfold add_edge.
  destruct (lower_le d u v (Fin hi)) as [H1 H2]. cbn zeta in H1, H2.
  set (d1 := if dgt (dget d u v) (Fin hi) then _ else _) in *.
  destruct (lower_le d1 v u (Fin (- lo))) as [H3 H4]. cbn zeta in H3, H4.
  set (d2 := if dgt (dget d1 v u) (Fin (- lo)) then _ else _) in *.
  split; [| split].
  - intros i j. eapply dle_trans; [apply H3 | apply H1].
  - eapply dle_trans; [apply H3 | exact H2].
  - exact H4.
Qed.

Lemma add_edges_le cs : forall d, mle (add_edges cs d) d.
Proof.
  unfold add_edges. apply foldl_mle. intros d [[u v] [lo hi]].
  apply add_edge_le.
Qed.


Lemma relax_le k i j d : mle (relax k i j d) d.
Proof.
  unfold relax. destruct (dget d i k) as [ik|]; [| apply mle_refl].
  destruct (dget d k j) as [kj|]; [| apply mle_refl].
  exact (proj1 (lower_le d i j (Fin (ik + kj)))).
Qed.

Lemma floyd_warshall_le points d : mle (floyd_warshall points d) d.
Proof.
  unfold floyd_warshall. revert d.
  apply foldl_mle. intros d k. revert d.
  apply foldl_mle. intros d i. revert d.
  apply foldl_mle. intros d j. apply relax_le.
Qed.

Lemma init_diagonal_lookup points : forall (m : matrix) i j,
  foldl (fun dist point => <[(point, point) := Fin 0]> dist) m points
    !! (i, j)
  = if bool_decide (i = j /\ i ∈ points) then Some (Fin 0) else m !! (i, j).
Proof.
  induction points as [|p points IH]; intros m i j; simpl.
  - rewrite bool_decide_eq_false_2; [reflexivity |].
    intros [_ H]. inversion H.
  - rewrite IH. destruct (bool_decide (i = j /\ i ∈ points)) eqn:E.
    + apply bool_decide_eq_true_1 in E as [-> Hin].
      rewrite bool_decide_eq_true_2; [reflexivity |]. split; [auto | now right].
    + apply bool_decide_eq_false_1 in E.
      destruct (decide ((i, j) = (p, p))) as [[= -> ->] | Hne].
      * rewrite lookup_insert_eq.
        rewrite bool_decide_eq_true_2; [reflexivity |]. split; [auto | left].
      * rewrite lookup_insert_ne by congruence.
        rewrite bool_decide_eq_false_2; [reflexivity |].
        intros [-> Hin]. apply elem_of_cons in Hin as [-> | Hin];
          [congruence | tauto].
Qed.

Lemma dget_init_diagonal points i j :
  dget (init_diagonal points) i j
  = if bool_decide (i = j /\ i ∈ points) then Fin 0 else Inf.
Proof.
  unfold dget, init_diagonal. rewrite init_diagonal_lookup.
  destruct (bool_decide _); [reflexivity |]. now rewrite lookup_empty.
Qed.


Lemma closure_diagonal points cs p :
  p ∈ points -> dle (dget (closure points cs) p p) (Fin 0).
Proof.
  intros Hin. unfold closure.
  eapply dle_trans; [apply floyd_warshall_le |].
  eapply dle_trans; [apply add_edges_le |].
  rewrite dget_init_diagonal, bool_decide_eq_true_2 by auto. apply dle_refl.
Qed.

Lemma foldl_fixed {A B} (f : A -> B -> A) (a : A) (l : list B) :
  (forall x, f a x = a) -> foldl f a l = a.
Proof.
  intros Hf. induction l as [|x l IH]; simpl; [reflexivity |].
  now rewrite Hf.
Qed.

(** Without constraints the loops leave the matrix as it was
    initialized. *)
Lemma closure_no_constraints points :
  closure points [] = init_diagonal points.
Proof.
  unfold closure, add_edges, floyd_warshall. simpl.
  apply foldl_fixed. intros k. apply foldl_fixed. intros i.
  apply foldl_fixed. intros j. unfold relax.
  rewrite !dget_init_diagonal.
  destruct (bool_decide (i = k /\ i ∈ points)) eqn:E1; [| reflexivity].
  destruct (bool_decide (k = j /\ k ∈ points)) eqn:E2; [| reflexivity].
  apply bool_decide_eq_true_1 in E1 as [-> _].
  apply bool_decide_eq_true_1 in E2 as [-> Hin].
  rewrite bool_decide_eq_true_2 by auto. reflexivity.
Qed.

(** *** Answers of the queries *)

Lemma build_matrix_lookup (X : gset string) (cs : cdict) u v :
  u ∈ X -> v ∈ X ->
  build_matrix (elements X) cs !! (u, v)
  = Some (dget (closure (elements X) cs) u v).
Proof.
  intros Hu Hv. apply elem_of_elements in Hu, Hv. unfold build_matrix.
  destruct (elements X) as [|q l] eqn:E; [inversion Hu |].
  now apply to_plain_dict_lookup.
Qed.

Lemma get_distance_fst h self o X cs u v :
  live h self o X cs -> coherent o X cs -> u ∈ X -> v ∈ X ->
  fst (get_distance self u v h) =
  Return (match dget (closure (elements X) cs) u v with
          | Fin z => Some z
          | Inf => None
          end).
Proof.
  intros Hl Hco Hu Hv. pose proof Hl as [H1 H2 H3].
  unfold get_distance. unfold bind at 1. unfold read_stn at 1. rewrite H1.
  unfold bind at 1. unfold read_set at 1. rewrite H2.
  rewrite !bool_decide_eq_true_2 by assumption. cbn [negb orb].
  set (o1 := mk_stn (time_points o) (constraints o)
               (Some (build_matrix (elements X) cs)) (_consistent o)
               (time_unit o)).
  assert (Hstep :
    (match _distance_matrix o with
     | None => _build_distance_matrix self
     | Some _ => ret tt
     end) h = (Return tt, upd h self o1 X cs)).
  { destruct (_distance_matrix o) as [m|] eqn:Em.
    - unfold ret. f_equal. rewrite <- (upd_id _ _ _ _ _ Hl) at 1.
      f_equal. pose proof (proj1 Hco m Em) as Hm.
      destruct o; simpl in *. subst o1; simpl. now rewrite Em, Hm.
    - now rewrite (build_live _ _ _ _ _ Hl). }
  unfold bind at 1. rewrite Hstep.
  unfold_m. simpl. rewrite lookup_insert_eq. simpl.
  rewrite build_matrix_lookup by assumption. simpl.
  now destruct (dget _ u v).
Qed.


(** The instances of a client's store. *)
Lemma reachable_live calls self o :
  stns (exec_all calls empty_heap) !! self = Some o ->
  exists X cs,
    live (exec_all calls empty_heap) self o X cs /\ coherent o X cs
    /\ well_formed X cs.
Proof.
  intros Ho.
  pose proof (exec_all_ok calls _ empty_heap_ok) as Hok.
  destruct (ok_live _ Hok _ _ Ho) as (X & cs & Hl & Hco).
  exists X, cs. split; [exact Hl |]. split; [exact Hco |].
  destruct (live_views _ _ _ _ _ Hl). eapply reachable_well_formed; eauto.
Qed.

Lemma get_intervals_inv h self l :
  fst (get_intervals self h) = Return l ->
  exists o cs, stns h !! self = Some o /\ dicts h !! constraints o = Some cs
    /\ l = map (fun '((u, v), (lo, hi)) => (u, v, lo, hi)) cs.
Proof.
  unfold get_intervals. unfold_m.
  destruct (stns h !! self) as [o|]; [| intros [=]].
  destruct (dicts h !! constraints o) as [cs|] eqn:E; [| intros [=]].
  simpl. intros [= <-]. exists o, cs. auto.
Qed.


Lemma points_of_inv h self X :
  points_of h self = Some X -> exists o, stns h !! self = Some o.
Proof.
  unfold points_of. destruct (stns h !! self) as [o|]; [eauto | intros [=]].
Qed.





(** X3.  In every network a client can build, [consistent()] returns
    true exactly when [get_distance(p, p)] is 0 for every time point
    [p]. *)
Theorem consistent_iff_self_distances_zero
    (calls : list call) (self : addr) (X : gset string) :
  let h := exec_all calls empty_heap in
  points_of h self = Some X ->
  fst (consistent self h) = Return true
  <-> forall p, p ∈ X -> fst (get_distance self p p h) = Return (Some 0).
Proof.
  intros h HX. destruct (points_of_inv _ _ _ HX) as (o & Ho).
  destruct (reachable_live calls self o Ho) as (X' & cs & Hlive & Hco & _).
  fold h in Hlive. destruct (live_views _ _ _ _ _ Hlive) as [HX' _].
  assert (X' = X) by congruence. subst X'.
  destruct (consistent_live _ _ _ _ _ Hlive Hco) as (o' & -> & _).
  cbn [fst].
  assert (Hd : forall p, p ∈ X ->
            dnonneg (dget (closure (elements X) cs) p p)
            <-> fst (get_distance self p p h) = Return (Some 0)).
  { intros p Hp. rewrite (get_distance_fst _ _ _ _ _ p p Hlive Hco Hp Hp).
    pose proof (closure_diagonal (elements X) cs p
                  (proj2 (elem_of_elements X p) Hp)) as Hle.
    destruct (dget (closure (elements X) cs) p p) as [z|]; [| destruct Hle].
    simpl in *. split.
    - intros Hz. do 2 f_equal. lia.
    - intros [= ->]. lia. }
  split.
  - intros [= Hv]. intros p Hp. apply Hd; [exact Hp |].
    now apply verdict_true.
  - intros Hall. f_equal. apply verdict_true. intros p Hp.
    apply Hd; auto.
Qed.

Lemma consistent_iff_self_distances_zero_witness :
  fst (consistent 0%nat sample_heap) = Return true
  <-> forall p, p ∈ ({["a"; "b"]} : gset string) ->
        fst (get_distance 0%nat p p sample_heap) = Return (Some 0).
Proof.
  apply (consistent_iff_self_distances_zero
           [New "second"; AddConstraint 0%nat "a" "b" (10, 15)] 0%nat).
  exact sample_points.
Defined.

(** X4.  A network without constraints is consistent, whatever its
    time points. *)
Theorem no_constraints_consistent (calls : list call) (self : addr) :
  let h := exec_all calls empty_heap in
  fst (get_intervals self h) = Return [] ->
  fst (consistent self h) = Return true.
Proof.
  intros h Hl.
  destruct (get_intervals_inv _ _ _ Hl) as (o & cs & Ho & Hcs & Hmap).
  symmetry in Hmap. apply map_eq_nil in Hmap. subst cs.
  destruct (reachable_live calls self o Ho) as (X & cs' & Hlive & Hco & _).
  fold h in Hlive.
  assert (cs' = []) by (destruct Hlive; congruence). subst cs'.
  destruct (consistent_live _ _ _ _ _ Hlive Hco) as (o' & -> & _).
  cbn [fst]. f_equal. apply verdict_true. intros p Hp.
  rewrite closure_no_constraints, dget_init_diagonal.
  rewrite bool_decide_eq_true_2; [simpl; lia |].
  split; [reflexivity | now apply elem_of_elements].
Qed.

Lemma no_constraints_consistent_witness :
  fst (consistent 0%nat
         (exec_all [New "second"; AddTimePoint 0%nat "a";
                    AddTimePoint 0%nat "b"] empty_heap)) = Return true.
Proof.
  apply (no_constraints_consistent
           [New "second"; AddTimePoint 0%nat "a"; AddTimePoint 0%nat "b"]
           0%nat).
  reflexivity.
Defined.

Lemma live_coherent h s o X cs :
  heap_ok h -> live h s o X cs -> coherent o X cs.
Proof.
  intros Hok Hl.
  destruct (ok_live _ Hok _ _ (live_stn _ _ _ _ _ Hl)) as (X' & cs' & Hl' & Hco).
  destruct (live_unique _ _ _ _ _ _ _ _ Hl Hl') as (_ & -> & ->). exact Hco.
Qed.

Lemma consistent_verdict h s o X cs :
  heap_ok h -> live h s o X cs ->
  fst (consistent s h) = Return (verdict X cs).
Proof.
  intros Hok Hl.
  destruct (consistent_live _ _ _ _ _ Hl (live_coherent _ _ _ _ _ Hok Hl))
    as (o' & -> & _).
  reflexivity.
Qed.

(** X5.  A call other than [add_time_point], [add_constraint] and
    [add_interval], on any instance and whether it returns or raises,
    leaves the time points, the constraints, the intervals and the
    verdict of every instance of the store as they were. *)
Theorem queries_change_nothing
    (calls : list call) (c : call) (s : addr) (X : gset string) (cs : cdict) :
  let h := exec_all calls empty_heap in
  is_query c = true ->
  points_of h s = Some X -> constraints_of h s = Some cs ->
  points_of (exec c h) s = Some X
  /\ constraints_of (exec c h) s = Some cs
  /\ fst (get_intervals s (exec c h)) = fst (get_intervals s h)
  /\ fst (consistent s (exec c h)) = fst (consistent s h).
Proof.
  intros h Hq HX Hcs. destruct (views_live _ _ _ _ HX Hcs) as (o & Hl).
  pose proof (exec_all_ok calls _ empty_heap_ok) as Hok. fold h in Hok.
  pose proof (exec_step c h Hok) as Hst. rewrite Hq in Hst.
  destruct (step_live _ _ _ _ _ _ _ Hok Hst Hl)
    as (o' & X' & cs' & Hl' & _ & Hsame).
  destruct (Hsame eq_refl) as [-> ->].
  destruct (live_views _ _ _ _ _ Hl') as [-> ->].
  split; [reflexivity |]. split; [reflexivity |].
  rewrite (get_intervals_live _ _ _ _ _ Hl), (get_intervals_live _ _ _ _ _ Hl').
  split; [reflexivity |].
  rewrite (consistent_verdict _ _ _ _ _ Hok Hl).
  now rewrite (consistent_verdict _ _ _ _ _ (exec_ok c h Hok) Hl').
Qed.

Lemma queries_change_nothing_witness :
  let c := CheckIntervalConflicts 0%nat "b" "a" 0 5 in
  points_of (exec c sample_heap) 0%nat = Some {["a"; "b"]}
  /\ constraints_of (exec c sample_heap) 0%nat = Some [(("a", "b"), (10, 15))]
  /\ fst (get_intervals 0%nat (exec c sample_heap))
     = fst (get_intervals 0%nat sample_heap)
  /\ fst (consistent 0%nat (exec c sample_heap))
     = fst (consistent 0%nat sample_heap).
Proof.
  apply (queries_change_nothing
           [New "second"; AddConstraint 0%nat "a" "b" (10, 15)]
           (CheckIntervalConflicts 0%nat "b" "a" 0 5) 0%nat).
  - reflexivity.
  - exact sample_points.
  - exact sample_constraints.
Defined.

Lemma exec_all_grows calls : forall h s o X cs,
  heap_ok h -> live h s o X cs ->
  exists o' X' cs', live (exec_all calls h) s o' X' cs' /\ grows X cs X' cs'.
Proof.
  induction calls as [|c calls IH]; intros h s o X cs Hok Hl; simpl.
  - exists o, X, cs. split; [exact Hl | apply grows_same].
  - destruct (step_live _ _ _ _ _ _ _ Hok (exec_step c h Hok) Hl)
      as (o1 & X1 & cs1 & Hl1 & Hg1 & _).
    destruct (IH _ _ _ _ _ (exec_ok c h Hok) Hl1) as (o2 & X2 & cs2 & Hl2 & Hg2).
    exists o2, X2, cs2. split; [exact Hl2 |]. eapply grows_trans; eauto.
Qed.

(** X6.  Nothing is ever removed: whatever calls a client makes next,
    every time point of an instance is still one of its time points, and
    every pair of points that has a constraint still has one. *)
Theorem calls_never_remove
    (before after : list call) (s : addr) (X : gset string) (cs : cdict) :
  let h := exec_all before empty_heap in
  points_of h s = Some X -> constraints_of h s = Some cs ->
  exists X' cs',
    points_of (exec_all after h) s = Some X'
    /\ constraints_of (exec_all after h) s = Some cs'
    /\ X ⊆ X'
    /\ forall u v, is_Some (dict_get (u, v) cs) -> is_Some (dict_get (u, v) cs').
Proof.
  intros h HX Hcs. destruct (views_live _ _ _ _ HX Hcs) as (o & Hl).
  pose proof (exec_all_ok before _ empty_heap_ok) as Hok. fold h in Hok.
  destruct (exec_all_grows after _ _ _ _ _ Hok Hl) as (o' & X' & cs' & Hl' & Hg).
  exists X', cs'. destruct (live_views _ _ _ _ _ Hl') as [-> ->].
  split; [reflexivity |]. split; [reflexivity |].
  destruct (grows_subseteq _ _ _ _ Hg) as [Hs Hk]. split; [exact Hs |].
  intros u v. apply Hk.
Qed.

Lemma calls_never_remove_witness :
  exists X' cs',
    points_of (exec_all [AddConstraint 0%nat "a" "b" (7, 3); Copy 0%nat;
                         AddConstraint 0%nat "b" "c" (1, 2)] sample_heap)
      0%nat = Some X'
    /\ constraints_of
         (exec_all [AddConstraint 0%nat "a" "b" (7, 3); Copy 0%nat;
                    AddConstraint 0%nat "b" "c" (1, 2)] sample_heap)
         0%nat = Some cs'
    /\ ({["a"; "b"]} : gset string) ⊆ X'
    /\ forall u v, is_Some (dict_get (u, v) [(("a", "b"), (10, 15))]) ->
                   is_Some (dict_get (u, v) cs').
Proof.
  apply (calls_never_remove
           [New "second"; AddConstraint 0%nat "a" "b" (10, 15)]
           [AddConstraint 0%nat "a" "b" (7, 3); Copy 0%nat;
            AddConstraint 0%nat "b" "c" (1, 2)] 0%nat).
  - exact sample_points.
  - exact sample_constraints.
Defined.

(** X7.  [add_constraint(u, v, (lo, hi))] with [lo <= hi] returns,
    makes [u] and [v] time points, records [(lo, hi)] for the pair
    [(u, v)] and leaves the constraint of every other pair as it was; the
    number of constraints grows by one when the pair had none and stays
    the same when it had one. *)
Theorem add_constraint_then_lookup
    (h : heap) (self : addr) (X : gset string) (cs : cdict)
    (u v : string) (lo hi : Z) :
  points_of h self = Some X -> constraints_of h self = Some cs ->
  lo <= hi ->
  exists cs',
    fst (add_constraint self u v (lo, hi) h) = Return tt
    /\ points_of (snd (add_constraint self u v (lo, hi) h)) self
       = Some ({[v]} ∪ ({[u]} ∪ X))
    /\ constraints_of (snd (add_constraint self u v (lo, hi) h)) self
       = Some cs'
    /\ dict_get (u, v) cs' = Some (lo, hi)
    /\ (forall k, k <> (u, v) -> dict_get k cs' = dict_get k cs)
    /\ length cs' = match dict_get (u, v) cs with
                    | Some _ => length cs
                    | None => S (length cs)
                    end.
Proof.
  intros HX Hcs Hle. destruct (views_live _ _ _ _ HX Hcs) as (o & Hl).
  exists (dict_set (u, v) (lo, hi) cs).
  rewrite (add_constraint_live _ _ _ _ _ u v lo hi Hl).
  replace (hi <? lo) with false by (symmetry; apply Z.ltb_ge; lia).
  cbn [fst snd]. split; [reflexivity |].
  destruct (live_views _ _ _ _ _
              (live_upd h self (invalidated o) ({[v]} ∪ ({[u]} ∪ X))
                 (dict_set (u, v) (lo, hi) cs))) as [-> ->].
  split; [reflexivity |]. split; [reflexivity |].
  split; [| split].
  - rewrite dict_get_dict_set. now rewrite decide_True.
  - intros k Hk. rewrite dict_get_dict_set. now rewrite decide_False.
  - rewrite <- (length_map fst (dict_set _ _ _)), dict_set_keys.
    destruct (dict_get (u, v) cs) as [c|] eqn:E.
    + rewrite bool_decide_eq_true_2, length_map; [reflexivity |].
      apply dict_get_is_Some. eauto.
    + rewrite bool_decide_eq_false_2.
      * rewrite length_app, length_map. simpl. lia.
      * intros Hin. apply dict_get_is_Some in Hin. rewrite E in Hin.
        destruct Hin as [? [=]].
Qed.

Lemma add_constraint_then_lookup_witness :
  exists cs',
    fst (add_constraint 0%nat "a" "b" (3, 4) sample_heap) = Return tt
    /\ points_of (snd (add_constraint 0%nat "a" "b" (3, 4) sample_heap)) 0%nat
       = Some ({["b"]} ∪ ({["a"]} ∪ {["a"; "b"]}))
    /\ constraints_of (snd (add_constraint 0%nat "a" "b" (3, 4) sample_heap))
         0%nat = Some cs'
    /\ dict_get ("a", "b") cs' = Some (3, 4)
    /\ (forall k, k <> ("a", "b") ->
          dict_get k cs' = dict_get k [(("a", "b"), (10, 15))])
    /\ length cs'
       = match dict_get ("a", "b") [(("a", "b"), (10, 15))] with
         | Some _ => length [(("a", "b"), (10, 15))]
         | None => S (length [(("a", "b"), (10, 15))])
         end.
Proof.
  apply (add_constraint_then_lookup sample_heap 0%nat {["a"; "b"]}
           [(("a", "b"), (10, 15))] "a" "b" 3 4).
  - exact sample_points.
  - exact sample_constraints.
  - lia.
Defined.

(** X8.  [check_interval_conflicts] with a minimum above the maximum
    raises [ValueError], and the time points, the constraints, the
    intervals and the verdict of the receiver are as before the call. *)
Theorem check_interval_conflicts_bad_bounds
    (h : heap) (self : addr) (X : gset string) (cs : cdict)
    (u v : string) (lo hi : Z) :
  points_of h self = Some X -> constraints_of h self = Some cs ->
  hi < lo ->
  let r := check_interval_conflicts self u v lo hi h in
  fst r = Raise ValueError
  /\ points_of (snd r) self = Some X
  /\ constraints_of (snd r) self = Some cs
  /\ fst (get_intervals self (snd r)) = fst (get_intervals self h)
  /\ fst (consistent self (snd r)) = fst (consistent self h).
Proof.
  intros HX Hcs Hlt r. destruct (views_live _ _ _ _ HX Hcs) as (o & Hl).
  destruct (check_interval_conflicts_live h self o X cs u v lo hi Hl)
    as (on & o' & Hn & Hsep & Et & Ec & Hco & Hr).
  fold r in Hr.
  replace (hi <? lo) with true in Hr by (symmetry; apply Z.ltb_lt; lia).
  rewrite Hr. cbn [fst snd]. split; [reflexivity |].
  assert (Hl' : live
            (upd (snd (extend h (time_unit o) X cs))
               (fst (extend h (time_unit o) X cs)) (invalidated on)
               ({[v]} ∪ ({[u]} ∪ X)) cs)
            self o X cs).
  { apply live_upd_other; [| now apply live_extend].
    destruct Hsep as (S1 & S2 & S3).
    split; [exact S1 |]. split; [exact S2 | exact S3]. }
  destruct (same_views _ _ _ _ _ _ Hl Hl') as (E1 & E2 & E3 & E4).
  rewrite E1, E2. auto.
Qed.

Lemma check_interval_conflicts_bad_bounds_witness :
  let r := check_interval_conflicts 0%nat "a" "c" 9 1 sample_heap in
  fst r = Raise ValueError
  /\ points_of (snd r) 0%nat = Some {["a"; "b"]}
  /\ constraints_of (snd r) 0%nat = Some [(("a", "b"), (10, 15))]
  /\ fst (get_intervals 0%nat (snd r)) = fst (get_intervals 0%nat sample_heap)
  /\ fst (consistent 0%nat (snd r)) = fst (consistent 0%nat sample_heap).
Proof.
  apply (check_interval_conflicts_bad_bounds sample_heap 0%nat {["a"; "b"]}
           [(("a", "b"), (10, 15))] "a" "c" 9 1).
  - exact sample_points.
  - exact sample_constraints.
  - lia.
Defined.



(** X10.  After [c = s.copy()], any sequence of calls of
    [add_time_point] and [add_constraint] on the original [s] (raising or
    not) leaves the time points, the constraints, the intervals and the
    verdict of the copy [c] as they were. *)
Theorem original_mutations_leave_copy
    (h : heap) (s : addr) (X : gset string) (cs : cdict)
    (ms : list mutation) :
  points_of h s = Some X -> constraints_of h s = Some cs ->
  exists c h1,
    copy s h = (Return c, h1)
    /\ let h2 := foldl (fun h m => mutate s m h) h1 ms in
       points_of h2 c = Some X
       /\ constraints_of h2 c = Some cs
       /\ fst (get_intervals c h2) = fst (get_intervals c h1)
       /\ fst (consistent c h2) = fst (consistent c h1).
Proof.
  intros HX Hcs. destruct (views_live _ _ _ _ HX Hcs) as (o & Hl).
  destruct (copy_spec _ _ _ _ _ Hl) as (c & h1 & oc & Hcopy & Hc & Hs & Hsep).
  exists c, h1. split; [exact Hcopy |]. intros h2.
  pose proof (mutations_frame ms _ _ _ _ _ _ _ _ _ Hs Hc
                (separate_sym _ _ _ _ Hsep)) as Hc2.
  fold h2 in Hc2.
  destruct (same_views _ _ _ _ _ _ Hc Hc2) as (E1 & E2 & E3 & E4).
  destruct (live_views _ _ _ _ _ Hc) as [F1 F2].
  rewrite E1, E2. auto.
Qed.

Lemma original_mutations_leave_copy_witness :
  exists c h1,
    copy 0%nat sample_heap = (Return c, h1)
    /\ let h2 := foldl (fun h m => mutate 0%nat m h) h1
                   [MAddTimePoint "z"; MAddConstraint "b" "a" (0, 5);
                    MAddConstraint "a" "z" (9, 1)] in
       points_of h2 c = Some {["a"; "b"]}
       /\ constraints_of h2 c = Some [(("a", "b"), (10, 15))]
       /\ fst (get_intervals c h2) = fst (get_intervals c h1)
       /\ fst (consistent c h2) = fst (consistent c h1).
Proof.
  apply (original_mutations_leave_copy sample_heap 0%nat {["a"; "b"]}
           [(("a", "b"), (10, 15))]).
  - exact sample_points.
  - exact sample_constraints.
Defined.

End STNMore.

(** * Further properties of durations *)

Module DurationMore.
Import Py PyFloat Duration DurationFacts.

(** *** Signs *)

Lemma round_half_even_nonneg (n d : Z) :
  0 <= n -> 0 < d -> 0 <= round_half_even n d.
Proof.
  intros Hn Hd. unfold round_half_even.
  pose proof (Z.div_pos n d Hn Hd).
  destruct (2 * (n mod d) ?= d); [destruct (Z.even (n / d)) | |]; lia.
Qed.

Lemma pow2_nonneg (e : Z) : (0 <= pow2 e)%Q.
Proof.
  unfold pow2. destruct (0 <=? e) eqn:E.
  - unfold Qle, inject_Z; simpl. pose proof (Z.pow_nonneg 2 e). lia.
  - assert (H : 0 < 2 ^ (- e)) by (apply Z.pow_pos_nonneg; lia).
    destruct (2 ^ (- e)) as [|p|p]; try lia.
    unfold Qdiv, Qmult, Qinv, Qle, inject_Z; simpl. lia.
Qed.

Lemma round64_pos_nonneg (a : Q) :
  0 <= Qnum a -> nonneg_float (round64_pos a).
Proof.
  intros Ha. unfold round64_pos.
  set (qe := Z.max (ilog2 a - 52) (- 1074)).
  destruct (div_pow2 a qe) as [n d] eqn:E.
  assert (Hnd : 0 <= n /\ 0 < d).
  { unfold div_pow2 in E. destruct (0 <=? qe) eqn:Hq; injection E as <- <-.
    - split; [exact Ha |]. apply Z.leb_le in Hq.
      pose proof (Z.pow_pos_nonneg 2 qe). lia.
    - split; [| lia]. apply Z.leb_gt in Hq.
      pose proof (Z.pow_pos_nonneg 2 (- qe)). nia. }
  destruct Hnd as [Hn Hd].
  pose proof (round_half_even_nonneg n d Hn Hd) as Hm.
  destruct ((0 <? round_half_even n d) && _); simpl; [exact I |].
  rewrite Qred_correct.
  apply Qmult_le_0_compat; [| apply pow2_nonneg].
  unfold Qle, inject_Z; simpl. lia.
Qed.

Lemma round64_nonneg (q : Q) : (0 <= q)%Q -> nonneg_float (round64 q).
Proof.
  intros Hq. unfold round64.
  assert (H : 0 <= Qnum (Qred q)).
  { rewrite <- (Qred_correct q) in Hq. unfold Qle in Hq. simpl in Hq. lia. }
  destruct (Qnum (Qred q)) as [|p|p] eqn:E.
  - simpl. apply Qle_refl.
  - apply round64_pos_nonneg. lia.
  - lia.
Qed.

Lemma fadd_nonneg (x y : pyfloat) :
  nonneg_float x -> nonneg_float y -> nonneg_float (fadd x y).
Proof.
  destruct x as [a| | |], y as [b| | |]; simpl; try tauto.
  intros Ha Hb. apply round64_nonneg.
  rewrite <- (Qplus_0_l 0). now apply Qplus_le_compat.
Qed.

Lemma fmul_nonneg (x : pyfloat) (w : Z) :
  0 < w <= 2 ^ 53 -> nonneg_float x -> nonneg_float (fmul x (of_Z w)).
Proof.
  intros Hw Hx. unfold of_Z. rewrite round64_int by lia.
  destruct x as [a| | |]; simpl in *; try tauto.
  - apply round64_nonneg. apply Qmult_le_0_compat; [exact Hx |].
    unfold Qle, inject_Z; simpl. lia.
  - destruct w; try lia. exact I.
Qed.

Lemma span_digits_value (s : string) : forall acc,
  0 <= acc -> 0 <= digits_value (fst (span_digits s)) acc.
Proof.
  induction s as [|c r IH]; intros acc Hacc; simpl; [exact Hacc |].
  destruct (is_digit c) eqn:E; simpl; [| exact Hacc].
  destruct (span_digits r) as [ds rest]; simpl in *.
  apply IH. unfold is_digit in E. apply andb_prop in E as [E1 E2].
  apply N.leb_le in E1. lia.
Qed.

Lemma match_number_nonneg (s : string) (t : number_text) (r : string) :
  match_number s = Some (t, r) -> nonneg_float (float_of_number t).
Proof.
  unfold match_number.
  pose proof (span_digits_value s 0 (Z.le_refl 0)) as Hint.
  destruct (span_digits s) as [ds rest]; cbn [fst] in Hint.
  destruct ds as [|c ds]; [intros [=] |].
  assert (Hplain : nonneg_float
            (float_of_number (mk_number (String c ds) None))).
  { unfold float_of_number; simpl frac_digits; cbv iota.
    apply round64_nonneg. unfold Qle, inject_Z.
    cbn [Qnum Qden int_digits]. lia. }
  destruct rest as [|c0 rest']; [intros [= <- <-]; exact Hplain |].
  destruct (Ascii.eqb c0 ".") eqn:Edot.
  - apply Ascii.eqb_eq in Edot. subst c0.
    pose proof (span_digits_value rest' _ Hint) as Hfrac.
    destruct (span_digits rest') as [fs rest'']; cbn [fst] in Hfrac.
    destruct fs as [|f fs]; [intros [= <- <-]; exact Hplain |].
    intros [= <- <-]. unfold float_of_number; simpl frac_digits; cbv iota.
    cbv zeta. apply round64_nonneg. unfold Qle.
    cbn [Qnum Qden int_digits]. lia.
  - assert (Hc : match c0 with
                 | "."%char => False
                 | _ => True
                 end).
    { destruct c0 as [[] [] [] [] [] [] [] []]; try exact I.
      discriminate Edot. }
    destruct c0 as [[] [] [] [] [] [] [] []];
      try (intros [= <- <-]; exact Hplain).
    destruct Hc.
Qed.

Lemma match_component_nonneg (letter : ascii) (s : string) :
  nonneg_float (float_of_group (fst (match_component letter s))).
Proof.
  assert (H0 : nonneg_float (float_of_group None)).
  { unfold float_of_group, of_Z. rewrite round64_int by lia.
    simpl. apply Qle_refl. }
  unfold match_component.
  destruct (match_number s) as [[num rest]|] eqn:E; [| exact H0].
  destruct rest as [|c rest]; [exact H0 |].
  destruct (Ascii.eqb c letter); [| exact H0].
  simpl. eapply match_number_nonneg, E.
Qed.

(** X11.  [parse_iso8601_duration] returns [None] exactly for the texts
    that do not begin with [PT]; every text that begins with [PT],
    whatever follows, is given a number. *)
Theorem parse_none_iff_no_prefix (text : string) :
  parse_iso8601_duration text = None <-> String.prefix "PT" text = false.
Proof.
  split.
  - intros Hnone. destruct (String.prefix "PT" text) eqn:E; [| reflexivity].
    destruct (parse_accepts_prefixed text E) as (f & Hf). congruence.
  - apply parse_rejects_missing_prefix.
Qed.

Lemma parse_nonneg (text : string) (f : pyfloat) :
  parse_iso8601_duration text = Some f -> nonneg_float f.
Proof.
  unfold parse_iso8601_duration.
  destruct text as [|c0 text0]; [intros [=] |].
  set (text := String c0 text0).
  destruct (negb (String.prefix "PT" text)); [intros [=] |].
  set (rest := String.substring 2 (String.length text - 2) text).
  pose proof (match_component_nonneg "H" rest) as H1.
  destruct (match_component "H" rest) as [g1 rest1].
  pose proof (match_component_nonneg "M" rest1) as H2.
  destruct (match_component "M" rest1) as [g2 rest2].
  pose proof (match_component_nonneg "S" rest2) as H3.
  destruct (match_component "S" rest2) as [g3 rest3].
  cbn [fst] in H1, H2, H3. intros [= <-].
  apply fadd_nonneg; [apply fadd_nonneg |]; try assumption.
  - apply fmul_nonneg; [| exact H1]. split; [lia |]. now vm_compute.
  - apply fmul_nonneg; [| exact H2]. split; [lia |]. now vm_compute.
Qed.

(** X12.  A number returned by [parse_iso8601_duration] is never
    negative and never not-a-number: it is a float at least 0 or positive
    infinity. *)
Theorem parse_never_negative (text : string) (f : pyfloat) :
  parse_iso8601_duration text = Some f -> nonneg_float f.
Proof. apply parse_nonneg. Qed.

Lemma parse_never_negative_witness : nonneg_float (Finite (inject_Z 5400)).
Proof.
  apply (parse_never_negative "PT1H30M"). vm_compute. reflexivity.
Defined.

(** X13.  A float that is a whole number [k] of seconds, [0 <= k <=
    2 ^ 53], is formatted to the same text as the [int] [k], and parsing
    that text returns the float [k]. *)
Theorem whole_float_round_trip (k : Z) :
  0 <= k <= 2 ^ 53 ->
  exists text,
    format_iso8601_duration (PFloat (Finite (inject_Z k))) = Return text
    /\ format_iso8601_duration (PInt k) = Return text
    /\ parse_iso8601_duration text = Some (Finite (inject_Z k)).
Proof.
  intros Hk. destruct (parse_format_int k Hk) as (text & Hf & Hp).
  exists text. rewrite (format_float_int k Hk). auto.
Qed.

Lemma whole_float_round_trip_witness :
  exists text,
    format_iso8601_duration (PFloat (Finite (inject_Z 5400))) = Return text
    /\ format_iso8601_duration (PInt 5400) = Return text
    /\ parse_iso8601_duration text = Some (Finite (inject_Z 5400)).
Proof.
  apply (whole_float_round_trip 5400). split; [lia |]. now vm_compute.
Defined.

(** X14.  [format_iso8601_duration] formats every negative number,
    negative infinity included, as [PT0S]. *)
Theorem format_negative_is_zero (x : pynum) :
  num_neg x = true -> format_iso8601_duration x = Return "PT0S".
Proof.
  intros Hneg. unfold format_iso8601_duration. rewrite Hneg. reflexivity.
Qed.

Lemma format_negative_is_zero_witness :
  format_iso8601_duration (PFloat NegInf) = Return "PT0S"
  /\ format_iso8601_duration (PInt (- 90)) = Return "PT0S".
Proof.
  split.
  - apply (format_negative_is_zero (PFloat NegInf)). reflexivity.
  - apply (format_negative_is_zero (PInt (- 90))). reflexivity.
Defined.

(** X15.  A text [PT], then any of the components hours, minutes and
    seconds in this order, each a natural number in decimal followed by
    its letter, parses to [3600 * hours + 60 * minutes + seconds] when
    this sum is at most [2 ^ 53]; the components need not be below 60
    ([PT90M30S] is 5430 seconds). *)
Theorem parse_sums_components (oh om os : option Z) :
  component_ok oh -> component_ok om -> component_ok os ->
  3600 * default 0 oh + 60 * default 0 om + default 0 os <= 2 ^ 53 ->
  parse_iso8601_duration
    ("PT" ++ component "H" oh (component "M" om (component "S" os "")))
  = Some (Finite (inject_Z
       (3600 * default 0 oh + 60 * default 0 om + default 0 os))).
Proof.
  intros Hh Hm Hs Hsum.
  assert (Hv : forall o, component_ok o -> 0 <= default 0 o <= 2 ^ 53 ->
            component_value o = Finite (inject_Z (default 0 o))).
  { intros [z|] Ho Hb; simpl in *; [now apply round64_int | reflexivity]. }
  assert (H0 : forall o, component_ok o -> 0 <= default 0 o).
  { intros [z|] Ho; simpl in *; lia. }
  pose proof (H0 _ Hh). pose proof (H0 _ Hm). pose proof (H0 _ Hs).
  rewrite parse_components by assumption.
  rewrite !Hv by (try assumption; lia).
  unfold of_Z. rewrite !round64_int by (split; [lia | now vm_compute]).
  rewrite !fmul_int by lia. rewrite !fadd_int by lia.
  do 3 f_equal. lia.
Qed.

Lemma parse_sums_components_witness :
  parse_iso8601_duration "PT90M30S" = Some (Finite (inject_Z 5430)).
Proof.
  apply (parse_sums_components None (Some 90) (Some 30)); simpl; lia.
Defined.

End DurationMore.

(** * Further properties of instants *)

Module InstantFacts.
Import Py PyFloat Duration DateTime DurationFacts.

Lemma append_cons (c : ascii) (a b : string) :
  (String c a ++ b)%string = String c (a ++ b).
Proof. reflexivity. Qed.

Lemma append_nil (b : string) : ("" ++ b)%string = b.
Proof. reflexivity. Qed.

Ltac by_bits c :=
  destruct c as [[] [] [] [] [] [] [] []];
  try (right; left; eexists _, _; split; reflexivity).

(** How [replace_utc] goes on at the head of a text. *)
Lemma replace_utc_cases (s : string) :
  (exists r, s = String "+" (String "0" (String "0" (String ":"
                 (String "0" (String "0" r)))))
     /\ replace_utc s = String "Z" (replace_utc r))
  \/ (exists c r, s = String c r
        /\ replace_utc s = String c (replace_utc r))
  \/ s = "".
Proof.
  destruct s as [|c1 s]; [now right; right |]. by_bits c1.
  destruct s as [|c2 s]; [right; left; eexists _, _; split; reflexivity |].
  by_bits c2.
  destruct s as [|c3 s]; [right; left; eexists _, _; split; reflexivity |].
  by_bits c3.
  destruct s as [|c4 s]; [right; left; eexists _, _; split; reflexivity |].
  by_bits c4.
  destruct s as [|c5 s]; [right; left; eexists _, _; split; reflexivity |].
  by_bits c5.
  destruct s as [|c6 s]; [right; left; eexists _, _; split; reflexivity |].
  by_bits c6.
  left. exists s. split; reflexivity.
Qed.

Lemma replace_Z_cons (c : ascii) (r : string) :
  replace_Z (String c r)
  = if Ascii.eqb c "Z" then ("+00:00" ++ replace_Z r)%string
    else String c (replace_Z r).
Proof. reflexivity. Qed.

(** Parsing undoes the abbreviation: a text without the letter Z comes
    back from [replace('+00:00', 'Z')] and [replace('Z', '+00:00')]. *)
Lemma replace_Z_replace_utc (n : nat) : forall s,
  (String.length s <= n)%nat -> no_Z s = true ->
  replace_Z (replace_utc s) = s.
Proof.
  induction n as [|n IH]; intros s Hlen Hz.
  - destruct s; [reflexivity | simpl in Hlen; lia].
  - destruct (replace_utc_cases s)
      as [(r & -> & ->) | [(c & r & -> & ->) | ->]]; [| | reflexivity].
    + rewrite replace_Z_cons. change (Ascii.eqb "Z" "Z") with true.
      cbv iota. rewrite IH; [reflexivity | simpl in Hlen; lia |].
      simpl in Hz. exact Hz.
    + rewrite replace_Z_cons. simpl in Hz.
      apply andb_true_iff in Hz as [Hc Hr].
      apply negb_true_iff in Hc. rewrite Hc.
      rewrite IH; [reflexivity | simpl in Hlen; lia | exact Hr].
Qed.

(** The test [endswith('Z')] changes nothing: replacing every Z does what
    it does. *)
Lemma replace_Z_drop_last (s : string) :
  ends_with_Z s = true ->
  replace_Z (drop_last s ++ "+00:00") = replace_Z s.
Proof.
  induction s as [|c r IH]; [discriminate |].
  destruct r as [|c' r'].
  - simpl. intros ->. reflexivity.
  - intros He. change (ends_with_Z (String c (String c' r')))
      with (ends_with_Z (String c' r')) in He.
    change (drop_last (String c (String c' r')))
      with (String c (drop_last (String c' r'))).
    rewrite append_cons, !replace_Z_cons. now rewrite IH.
Qed.

Section WithLibrary.
Context `{DatetimeLib}.

Lemma parse_iso8601_datetime_eq (s : string) :
  parse_iso8601_datetime s = fromisoformat (replace_Z s).
Proof.
  unfold parse_iso8601_datetime.
  destruct (ends_with_Z s) eqn:E; [| reflexivity].
  now rewrite replace_Z_drop_last.
Qed.

(** X16.  Parsing undoes the abbreviation of the zero offset: when the
    text the library prints for an instant has no letter Z,
    [parse_iso8601_datetime(format_iso8601_datetime(dt))] is what the
    library's parser returns on the library's own text of [dt], taken in
    the zone of the machine when [dt] is naive. *)
Theorem parse_undoes_format (dt : datetime) :
  let aware := match tzinfo dt with
               | None => mk_datetime (wall dt) (Some local_utcoffset)
               | Some _ => dt
               end in
  no_Z (isoformat aware) = true ->
  parse_iso8601_datetime (format_iso8601_datetime dt)
  = fromisoformat (isoformat aware).
Proof.
  intros aware Hz. rewrite parse_iso8601_datetime_eq.
  unfold format_iso8601_datetime. fold aware.
  now rewrite (replace_Z_replace_utc _ _ (Nat.le_refl _) Hz).
Qed.

(** X17.  [calculate_end_time] returns [None] exactly when the start is
    a text that [parse_iso8601_datetime] refuses or the duration is a text
    that does not begin with [PT]; on every other input it returns a text
    or raises. *)
Theorem calculate_end_time_none (start_time : instant_arg)
    (duration : duration_arg) :
  calculate_end_time start_time duration = Return None
  <-> (exists s, start_time = IStr s /\ parse_iso8601_datetime s = None)
      \/ (exists d, duration = DStr d /\ String.prefix "PT" d = false).
Proof.
  unfold calculate_end_time, add_duration_to_datetime. split.
  - intros Hnone.
    destruct start_time as [dt | s].
    + right. destruct duration as [x | d].
      * destruct (timedelta_of_seconds x) as [td|e]; [| discriminate].
        destruct (datetime_add dt td); discriminate.
      * exists d. split; [reflexivity |].
        destruct (String.prefix "PT" d) eqn:Ed; [| reflexivity].
        destruct (parse_accepts_prefixed d Ed) as (x & Hx).
        rewrite Hx in Hnone.
        destruct (timedelta_of_seconds x) as [td|e]; [| discriminate].
        destruct (datetime_add dt td); discriminate.
    + destruct (parse_iso8601_datetime s) as [dt|] eqn:Es; [| left; eauto].
      right. destruct duration as [x | d].
      * destruct (timedelta_of_seconds x) as [td|e]; [| discriminate].
        destruct (datetime_add dt td); discriminate.
      * exists d. split; [reflexivity |].
        destruct (String.prefix "PT" d) eqn:Ed; [| reflexivity].
        destruct (parse_accepts_prefixed d Ed) as (x & Hx).
        rewrite Hx in Hnone.
        destruct (timedelta_of_seconds x) as [td|e]; [| discriminate].
        destruct (datetime_add dt td); discriminate.
  - intros [(s & -> & Hs) | (d & -> & Hd)].
    + now rewrite Hs.
    + rewrite (parse_rejects_missing_prefix d Hd).
      now destruct (match start_time with
                    | IDatetime d0 => Some d0
                    | IStr s => parse_iso8601_datetime s
                    end).
Qed.

End WithLibrary.

Lemma parse_undoes_format_witness :
  @parse_iso8601_datetime IsoCalendar.utc
    (@format_iso8601_datetime IsoCalendar.utc
       (mk_datetime 63871324800000000 (Some 0)))
  = Some (mk_datetime 63871324800000000 (Some 0)).
Proof.
  rewrite (@parse_undoes_format IsoCalendar.utc
             (mk_datetime 63871324800000000 (Some 0))).
  - vm_compute. reflexivity.
  - vm_compute. reflexivity.
Defined.

End InstantFacts.

(** * Further properties of temporal metadata *)

Module MetadataMore.
Import Py PyFloat Duration DateTime TemporalMetadata DurationFacts.
Import IsoCalendar MetadataFacts DurationMore InstantFacts.

Lemma format_parses (x : pynum) (text : string) :
  format_iso8601_duration x = Return text ->
  parse_iso8601_duration text <> None.
Proof.
  intros E.
  destruct (parse_accepts_prefixed text (format_starts_with_PT _ _ E))
    as (v & ->).
  discriminate.
Qed.

Lemma with_duration_same (self : metadata) (d : string) :
  _duration self = Some d -> with_duration self (Some d) = self.
Proof. destruct self; simpl. now intros ->. Qed.

Section WithLibrary.
Context `{DatetimeLib}.

(** What a call leaves of the instance. *)
Lemma set_duration_effect (d : duration_value) (self : metadata) :
  match fst (set_duration d self) with
  | Return _ =>
      exists text, snd (set_duration d self) = with_duration self (Some text)
                   /\ parse_iso8601_duration text <> None
  | Raise _ => snd (set_duration d self) = self
  end.
Proof.
  unfold set_duration. destruct d as [x | s |]; simpl; [| | reflexivity].
  - destruct (match x with PInt z => float_of_int z | PFloat f => Return f end)
      as [f|e]; simpl; [| reflexivity].
    destruct (format_iso8601_duration (PFloat f)) as [text|e] eqn:E; simpl;
      [| reflexivity].
    exists text. split; [reflexivity |]. eapply format_parses, E.
  - destruct (parse_iso8601_duration s) eqn:E; simpl; [| reflexivity].
    exists s. split; [reflexivity | congruence].
Qed.

Lemma set_start_time_effect (t : time_value) (self : metadata) :
  match fst (set_start_time t self) with
  | Return _ =>
      exists text, snd (set_start_time t self)
                   = with_start_time self (Some text)
  | Raise _ => snd (set_start_time t self) = self
  end.
Proof.
  unfold set_start_time. destruct t as [dt | s |]; simpl; eauto.
  destruct (parse_iso8601_datetime s); simpl; eauto.
Qed.

Lemma set_end_time_effect (t : time_value) (self : metadata) :
  match fst (set_end_time t self) with
  | Return _ =>
      exists text, snd (set_end_time t self) = with_end_time self (Some text)
  | Raise _ => snd (set_end_time t self) = self
  end.
Proof.
  unfold set_end_time. destruct t as [dt | s |]; simpl; eauto.
  destruct (parse_iso8601_datetime s); simpl; eauto.
Qed.

Lemma calculate_end_effect (self : metadata) :
  match fst (calculate_end_from_duration self) with
  | Return true =>
      exists text, snd (calculate_end_from_duration self)
                   = with_end_time self (Some text)
  | _ => snd (calculate_end_from_duration self) = self
  end.
Proof.
  unfold calculate_end_from_duration.
  destruct (_start_time self) as [s|]; [| reflexivity].
  destruct (_duration self) as [d|]; [| reflexivity].
  destruct (calculate_end_time (IStr s) (DStr d)) as [[e|]|e]; simpl; eauto.
Qed.

Lemma calculate_duration_effect (self : metadata) :
  match fst (calculate_duration self) with
  | Return true =>
      exists text, snd (calculate_duration self)
                   = with_duration self (Some text)
                   /\ parse_iso8601_duration text <> None
  | _ => snd (calculate_duration self) = self
  end.
Proof.
  unfold calculate_duration.
  destruct (_start_time self) as [s|]; [| reflexivity].
  destruct (_end_time self) as [e|]; [| reflexivity].
  destruct (parse_iso8601_datetime s) as [sd|]; [| reflexivity].
  destruct (parse_iso8601_datetime e) as [ed|]; [| reflexivity].
  destruct (datetime_sub ed sd) as [delta|x]; [| reflexivity].
  destruct (flt (total_seconds delta) (Finite 0)); [reflexivity |].
  destruct (format_iso8601_duration (PFloat (total_seconds delta)))
    as [text|x] eqn:E; [| reflexivity].
  simpl. exists text. split; [reflexivity |]. eapply format_parses, E.
Qed.

Lemma invoke_duration_valid (c : method) (self : metadata) :
  duration_valid self -> duration_valid (snd (invoke c self)).
Proof.
  intros Hv. destruct c; unfold invoke, bind, ret.
  - pose proof (set_duration_effect duration self) as He.
    destruct (set_duration duration self) as [[r|e] self']; simpl in *.
    + destruct He as (text & -> & Hp). intros d [= <-]. exact Hp.
    + now subst.
  - pose proof (set_start_time_effect start_time self) as He.
    destruct (set_start_time start_time self) as [[r|e] self']; simpl in *.
    + destruct He as (text & ->). exact Hv.
    + now subst.
  - pose proof (set_end_time_effect end_time self) as He.
    destruct (set_end_time end_time self) as [[r|e] self']; simpl in *.
    + destruct He as (text & ->). exact Hv.
    + now subst.
  - exact Hv.
  - exact Hv.
  - pose proof (calculate_end_effect self) as He.
    destruct (calculate_end_from_duration self) as [[[|]|e] self'];
      simpl in *; [| now subst | now subst].
    destruct He as (text & ->). exact Hv.
  - pose proof (calculate_duration_effect self) as He.
    destruct (calculate_duration self) as [[[|]|e] self'];
      simpl in *; [| now subst | now subst].
    destruct He as (text & -> & Hp). intros d [= <-]. exact Hp.
Qed.

Lemma run_duration_valid (cs : list method) : forall self,
  duration_valid self -> duration_valid (run cs self).
Proof.
  induction cs as [|c cs IH]; intros self Hv; [exact Hv |].
  apply IH, invoke_duration_valid, Hv.
Qed.

(** The constructor is the three setters in a row. *)
Lemma init_run (d : option duration_value) (s e : option time_value)
    (self : metadata) :
  TemporalMetadata.__init__ d s e = Return self ->
  self = run (match d with Some x => [SetDuration x] | None => [] end
              ++ match s with Some x => [SetStartTime x] | None => [] end
              ++ match e with Some x => [SetEndTime x] | None => [] end)%list
           (mk_metadata None None None).
Proof.
  unfold TemporalMetadata.__init__, run, invoke, bind, ret.
  set (m0 := mk_metadata None None None).
  destruct d as [x|]; cbn [app foldl].
  - destruct (set_duration x m0) as [[r1|e1] m1]; [| discriminate]. simpl.
    destruct s as [y|]; cbn [app foldl].
    + destruct (set_start_time y m1) as [[r2|e2] m2]; [| discriminate]. simpl.
      destruct e as [z|]; cbn [app foldl].
      * destruct (set_end_time z m2) as [[r3|e3] m3]; [| discriminate].
        now intros [= <-].
      * now intros [= <-].
    + destruct e as [z|]; cbn [app foldl].
      * destruct (set_end_time z m1) as [[r3|e3] m3]; [| discriminate].
        now intros [= <-].
      * now intros [= <-].
  - destruct s as [y|]; cbn [app foldl].
    + destruct (set_start_time y m0) as [[r2|e2] m2]; [| discriminate]. simpl.
      destruct e as [z|]; cbn [app foldl].
      * destruct (set_end_time z m2) as [[r3|e3] m3]; [| discriminate].
        now intros [= <-].
      * now intros [= <-].
    + destruct e as [z|]; cbn [app foldl].
      * destruct (set_end_time z m0) as [[r3|e3] m3]; [| discriminate].
        now intros [= <-].
      * now intros [= <-].
Qed.

(** X18.  Whatever a client does with an instance the constructor has
    returned (any calls of the setters and of the two [calculate] methods,
    with any arguments, raising or not), a duration that is set is a text
    that parses: [duration_seconds()] returns a number, and the number is
    not negative. *)
Theorem duration_always_parses
    (d : option duration_value) (s e : option time_value)
    (self : metadata) (calls : list method) (text : string) :
  TemporalMetadata.__init__ d s e = Return self ->
  _duration (run calls self) = Some text ->
  exists f, duration_seconds (run calls self) = Some f /\ nonneg_float f.
Proof.
  intros Hinit Ht.
  assert (Hv : duration_valid (run calls self)).
  { apply run_duration_valid. rewrite (init_run _ _ _ _ Hinit).
    apply run_duration_valid. intros ? [=]. }
  unfold duration_seconds. rewrite Ht.
  destruct (parse_iso8601_duration text) as [f|] eqn:E;
    [| now destruct (Hv _ Ht)].
  exists f. split; [reflexivity |]. eapply parse_nonneg, E.
Qed.

(** X19.  A call that raises, and a call of [calculate_end_from_duration]
    or [calculate_duration] that returns false, leaves the three fields of
    the instance as they were. *)
Theorem failed_call_changes_nothing (c : method) (self : metadata) :
  fst (invoke c self) <> Return None ->
  fst (invoke c self) <> Return (Some true) ->
  snd (invoke c self) = self.
Proof.
  intros Hn Ht. destruct c; unfold invoke, bind, ret in *.
  - pose proof (set_duration_effect duration self) as He.
    destruct (set_duration duration self) as [[r|e] self']; simpl in *;
      [now destruct Hn | exact He].
  - pose proof (set_start_time_effect start_time self) as He.
    destruct (set_start_time start_time self) as [[r|e] self']; simpl in *;
      [now destruct Hn | exact He].
  - pose proof (set_end_time_effect end_time self) as He.
    destruct (set_end_time end_time self) as [[r|e] self']; simpl in *;
      [now destruct Hn | exact He].
  - now destruct Hn.
  - now destruct Hn.
  - pose proof (calculate_end_effect self) as He.
    destruct (calculate_end_from_duration self) as [[[|]|e] self'];
      simpl in *; [now destruct Ht | exact He | exact He].
  - pose proof (calculate_duration_effect self) as He.
    destruct (calculate_duration self) as [[[|]|e] self'];
      simpl in *; [now destruct Ht | exact He | exact He].
Qed.

(** X20.  Every method writes at most its own field: [set_duration] and
    [calculate_duration] leave the start and the end time alone,
    [set_start_time] and [set_start_now] leave the duration and the end
    time alone, and [set_end_time], [set_end_now] and
    [calculate_end_from_duration] leave the duration and the start time
    alone. *)
Theorem method_writes_one_field (c : method) (self : metadata) :
  let self' := snd (invoke c self) in
  match c with
  | SetDuration _ | CalculateDuration =>
      _start_time self' = _start_time self /\ _end_time self' = _end_time self
  | SetStartTime _ | SetStartNow _ =>
      _duration self' = _duration self /\ _end_time self' = _end_time self
  | SetEndTime _ | SetEndNow _ | CalculateEndFromDuration =>
      _duration self' = _duration self
      /\ _start_time self' = _start_time self
  end.
Proof.
  destruct c; unfold invoke, bind, ret; cbn zeta.
  - pose proof (set_duration_effect duration self) as He.
    destruct (set_duration duration self) as [[r|e] self']; simpl in *.
    + destruct He as (text & -> & _). auto.
    + subst. auto.
  - pose proof (set_start_time_effect start_time self) as He.
    destruct (set_start_time start_time self) as [[r|e] self']; simpl in *.
    + destruct He as (text & ->). auto.
    + subst. auto.
  - pose proof (set_end_time_effect end_time self) as He.
    destruct (set_end_time end_time self) as [[r|e] self']; simpl in *.
    + destruct He as (text & ->). auto.
    + subst. auto.
  - simpl. auto.
  - simpl. auto.
  - pose proof (calculate_end_effect self) as He.
    destruct (calculate_end_from_duration self) as [[[|]|e] self'];
      simpl in *; [| subst; auto | subst; auto].
    destruct He as (text & ->). auto.
  - pose proof (calculate_duration_effect self) as He.
    destruct (calculate_duration self) as [[[|]|e] self'];
      simpl in *; [| subst; auto | subst; auto].
    destruct He as (text & -> & _). auto.
Qed.

Lemma to_dict_lookup (self : metadata) :
  to_dict self !! "duration" = option_map PVStr (_duration self)
  /\ to_dict self !! "start_time" = option_map PVStr (_start_time self)
  /\ to_dict self !! "end_time" = option_map PVStr (_end_time self).
Proof.
  destruct self as [[d|] [s|] [e|]]; unfold to_dict; simpl;
    repeat split; reflexivity.
Qed.

Lemma from_dict_to_dict (self : metadata) :
  from_dict (to_dict self) = TemporalMetadata.copy self.
Proof.
  unfold from_dict, TemporalMetadata.copy.
  destruct (to_dict_lookup self) as (-> & -> & ->).
  now destruct (_duration self), (_start_time self), (_end_time self).
Qed.

(** X21.  On an instance whose three fields have passed the checks of
    the setters, [copy()] returns an instance with the same three fields,
    and so does [from_dict(to_dict())]. *)
Theorem copy_returns_equal (self : metadata) :
  duration_valid self -> start_valid self -> end_valid self ->
  TemporalMetadata.copy self = Return self
  /\ from_dict (to_dict self) = Return self.
Proof.
  intros Hd Hs He. rewrite from_dict_to_dict.
  assert (Hc : TemporalMetadata.copy self = Return self); [| now split].
  unfold TemporalMetadata.copy, TemporalMetadata.__init__, bind, ret.
  destruct self as [d s e]. unfold duration_valid, start_valid, end_valid in *.
  simpl in *.
  destruct d as [d|]; cbn [option_map].
  - unfold set_duration.
    destruct (parse_iso8601_duration d) eqn:Ed; [| now destruct (Hd d)].
    destruct s as [s|]; cbn [option_map].
    + unfold set_start_time.
      destruct (parse_iso8601_datetime s) eqn:Es; [| now destruct (Hs s)].
      destruct e as [e|]; cbn [option_map]; [| reflexivity].
      unfold set_end_time.
      destruct (parse_iso8601_datetime e) eqn:Ee; [| now destruct (He e)].
      reflexivity.
    + destruct e as [e|]; cbn [option_map]; [| reflexivity].
      unfold set_end_time.
      destruct (parse_iso8601_datetime e) eqn:Ee; [| now destruct (He e)].
      reflexivity.
  - destruct s as [s|]; cbn [option_map].
    + unfold set_start_time.
      destruct (parse_iso8601_datetime s) eqn:Es; [| now destruct (Hs s)].
      destruct e as [e|]; cbn [option_map]; [| reflexivity].
      unfold set_end_time.
      destruct (parse_iso8601_datetime e) eqn:Ee; [| now destruct (He e)].
      reflexivity.
    + destruct e as [e|]; cbn [option_map]; [| reflexivity].
      unfold set_end_time.
      destruct (parse_iso8601_datetime e) eqn:Ee; [| now destruct (He e)].
      reflexivity.
Qed.

(** X22.  [set_duration(n)] for an [int] [n] between [-2 ^ 53] and
    [2 ^ 53] returns, and [duration_seconds()] is then [n], or 0 when [n]
    is negative; the float of the same value stores the same text. *)
Theorem set_duration_whole_seconds (n : Z) (self : metadata) :
  - 2 ^ 53 <= n <= 2 ^ 53 ->
  fst (set_duration (VNum (PInt n)) self) = Return tt
  /\ duration_seconds (snd (set_duration (VNum (PInt n)) self))
     = Some (Finite (inject_Z (Z.max 0 n)))
  /\ fst (set_duration (VNum (PFloat (Finite (inject_Z n)))) self) = Return tt
  /\ snd (set_duration (VNum (PFloat (Finite (inject_Z n)))) self)
     = snd (set_duration (VNum (PInt n)) self).
Proof.
  intros Hn. unfold set_duration, float_of_int, duration_seconds.
  assert (Hr : round64 (inject_Z n) = Finite (inject_Z n)).
  { destruct (Z_lt_le_dec n 0); [apply round64_neg_int | apply round64_int];
      lia. }
  rewrite Hr.
  destruct (Z_lt_le_dec n 0) as [Hneg | Hpos].
  - assert (Hf : format_iso8601_duration (PFloat (Finite (inject_Z n)))
                 = Return "PT0S").
    { unfold format_iso8601_duration. cbn [num_neg].
      rewrite flt_zero_int.
      replace (n <? 0) with true by (symmetry; apply Z.ltb_lt; lia).
      reflexivity. }
    rewrite Hf. cbn [fst snd _duration with_duration].
    replace (Z.max 0 n) with 0 by lia.
    repeat split.
  - destruct (parse_format_int n ltac:(lia)) as (text & Hf & Hp).
    rewrite (format_float_int n ltac:(lia)), Hf.
    cbn [fst snd _duration with_duration].
    replace (Z.max 0 n) with n by lia. auto.
Qed.

(** X23.  [calculate_duration] undoes [calculate_end_from_duration]:
    with an aware start time and the duration text of a whole number of
    seconds, when the end is in range and the library reads back the text
    of the end, the first call sets the end time and returns true, and
    [calculate_duration()] then returns true and leaves the instance, its
    duration included, as it is. *)
Theorem calculate_duration_undoes_end
    (self : metadata) (start duration : string) (start_dt : datetime)
    (offset n : Z) :
  _start_time self = Some start -> _duration self = Some duration ->
  parse_iso8601_datetime start = Some start_dt ->
  tzinfo start_dt = Some offset ->
  format_iso8601_duration (PInt n) = Return duration ->
  0 <= n <= 2 ^ 53 ->
  timedelta_in_range (n * us_per_second) = true ->
  0 <= wall start_dt + n * us_per_second <= max_wall ->
  let end_dt := mk_datetime (wall start_dt + n * us_per_second)
                  (Some offset) in
  parse_iso8601_datetime (format_iso8601_datetime end_dt) = Some end_dt ->
  exists self',
    calculate_end_from_duration self = (Return true, self')
    /\ _end_time self' = Some (format_iso8601_datetime end_dt)
    /\ calculate_duration self' = (Return true, self').
Proof.
  intros Hs Hd Es Htz Hf Hn Hr Hrange end_dt Hend.
  exists (with_end_time self (Some (format_iso8601_datetime end_dt))).
  split.
  { rewrite (calculate_end_adds_whole_seconds self start duration start_dt n)
      by assumption.
    subst end_dt. now rewrite Htz. }
  split; [reflexivity |].
  set (self' := with_end_time self (Some (format_iso8601_datetime end_dt))).
  destruct (calculate_duration_whole_seconds self' start
              (format_iso8601_datetime end_dt) start_dt end_dt n)
    as [_ Hpos]; try assumption; try reflexivity.
  - unfold datetime_sub, end_dt. simpl. rewrite Htz. f_equal. lia.
  - lia.
  - destruct (Hpos ltac:(lia)) as (text & Hf' & _ & ->).
    rewrite Hf in Hf'. injection Hf' as <-.
    f_equal. apply with_duration_same. exact Hd.
Qed.

End WithLibrary.

Lemma duration_always_parses_witness :
  exists f,
    @duration_seconds
      (@run utc [SetDuration (VText "oops"); CalculateDuration;
                 SetDuration (VNum (PInt 90))]
         (mk_metadata None (Some "2025-01-01T10:00:00Z")
            (Some "2025-01-01T10:30:00Z"))) = Some f
    /\ nonneg_float f.
Proof.
  apply (@duration_always_parses utc None
           (Some (TText "2025-01-01T10:00:00Z"))
           (Some (TText "2025-01-01T10:30:00Z")) _ _ "PT1M30S").
  - vm_compute. reflexivity.
  - vm_compute. reflexivity.
Defined.

Lemma failed_call_changes_nothing_witness :
  snd (@invoke utc (SetDuration (VText "90 minutes")) half_hour_task)
  = half_hour_task.
Proof.
  apply (@failed_call_changes_nothing utc).
  - vm_compute. discriminate.
  - vm_compute. discriminate.
Defined.

Lemma copy_returns_equal_witness :
  @TemporalMetadata.copy utc half_hour_task = Return half_hour_task
  /\ @from_dict utc (to_dict half_hour_task) = Return half_hour_task.
Proof.
  apply (@copy_returns_equal utc half_hour_task).
  - intros d [= <-]. vm_compute. discriminate.
  - intros s [= <-]. vm_compute. discriminate.
  - intros s [=].
Defined.

Lemma set_duration_whole_seconds_witness :
  fst (set_duration (VNum (PInt 5400)) half_hour_task) = Return tt
  /\ duration_seconds (snd (set_duration (VNum (PInt 5400)) half_hour_task))
     = Some (Finite (inject_Z (Z.max 0 5400)))
  /\ fst (set_duration (VNum (PFloat (Finite (inject_Z 5400))))
            half_hour_task) = Return tt
  /\ snd (set_duration (VNum (PFloat (Finite (inject_Z 5400))))
            half_hour_task)
     = snd (set_duration (VNum (PInt 5400)) half_hour_task).
Proof.
  apply (set_duration_whole_seconds 5400 half_hour_task).
  split; [vm_compute; discriminate | vm_compute; discriminate].
Defined.

Lemma calculate_duration_undoes_end_witness :
  exists self',
    @calculate_end_from_duration utc half_hour_task = (Return true, self')
    /\ _end_time self' = Some "2025-01-01T10:30:00Z"
    /\ @calculate_duration utc self' = (Return true, self').
Proof.
  apply (@calculate_duration_undoes_end utc half_hour_task
           "2025-01-01T10:00:00Z" "PT30M"
           (mk_datetime 63871322400000000 (Some 0)) 0 1800).
  - reflexivity.
  - reflexivity.
  - vm_compute. reflexivity.
  - reflexivity.
  - vm_compute. reflexivity.
  - split; [lia |]. vm_compute. discriminate.
  - vm_compute. reflexivity.
  - vm_compute. split; discriminate.
  - vm_compute. reflexivity.
Defined.

End MetadataMore.

(** * Further properties of the registry of actions *)

Module ActionsMore.
Import Py PyFloat Duration DateTime TemporalMetadata Actions ActionsFacts.
Import MetadataFacts MetadataMore.

Lemma keeps_names_refl self : keeps_names self self.
Proof. repeat split; reflexivity. Qed.

Lemma keeps_names_trans a b c :
  keeps_names a b -> keeps_names b c -> keeps_names a c.
Proof.
  intros (A1 & A2 & A3 & A4) (B1 & B2 & B3 & B4).
  repeat split; etransitivity; eassumption.
Qed.

Lemma register_keeps name f self : keeps_names self (register name f self).
Proof.
  unfold keeps_names, register; simpl. rewrite !dom_insert_L.
  repeat split; set_solver.
Qed.

Lemma declare_actions_keeps l self :
  keeps_names self (snd (declare_actions l self)).
Proof.
  unfold declare_actions.
  destruct l; simpl; try apply keeps_names_refl.
  destruct (negb (forallb callable items)); simpl; [apply keeps_names_refl |].
  destruct (names_of items) as [names|]; simpl; [| apply keeps_names_refl].
  unfold keeps_names; simpl. rewrite !dom_update.
  repeat split; set_solver.
Qed.

Lemma declare_action_models_keeps p c self :
  keeps_names self (snd (declare_action_models p c self)).
Proof.
  rewrite declare_action_models_snd. unfold keeps_names; simpl.
  rewrite !dom_update. repeat split; set_solver.
Qed.

Section WithLibrary.
Context `{DatetimeLib}.

Lemma store_metadata_keeps name d self :
  keeps_names self (snd (store_metadata name d self)).
Proof.
  unfold store_metadata.
  destruct (TemporalMetadata.__init__ _ _ _); simpl;
    [| apply keeps_names_refl].
  unfold keeps_names; simpl. rewrite dom_insert_L. repeat split; set_solver.
Qed.

Lemma declare_temporal_item_keeps item self :
  keeps_names self (snd (declare_temporal_item item self)).
Proof.
  unfold declare_temporal_item.
  destruct (elements_of item) as [[|a [|b [|c [|e l]]]]|]; simpl;
    try apply keeps_names_refl.
  - destruct (negb (callable a)); simpl; [apply keeps_names_refl |].
    destruct (name_of a) as [name|]; simpl; [| apply keeps_names_refl].
    eapply keeps_names_trans; [| apply store_metadata_keeps].
    destruct (action_dict self !! name);
      [apply keeps_names_refl | apply register_keeps].
  - destruct a; simpl; try apply keeps_names_refl.
    destruct (negb (callable b)); simpl; [apply keeps_names_refl |].
    eapply keeps_names_trans; [apply register_keeps | apply store_metadata_keeps].
Qed.

Lemma declare_temporal_items_keeps items : forall self,
  keeps_names self (snd (declare_temporal_items items self)).
Proof.
  induction items as [|item items IH]; intros self; simpl;
    [apply keeps_names_refl |].
  unfold bind.
  pose proof (declare_temporal_item_keeps item self) as Hk.
  destruct (declare_temporal_item item self) as [[[]|e] self']; simpl in *.
  - eapply keeps_names_trans; [exact Hk | apply IH].
  - exact Hk.
Qed.

Lemma declare_keeps d self : keeps_names self (snd (declare d self)).
Proof.
  destruct d as [l | p c | l]; simpl.
  - apply declare_actions_keeps.
  - apply declare_action_models_keeps.
  - unfold declare_temporal_actions.
    destruct l; simpl; try apply keeps_names_refl.
    apply declare_temporal_items_keeps.
Qed.

(** X24.  No declaration call removes a name: after any sequence of
    calls of [declare_actions], [declare_action_models] and
    [declare_temporal_actions], raising or not, each of the four
    dictionaries still has every key it had.  In particular a call of
    [declare_actions] adds to the actions of the earlier calls. *)
Theorem declarations_never_remove (ds : list declaration) (self : actions) :
  dom (action_dict self) ⊆ dom (action_dict (declare_all ds self))
  /\ dom (action_prob self) ⊆ dom (action_prob (declare_all ds self))
  /\ dom (action_cost self) ⊆ dom (action_cost (declare_all ds self))
  /\ dom (action_temporal_dict self)
     ⊆ dom (action_temporal_dict (declare_all ds self)).
Proof.
  change (keeps_names self (declare_all ds self)).
  revert self. induction ds as [|d ds IH]; intros self;
    [apply keeps_names_refl |].
  eapply keeps_names_trans; [apply declare_keeps | apply IH].
Qed.

Lemma init_duration_only (d : option duration_value) (m : metadata) :
  TemporalMetadata.__init__ d None None = Return m ->
  _start_time m = None /\ _end_time m = None /\ duration_valid m.
Proof.
  intros Hinit. rewrite (init_run _ _ _ _ Hinit).
  destruct d as [x|]; simpl.
  - unfold bind, ret.
    pose proof (set_duration_effect x (mk_metadata None None None)) as He.
    destruct (set_duration x (mk_metadata None None None)) as [[r|e] m'];
      simpl in *.
    + destruct He as (text & -> & Hp). repeat split; auto.
      intros d [= <-]. exact Hp.
    + subst. repeat split; auto. intros ? [=].
  - repeat split; auto. intros ? [=].
Qed.

Lemma temporal_ok_grow self self' :
  temporal_ok self ->
  action_temporal_dict self' = action_temporal_dict self ->
  dom (action_dict self) ⊆ dom (action_dict self') ->
  temporal_ok self'.
Proof.
  intros Hok Et Hd name m Hm. rewrite Et in Hm.
  destruct (Hok name m Hm) as (Hin & Hrest). split; [| exact Hrest].
  apply elem_of_dom. apply Hd. now apply elem_of_dom.
Qed.

Lemma store_metadata_ok name d self :
  temporal_ok self -> is_Some (action_dict self !! name) ->
  temporal_ok (snd (store_metadata name d self)).
Proof.
  intros Hok Hin. unfold store_metadata.
  destruct (TemporalMetadata.__init__ (duration_of d) None None)
    as [m|e] eqn:E; simpl; [| exact Hok].
  intros k m' Hk. simpl in Hk.
  destruct (decide (k = name)) as [-> | Hne].
  - rewrite lookup_insert_eq in Hk. injection Hk as <-.
    split; [exact Hin | now apply init_duration_only with (d := duration_of d)].
  - rewrite lookup_insert_ne in Hk by congruence. now apply Hok.
Qed.

Lemma register_ok name f self :
  temporal_ok self ->
  temporal_ok (register name f self)
  /\ is_Some (action_dict (register name f self) !! name).
Proof.
  intros Hok. split.
  - eapply temporal_ok_grow; [exact Hok | reflexivity |].
    apply (register_keeps name f self).
  - simpl. rewrite lookup_insert_eq. eauto.
Qed.

Lemma declare_temporal_item_ok item self :
  temporal_ok self -> temporal_ok (snd (declare_temporal_item item self)).
Proof.
  intros Hok. unfold declare_temporal_item.
  destruct (elements_of item) as [[|a [|b [|c [|e l]]]]|]; simpl; try exact Hok.
  - destruct (negb (callable a)); simpl; [exact Hok |].
    destruct (name_of a) as [name|]; simpl; [| exact Hok].
    destruct (action_dict self !! name) as [f|] eqn:E.
    + apply store_metadata_ok; [exact Hok | rewrite E; eauto].
    + apply store_metadata_ok; now apply register_ok.
  - destruct a; simpl; try exact Hok.
    destruct (negb (callable b)); simpl; [exact Hok |].
    apply store_metadata_ok; now apply register_ok.
Qed.

Lemma declare_temporal_items_ok items : forall self,
  temporal_ok self -> temporal_ok (snd (declare_temporal_items items self)).
Proof.
  induction items as [|item items IH]; intros self Hok; simpl; [exact Hok |].
  unfold bind.
  pose proof (declare_temporal_item_ok item self Hok) as Hok'.
  destruct (declare_temporal_item item self) as [[[]|e] self']; simpl in *.
  - now apply IH.
  - exact Hok'.
Qed.

Lemma declare_ok d self : temporal_ok self -> temporal_ok (snd (declare d self)).
Proof.
  intros Hok. destruct d as [l | p c | l]; simpl.
  - eapply temporal_ok_grow; [exact Hok | | apply declare_actions_keeps].
    unfold declare_actions. destruct l; try reflexivity.
    destruct (negb _); [reflexivity |].
    now destruct (names_of items).
  - eapply temporal_ok_grow; [exact Hok | | apply declare_action_models_keeps].
    now rewrite declare_action_models_snd.
  - unfold declare_temporal_actions. destruct l; simpl; try exact Hok.
    now apply declare_temporal_items_ok.
Qed.

Lemma declare_all_ok ds : forall self,
  temporal_ok self -> temporal_ok (declare_all ds self).
Proof.
  induction ds as [|d ds IH]; intros self Hok; [exact Hok |].
  apply IH, declare_ok, Hok.
Qed.

(** X25.  In a registry built from a new one by any sequence of
    declaration calls, an action that [has_temporal_info] is a registered
    action, and [get_temporal_metadata] returns for it metadata without
    start and end time whose duration, if set, parses. *)
Theorem temporal_actions_are_registered
    (ds : list declaration) (name : string) :
  let self := declare_all ds new_actions in
  has_temporal_info name self = true ->
  is_Some (action_dict self !! name)
  /\ exists m, get_temporal_metadata name self = Some m
       /\ _start_time m = None /\ _end_time m = None
       /\ forall d, _duration m = Some d -> parse_iso8601_duration d <> None.
Proof.
  intros self Hinfo. unfold has_temporal_info in Hinfo.
  apply bool_decide_eq_true_1 in Hinfo as [m Hm].
  assert (Hok : temporal_ok self).
  { apply declare_all_ok. intros k m' Hk. simpl in Hk.
    now rewrite lookup_empty in Hk. }
  destruct (Hok name m Hm) as (Hin & Hs & He & Hd).
  split; [exact Hin |]. exists m. auto.
Qed.

(** X26.  [declare_temporal_actions] on a list is the same as on its
    first part and then, if that call returns, on the rest: when an item
    raises, the items before it stay declared. *)
Theorem declare_temporal_actions_app (a b : list pyobj) (self : actions) :
  declare_temporal_actions (OList (a ++ b)) self
  = (do _ <- declare_temporal_actions (OList a);
     declare_temporal_actions (OList b)) self.
Proof.
  unfold declare_temporal_actions. revert self.
  induction a as [|x a IH]; intros self; [reflexivity |].
  simpl. unfold bind in *.
  destruct (declare_temporal_item x self) as [[[]|e] self']; [| reflexivity].
  apply IH.
Qed.

(** X27.  On a name that is registered, the item [(function, duration)]
    of [declare_temporal_actions] keeps the registered function, its
    probabilities and its cost, where the item [(name, function,
    duration)] replaces the function and resets the probabilities and the
    cost to their defaults. *)
Theorem two_tuple_keeps_three_tuple_replaces
    (self : actions) (name : string) (f0 f duration : pyobj) :
  action_dict self !! name = Some f0 -> callable f = true ->
  let kept := snd (declare_temporal_item
                     (OTuple [OFunction name; duration]) self) in
  let replaced := snd (declare_temporal_item
                         (OTuple [OStr name; f; duration]) self) in
  (action_dict kept = action_dict self
   /\ action_prob kept = action_prob self
   /\ action_cost kept = action_cost self)
  /\ (action_dict replaced !! name = Some f
      /\ action_prob replaced !! name = Some default_prob
      /\ action_cost replaced !! name = Some default_cost).
Proof.
  intros Hin Hf. unfold declare_temporal_item. simpl. rewrite Hin, Hf. simpl.
  unfold store_metadata.
  destruct (TemporalMetadata.__init__ (duration_of duration) None None);
    simpl; rewrite !lookup_insert_eq; auto.
Qed.

End WithLibrary.

Lemma update_lookup_map {V} (g : string -> V) (names : list string) :
  forall (d : gmap string V) k,
  update d (map (fun n => (n, g n)) names) !! k
  = if decide (k ∈ names) then Some (g k) else d !! k.
Proof.
  unfold update. induction names as [|n names IH]; intros d k;
    cbn [map foldl fst snd].
  - rewrite decide_False; [reflexivity |]. intros Hin. inversion Hin.
  - rewrite IH. destruct (decide (k ∈ names)) as [Hin | Hnin].
    + rewrite decide_True by now right. reflexivity.
    + destruct (decide (k = n)) as [-> | Hne].
      * rewrite lookup_insert_eq. rewrite decide_True by left. reflexivity.
      * rewrite lookup_insert_ne by congruence.
        rewrite decide_False; [reflexivity |].
        intros Hin. apply elem_of_cons in Hin as [? | ?]; congruence.
Qed.

Lemma names_of_functions l names :
  names_of l = Return names -> l = map OFunction names.
Proof.
  revert names. induction l as [|o l IH]; intros names; simpl.
  - now intros [= <-].
  - destruct o; simpl; try discriminate.
    destruct (names_of l) as [ns|]; [| discriminate].
    intros [= <-]. simpl. f_equal. now apply IH.
Qed.

Lemma combine_functions names :
  combine names (map OFunction names)
  = map (fun n => (n, OFunction n)) names.
Proof. induction names as [|n names IH]; simpl; [reflexivity | now f_equal]. Qed.

(** X28.  [declare_actions] is all or nothing and never touches the
    temporal metadata: when it raises, the registry is as before; when it
    returns, the list was a list of functions, each of their names maps to
    its function with probabilities [[1, 0]] and cost [1.0], and every
    other name maps to what it mapped to. *)
Theorem declare_actions_all_or_nothing (action_list : pyobj) (self : actions) :
  let self' := snd (declare_actions action_list self) in
  action_temporal_dict self' = action_temporal_dict self
  /\ match fst (declare_actions action_list self) with
     | Raise _ => self' = self
     | Return _ =>
         exists names, action_list = OList (map OFunction names)
           /\ forall k,
                if decide (k ∈ names)
                then action_dict self' !! k = Some (OFunction k)
                     /\ action_prob self' !! k = Some default_prob
                     /\ action_cost self' !! k = Some default_cost
                else action_dict self' !! k = action_dict self !! k
                     /\ action_prob self' !! k = action_prob self !! k
                     /\ action_cost self' !! k = action_cost self !! k
     end.
Proof.
  unfold declare_actions.
  destruct action_list as [| | | | | l | |]; simpl; auto.
  destruct (negb (forallb callable l)); simpl; [auto |].
  destruct (names_of l) as [names|] eqn:E; simpl; [| auto].
  split; [reflexivity |]. exists names.
  pose proof (names_of_functions _ _ E) as ->. split; [reflexivity |].
  intros k. rewrite combine_functions.
  rewrite (update_lookup_map OFunction), (update_lookup_map (fun _ => default_prob)),
    (update_lookup_map (fun _ => default_cost)).
  destruct (decide (k ∈ names)); auto.
Qed.

Lemma temporal_actions_are_registered_witness :
  let self := @declare_all IsoCalendar.utc
                [DeclareTemporalActions
                   (OList [OTuple [OFunction "walk"; OStr "PT5M"];
                           OTuple [OStr "ride"; OCallable; OStr "soon"]]);
                 DeclareActions (OList [OFunction "fly"])]
                new_actions in
  is_Some (action_dict self !! "walk")
  /\ exists m, get_temporal_metadata "walk" self = Some m
       /\ _start_time m = None /\ _end_time m = None
       /\ forall d, _duration m = Some d -> parse_iso8601_duration d <> None.
Proof.
  apply (@temporal_actions_are_registered IsoCalendar.utc
           [DeclareTemporalActions
              (OList [OTuple [OFunction "walk"; OStr "PT5M"];
                      OTuple [OStr "ride"; OCallable; OStr "soon"]]);
            DeclareActions (OList [OFunction "fly"])] "walk").
  vm_compute. reflexivity.
Defined.

Lemma two_tuple_keeps_three_tuple_replaces_witness :
  let self := snd (declare_actions (OList [OFunction "walk"]) new_actions) in
  let kept := snd (@declare_temporal_item IsoCalendar.utc
                     (OTuple [OFunction "walk"; OStr "PT5M"]) self) in
  let replaced := snd (@declare_temporal_item IsoCalendar.utc
                         (OTuple [OStr "walk"; OCallable; OStr "PT5M"])
                         self) in
  (action_dict kept = action_dict self
   /\ action_prob kept = action_prob self
   /\ action_cost kept = action_cost self)
  /\ (action_dict replaced !! "walk" = Some OCallable
      /\ action_prob replaced !! "walk" = Some default_prob
      /\ action_cost replaced !! "walk" = Some default_cost).
Proof.
  apply (@two_tuple_keeps_three_tuple_replaces IsoCalendar.utc
           (snd (declare_actions (OList [OFunction "walk"]) new_actions))
           "walk" (OFunction "walk") OCallable (OStr "PT5M")).
  - vm_compute. reflexivity.
  - reflexivity.
Defined.

End ActionsMore.

(** * Properties of states *)

Module StateFacts.
Import DateTime State.

Section WithValues.
Context `{DatetimeLib}.
Context {Action Value : Type}.

Implicit Types (h : @heap Action Value) (x y : @entry Action).

Ltac unfold_s :=
  unfold update, add_to_timeline, get_timeline, clear_timeline, list_append,
    read_state, read_list, write_state, write_list, alloc_list, alloc_state,
    timeline_of, bind, ret.

(** What the methods do on a state that is in the store. *)
Lemma update_eq h (s t : addr) (os ot : state) :
  states h !! s = Some os -> states h !! t = Some ot ->
  update s t h =
  (Return s,
   mk_heap (lists h)
     (<[s := mk_state (__name__ ot) (_current_time ot) (_initial_time_set ot)
               (_timeline ot) (vars ot ∪ vars os)]> (states h))).
Proof. intros Hs Ht. unfold_s. now rewrite Hs, Ht. Qed.

Lemma add_to_timeline_eq h (s : addr) (o : state) (l : list entry) a b e :
  states h !! s = Some o -> lists h !! _timeline o = Some l ->
  add_to_timeline s a b e h =
  (Return tt,
   mk_heap (<[_timeline o := (l ++ [(a, b, e)])%list]> (lists h)) (states h)).
Proof. intros Hs Hl. unfold_s. now rewrite Hs, Hl. Qed.

Lemma clear_timeline_eq h (s : addr) (o : state) :
  states h !! s = Some o ->
  clear_timeline s h =
  (Return tt,
   mk_heap (<[fresh (dom (lists h)) := []]> (lists h))
     (<[s := mk_state (__name__ o) (_current_time o) (_initial_time_set o)
               (fresh (dom (lists h))) (vars o)]> (states h))).
Proof. intros Hs. unfold_s. now rewrite Hs. Qed.

Lemma get_timeline_eq h (s : addr) (o : state) (l : list entry) :
  states h !! s = Some o -> lists h !! _timeline o = Some l ->
  get_timeline s h =
  (Return (fresh (dom (lists h))),
   mk_heap (<[fresh (dom (lists h)) := l]> (lists h)) (states h)).
Proof. intros Hs Hl. unfold_s. now rewrite Hs, Hl. Qed.

Lemma list_append_eq h (c : addr) (l : list entry) x :
  lists h !! c = Some l ->
  list_append c x h
  = (Return tt, mk_heap (<[c := (l ++ [x])%list]> (lists h)) (states h)).
Proof. intros Hl. unfold_s. now rewrite Hl. Qed.

Lemma fresh_list_ne h (a : addr) (l : list entry) :
  lists h !! a = Some l -> fresh (dom (lists h)) <> a.
Proof.
  intros Hl E. apply (is_fresh (dom (lists h))). rewrite E.
  apply elem_of_dom. eauto.
Qed.

(** X29.  [update] shares the timeline: after [s.update(t)] the two
    states hold the same list, so an entry added through either of them
    is in the timeline of both; [s.clear_timeline()] then gives [s] a new
    empty list and leaves the timeline of [t] as it is. *)
Theorem update_shares_timeline
    h (s t : addr) (os ot : state) (lt : list entry) x y :
  states h !! s = Some os -> states h !! t = Some ot ->
  lists h !! _timeline ot = Some lt -> s <> t ->
  let h1 := snd (update s t h) in
  let h2 := snd (add_to_timeline s (fst (fst x)) (snd (fst x)) (snd x) h1) in
  let h3 := snd (add_to_timeline t (fst (fst y)) (snd (fst y)) (snd y) h2) in
  let h4 := snd (clear_timeline s h3) in
  fst (update s t h) = Return s
  /\ timeline_of h1 s = Some lt
  /\ timeline_of h2 s = Some (lt ++ [x])%list
  /\ timeline_of h2 t = Some (lt ++ [x])%list
  /\ timeline_of h3 s = Some (lt ++ [x; y])%list
  /\ timeline_of h4 s = Some []
  /\ timeline_of h4 t = Some (lt ++ [x; y])%list.
Proof.
  intros Hs Ht Hl Hne. destruct x as [[xa xs] xe], y as [[ya ys] ye].
  cbn [fst snd]. rewrite (update_eq _ _ _ _ _ Hs Ht). cbn [fst snd].
  set (o1 := mk_state (__name__ ot) (_current_time ot) (_initial_time_set ot)
               (_timeline ot) (vars ot ∪ vars os)).
  set (h1 := mk_heap (lists h) (<[s := o1]> (states h))).
  assert (H1s : states h1 !! s = Some o1) by apply lookup_insert_eq.
  assert (H1t : states h1 !! t = Some ot)
    by (simpl; now rewrite lookup_insert_ne by congruence).
  rewrite (add_to_timeline_eq h1 s o1 lt xa xs xe H1s Hl). cbn [snd].
  set (l2 := (lt ++ [(xa, xs, xe)])%list).
  set (h2 := mk_heap (<[_timeline o1 := l2]> (lists h1)) (states h1)).
  assert (H2l : lists h2 !! _timeline ot = Some l2) by apply lookup_insert_eq.
  rewrite (add_to_timeline_eq h2 t ot l2 ya ys ye H1t H2l). cbn [snd].
  set (l3 := (l2 ++ [(ya, ys, ye)])%list).
  set (h3 := mk_heap (<[_timeline ot := l3]> (lists h2)) (states h2)).
  assert (H3l : lists h3 !! _timeline ot = Some l3) by apply lookup_insert_eq.
  rewrite (clear_timeline_eq h3 s o1 H1s). cbn [snd].
  set (o4 := mk_state (__name__ o1) (_current_time o1) (_initial_time_set o1)
               (fresh (dom (lists h3))) (vars o1)).
  set (h4 := mk_heap (<[fresh (dom (lists h3)) := []]> (lists h3))
               (<[s := o4]> (states h3))).
  assert (H2s : states h2 !! s = Some o1) by exact H1s.
  assert (H2t : states h2 !! t = Some ot) by exact H1t.
  assert (H3s : states h3 !! s = Some o1) by exact H1s.
  assert (H4s : states h4 !! s = Some o4) by apply lookup_insert_eq.
  assert (H4t : states h4 !! t = Some ot).
  { unfold h4. cbn [states]. rewrite lookup_insert_ne by congruence.
    exact H1t. }
  assert (H4l : lists h4 !! _timeline ot = Some l3).
  { unfold h4. cbn [lists]. rewrite lookup_insert_ne; [exact H3l |].
    now apply (fresh_list_ne h3 _ l3). }
  assert (H4n : lists h4 !! _timeline o4 = Some []) by apply lookup_insert_eq.
  unfold timeline_of.
  rewrite H1s, H2s, H2t, H3s, H4s, H4t, H4n, H4l.
  assert (H3l' : lists h3 !! _timeline ot
                 = Some (lt ++ [(xa, xs, xe); (ya, ys, ye)])%list).
  { rewrite H3l. f_equal. subst l3 l2. now rewrite <- app_assoc. }
  split; [reflexivity |]. split; [exact Hl |]. split; [exact H2l |].
  split; [exact H2l |]. split; [exact H3l' |]. split; [reflexivity |].
  transitivity (lists h3 !! _timeline ot); [exact (eq_sym H3l) | exact H3l'].
Qed.

(** X30.  [get_timeline] returns a snapshot: the list it returns has
    the entries of the timeline, it is not changed when the state adds an
    entry or clears its timeline, and appending to it does not change the
    timeline of the state. *)
Theorem get_timeline_is_a_snapshot
    h (s : addr) (o : state) (l : list entry) x :
  states h !! s = Some o -> lists h !! _timeline o = Some l ->
  exists c h1,
    get_timeline s h = (Return c, h1)
    /\ lists h1 !! c = Some l
    /\ timeline_of h1 s = Some l
    /\ (let h2 := snd (add_to_timeline s (fst (fst x)) (snd (fst x)) (snd x)
                         h1) in
        timeline_of h2 s = Some (l ++ [x])%list /\ lists h2 !! c = Some l)
    /\ (let h2 := snd (clear_timeline s h1) in
        timeline_of h2 s = Some [] /\ lists h2 !! c = Some l)
    /\ (let h2 := snd (list_append c x h1) in
        timeline_of h2 s = Some l /\ lists h2 !! c = Some (l ++ [x])%list).
Proof.
  intros Hs Hl. destruct x as [[xa xs] xe]. cbn [fst snd].
  rewrite (get_timeline_eq _ _ _ _ Hs Hl).
  set (c := fresh (dom (lists h))).
  set (h1 := mk_heap (<[c := l]> (lists h)) (states h)).
  assert (Hc : c <> _timeline o) by now apply (fresh_list_ne h _ l).
  assert (H1c : lists h1 !! c = Some l) by apply lookup_insert_eq.
  assert (H1l : lists h1 !! _timeline o = Some l)
    by (simpl; now rewrite lookup_insert_ne).
  exists c, h1. split; [reflexivity |]. split; [exact H1c |].
  assert (H1s : states h1 !! s = Some o) by exact Hs.
  unfold timeline_of. rewrite H1s. split; [exact H1l |].
  split; [| split].
  - rewrite (add_to_timeline_eq h1 s o l xa xs xe Hs H1l). cbn [snd].
    set (h2 := mk_heap _ _).
    assert (H2s : states h2 !! s = Some o) by exact Hs. rewrite H2s.
    unfold h2. cbn [lists]. rewrite lookup_insert_eq. split; [reflexivity |].
    rewrite lookup_insert_ne by congruence. exact H1c.
  - rewrite (clear_timeline_eq h1 s o Hs). cbn [snd].
    set (o2 := mk_state _ _ _ _ _). set (h2 := mk_heap _ _).
    assert (H2s : states h2 !! s = Some o2) by apply lookup_insert_eq.
    rewrite H2s. unfold h2, o2. cbn [lists _timeline].
    rewrite lookup_insert_eq. split; [reflexivity |].
    rewrite lookup_insert_ne; [exact H1c |].
    now apply (fresh_list_ne h1 _ l).
  - rewrite (list_append_eq h1 c l _ H1c). cbn [snd].
    set (h2 := mk_heap _ _).
    assert (H2s : states h2 !! s = Some o) by exact Hs. rewrite H2s.
    unfold h2. cbn [lists]. rewrite lookup_insert_eq. split; [| reflexivity].
    rewrite lookup_insert_ne by congruence. exact H1l.
Qed.

End WithValues.

Lemma update_shares_timeline_witness :
  let h1 := snd (update 0%nat 1%nat sample_store) in
  let h2 := snd (add_to_timeline 0%nat (fst (fst ride)) (snd (fst ride))
                   (snd ride) h1) in
  let h3 := snd (add_to_timeline 1%nat (fst (fst rest)) (snd (fst rest))
                   (snd rest) h2) in
  let h4 := snd (clear_timeline 0%nat h3) in
  fst (update 0%nat 1%nat sample_store) = Return 0%nat
  /\ timeline_of h1 0%nat = Some [walk]
  /\ timeline_of h2 0%nat = Some ([walk] ++ [ride])%list
  /\ timeline_of h2 1%nat = Some ([walk] ++ [ride])%list
  /\ timeline_of h3 0%nat = Some ([walk] ++ [ride; rest])%list
  /\ timeline_of h4 0%nat = Some []
  /\ timeline_of h4 1%nat = Some ([walk] ++ [ride; rest])%list.
Proof.
  apply (update_shares_timeline sample_store 0%nat 1%nat
           (mk_state "s" "2025-01-01T10:00:00Z" true 0%nat ∅)
           (mk_state "t" "2025-01-01T11:00:00Z" true 1%nat ∅)
           [walk] ride rest).
  - reflexivity.
  - reflexivity.
  - reflexivity.
  - discriminate.
Defined.

Lemma get_timeline_is_a_snapshot_witness :
  exists c h1,
    get_timeline 1%nat sample_store = (Return c, h1)
    /\ lists h1 !! c = Some [walk]
    /\ timeline_of h1 1%nat = Some [walk]
    /\ (let h2 := snd (add_to_timeline 1%nat (fst (fst ride))
                         (snd (fst ride)) (snd ride) h1) in
        timeline_of h2 1%nat = Some ([walk] ++ [ride])%list
        /\ lists h2 !! c = Some [walk])
    /\ (let h2 := snd (clear_timeline 1%nat h1) in
        timeline_of h2 1%nat = Some [] /\ lists h2 !! c = Some [walk])
    /\ (let h2 := snd (list_append c ride h1) in
        timeline_of h2 1%nat = Some [walk]
        /\ lists h2 !! c = Some ([walk] ++ [ride])%list).
Proof.
  apply (get_timeline_is_a_snapshot sample_store 1%nat
           (mk_state "t" "2025-01-01T11:00:00Z" true 1%nat ∅) [walk] ride).
  - reflexivity.
  - reflexivity.
Defined.

End StateFacts.

